(** * json-stream-builder: a shallow embedding of [src/index.ts]

    The library builds a JSON document as a tree of builder objects.  Every
    builder owns a [PassThrough] stream, a queue of child builders and a
    pointer to the child whose stream is currently piped into its own.  The
    embedding keeps the classes and methods of the source:

    - the platform pieces the source calls ([JSON.stringify], [JSON.parse],
      [PassThrough]) are modelled in the first two sections;
    - the methods of a class are state transformers on the fields of [this],
      which may create further objects and may throw;
    - objects live in a heap; a method call, the forwarding of a chunk through
      a pipe and the delivery of an ['end'] event are the atomic events of an
      execution.

    The development then shows that independent events commute, so that the
    heap an execution ends in depends on the calls made on each builder
    only; that the stream events of an execution come to an end; what text
    a finished document has; that the walk of the property tests rebuilds
    every value; and that the collector reads back what the encoder
    wrote. *)

From stdpp Require Import gmap strings list.
From Stdlib Require Import ZArith DecimalString DecimalZ Ascii String.
From Stdlib Require DecimalPos DecimalFacts.

Set Warnings "-register-all".
Open Scope string_scope.

(* ================================================================== *)
(** * JSON values and the platform encoder *)
(* ================================================================== *)

(** The [number] type of the source.  The finite numbers of the model are the
    integers, printed in decimal; the three non-finite numbers are kept,
    because [JSON.stringify] treats them specially. *)
Inductive JsNumber :=
| Finite (z : Z)
| NaN
| Infinity (negative : bool).

(** [type JsonPrimitive = null | string | number | boolean] *)
Inductive JsonPrimitive :=
| PNull
| PString (s : string)
| PNumber (n : JsNumber)
| PBool (b : bool).

(** [type JsonValue = JsonPrimitive | Array<JsonValue> | { [k: string]: JsonValue }]

    An object is the list of its properties in enumeration order.  The
    TypeScript type is also inhabited by circular structures; [JCircular up]
    stands, inside an array or an object, for a reference back to the
    [up]-th enclosing array or object. *)
Inductive JsonValue :=
| JPrim (p : JsonPrimitive)
| JArray (items : list JsonValue)
| JObject (props : list (string * JsonValue))
| JCircular (up : nat).

Module JSON.

  (** The quotation mark and the backslash. *)
Definition dquote : ascii := ascii_of_nat 34.
Definition backslash : ascii := ascii_of_nat 92.

Definition hex_digit (n : N) : ascii :=
    ascii_of_N (if (n <? 10)%N then 48 + n else 87 + n)%N.

  (** Escaping of one character inside a string literal. *)
Definition escape (c : ascii) : string :=
    let n := N_of_ascii c in
    if (n =? 8)%N then "\b"
    else if (n =? 9)%N then "\t"
    else if (n =? 10)%N then "\n"
    else if (n =? 12)%N then "\f"
    else if (n =? 13)%N then "\r"
    else if (n =? 34)%N then String backslash (String dquote EmptyString)
    else if (n =? 92)%N then String backslash (String backslash EmptyString)
    else if (n <? 32)%N then
      "\u00" ++ String (hex_digit (n / 16)) (String (hex_digit (n mod 16)) EmptyString)
    else String c EmptyString.

Fixpoint escape_all (s : string) : string :=
    match s with
    | EmptyString => EmptyString
    | String c rest => escape c ++ escape_all rest
    end.

  (** The string literal for [s]. *)
Definition quote (s : string) : string :=
    String dquote (escape_all s ++ String dquote EmptyString).

Definition number_literal (n : JsNumber) : string :=
    match n with
    | Finite z => NilZero.string_of_int (Z.to_int z)
    | NaN | Infinity _ => "null"
    end.

Definition literal (p : JsonPrimitive) : string :=
    match p with
    | PNull => "null"
    | PString s => quote s
    | PNumber n => number_literal n
    | PBool true => "true"
    | PBool false => "false"
    end.

Definition join (sep : string) (parts : list string) : string :=
    String.concat sep parts.

  (** [JSON.stringify(value)] without indentation.  [None] is the [TypeError]
      thrown when the walk meets a structure it is already inside of. *)
Fixpoint stringify (v : JsonValue) : option string :=
    match v with
    | JPrim p => Some (literal p)
    | JArray items =>
        let fix elements (l : list JsonValue) : option (list string) :=
          match l with
          | [] => Some []
          | x :: rest =>
              match stringify x, elements rest with
              | Some s, Some ss => Some (s :: ss)
              | _, _ => None
              end
          end in
        match elements items with
        | Some ss => Some ("[" ++ join "," ss ++ "]")
        | None => None
        end
    | JObject props =>
        let fix members (l : list (string * JsonValue)) : option (list string) :=
          match l with
          | [] => Some []
          | (k, x) :: rest =>
              match stringify x, members rest with
              | Some s, Some ss => Some ((quote k ++ ":" ++ s) :: ss)
              | _, _ => None
              end
          end in
        match members props with
        | Some ss => Some ("{" ++ join "," ss ++ "}")
        | None => None
        end
    | JCircular _ => None
    end.

  (** ** [JSON.parse]

      A recursive-descent reader of the JSON grammar.  [None] is the
      [SyntaxError].  Numbers are read as far as the model has them (integer
      literals); a property that occurs twice keeps its first place and its
      last value. *)

Definition is_ws (c : ascii) : bool :=
    let n := N_of_ascii c in
    ((n =? 32) || (n =? 9) || (n =? 10) || (n =? 13))%N.

Fixpoint skip_ws (l : list ascii) : list ascii :=
    match l with
    | c :: rest => if is_ws c then skip_ws rest else l
    | [] => []
    end.

Definition is_digit (c : ascii) : bool :=
    let n := N_of_ascii c in ((48 <=? n) && (n <=? 57))%N.

Fixpoint take_digits (l : list ascii) : list ascii * list ascii :=
    match l with
    | c :: rest =>
        if is_digit c then let '(ds, r) := take_digits rest in (c :: ds, r)
        else ([], l)
    | [] => ([], [])
    end.

Definition parse_number (l : list ascii) : option (JsonValue * list ascii) :=
    let '(sign, body) :=
      match l with
      | "-"%char :: rest => (["-"%char], rest)
      | _ => ([], l)
      end in
    let '(ds, rest) := take_digits body in
    let well_formed :=
      match ds with
      | [] => false
      | "0"%char :: _ :: _ => false
      | _ => true
      end in
    let continues :=
      match rest with
      | c :: _ => (Ascii.eqb c "." || Ascii.eqb c "e" || Ascii.eqb c "E")%bool
      | [] => false
      end in
    if (well_formed && negb continues)%bool then
      match NilZero.int_of_string (string_of_list_ascii (sign ++ ds)) with
      | Some d => Some (JPrim (PNumber (Finite (Z.of_int d))), rest)
      | None => None
      end
    else None.

Definition hex_value (c : ascii) : option N :=
    let n := N_of_ascii c in
    if ((48 <=? n) && (n <=? 57))%N then Some (n - 48)%N
    else if ((97 <=? n) && (n <=? 102))%N then Some (n - 87)%N
    else if ((65 <=? n) && (n <=? 70))%N then Some (n - 55)%N
    else None.

  (** The characters of a string literal after its opening quotation mark.
      A [\u] escape is read when it names one of the 256 characters of the
      model. *)
Fixpoint parse_chars (l : list ascii) : option (string * list ascii) :=
    match l with
    | [] => None
    | c :: rest =>
        if Ascii.eqb c dquote then Some (EmptyString, rest)
        else if Ascii.eqb c backslash then
          match rest with
          | e :: rest' =>
              let simple (x : ascii) :=
                match parse_chars rest' with
                | Some (s, r) => Some (String x s, r)
                | None => None
                end in
              if Ascii.eqb e dquote then simple dquote
              else if Ascii.eqb e backslash then simple backslash
              else if Ascii.eqb e "/" then simple "/"%char
              else if Ascii.eqb e "b" then simple (ascii_of_nat 8)
              else if Ascii.eqb e "f" then simple (ascii_of_nat 12)
              else if Ascii.eqb e "n" then simple (ascii_of_nat 10)
              else if Ascii.eqb e "r" then simple (ascii_of_nat 13)
              else if Ascii.eqb e "t" then simple (ascii_of_nat 9)
              else if Ascii.eqb e "u" then
                match rest' with
                | h1 :: h2 :: h3 :: h4 :: rest'' =>
                    match hex_value h1, hex_value h2, hex_value h3, hex_value h4,
                          parse_chars rest'' with
                    | Some 0%N, Some 0%N, Some a, Some b, Some (s, r) =>
                        Some (String (ascii_of_N (16 * a + b)) s, r)
                    | _, _, _, _, _ => None
                    end
                | _ => None
                end
              else None
          | [] => None
          end
        else if (N_of_ascii c <? 32)%N then None
        else
          match parse_chars rest with
          | Some (s, r) => Some (String c s, r)
          | None => None
          end
    end.

Fixpoint set_prop (k : string) (v : JsonValue) (props : list (string * JsonValue))
    : list (string * JsonValue) :=
    match props with
    | [] => [(k, v)]
    | (k', v') :: rest =>
        if String.eqb k k' then (k', v) :: rest else (k', v') :: set_prop k v rest
    end.

Fixpoint parse_value (fuel : nat) (l : list ascii) : option (JsonValue * list ascii) :=
    match fuel with
    | O => None
    | S fuel =>
        match skip_ws l with
        | "n"%char :: "u"%char :: "l"%char :: "l"%char :: rest => Some (JPrim PNull, rest)
        | "t"%char :: "r"%char :: "u"%char :: "e"%char :: rest =>
            Some (JPrim (PBool true), rest)
        | "f"%char :: "a"%char :: "l"%char :: "s"%char :: "e"%char :: rest =>
            Some (JPrim (PBool false), rest)
        | "["%char :: rest =>
            match skip_ws rest with
            | "]"%char :: rest' => Some (JArray [], rest')
            | _ =>
                match parse_elements fuel rest with
                | Some (vs, r) => Some (JArray vs, r)
                | None => None
                end
            end
        | "{"%char :: rest =>
            match skip_ws rest with
            | "}"%char :: rest' => Some (JObject [], rest')
            | _ =>
                match parse_members fuel [] rest with
                | Some (ps, r) => Some (JObject ps, r)
                | None => None
                end
            end
        | c :: rest =>
            if Ascii.eqb c dquote then
              match parse_chars rest with
              | Some (s, r) => Some (JPrim (PString s), r)
              | None => None
              end
            else parse_number (c :: rest)
        | [] => None
        end
    end
  with parse_elements (fuel : nat) (l : list ascii)
    : option (list JsonValue * list ascii) :=
    match fuel with
    | O => None
    | S fuel =>
        match parse_value fuel l with
        | Some (v, r) =>
            match skip_ws r with
            | ","%char :: r' =>
                match parse_elements fuel r' with
                | Some (vs, r'') => Some (v :: vs, r'')
                | None => None
                end
            | "]"%char :: r' => Some ([v], r')
            | _ => None
            end
        | None => None
        end
    end
  with parse_members (fuel : nat) (seen : list (string * JsonValue)) (l : list ascii)
    : option (list (string * JsonValue) * list ascii) :=
    match fuel with
    | O => None
    | S fuel =>
        match skip_ws l with
        | c :: rest =>
            if Ascii.eqb c dquote then
              match parse_chars rest with
              | Some (k, r) =>
                  match skip_ws r with
                  | ":"%char :: r' =>
                      match parse_value fuel r' with
                      | Some (v, r'') =>
                          match skip_ws r'' with
                          | ","%char :: r3 => parse_members fuel (set_prop k v seen) r3
                          | "}"%char :: r3 => Some (set_prop k v seen, r3)
                          | _ => None
                          end
                      | None => None
                      end
                  | _ => None
                  end
              | None => None
              end
            else None
        | [] => None
        end
    end.

Definition parse (text : string) : option JsonValue :=
    let l := list_ascii_of_string text in
    match parse_value (S (List.length l)) l with
    | Some (v, rest) =>
        match skip_ws rest with
        | [] => Some v
        | _ :: _ => None
        end
    | None => None
    end.

End JSON.

(** Text with quotation marks, written with apostrophes in their place:
    [text "{'a':1}"] is the seven characters of the JSON object. *)
Fixpoint text (s : string) : string :=
  match s with
  | EmptyString => EmptyString
  | String c rest => String (if Ascii.eqb c "'" then JSON.dquote else c) (text rest)
  end.


Open Scope list_scope.

(* ================================================================== *)
(** * The platform stream *)
(* ================================================================== *)

(** A [PassThrough]: the chunks that were written and not yet taken by the
    consumer, whether the end of the data was signalled, and whether a write
    arrived after that. *)
Record PassThrough := mkStream {
  buffer : list string;
  ended : bool;
  errored : bool;
}.

Module Stream.

Definition create : PassThrough :=
    {| buffer := []; ended := false; errored := false |}.

  (** [stream.push(data)] *)
Definition push (data : string) (s : PassThrough) : PassThrough :=
    {| buffer := buffer s ++ [data]; ended := ended s; errored := errored s |}.

  (** [stream.push(null)] and [stream.end()] *)
Definition end_ (s : PassThrough) : PassThrough :=
    {| buffer := buffer s; ended := true; errored := errored s |}.

  (** [stream.write(data)], as a pipe does it: after the end it is an error
      and the chunk is lost. *)
Definition write (data : string) (s : PassThrough) : PassThrough :=
    if ended s then {| buffer := buffer s; ended := true; errored := true |}
    else push data s.

  (** The consumer has taken the first chunk. *)
Definition shift (s : PassThrough) : PassThrough :=
    {| buffer := tail (buffer s); ended := ended s; errored := errored s |}.

  (** All its data was taken and the end was signalled: ['end'] is emitted. *)
Definition finished (s : PassThrough) : bool :=
    match buffer s with
    | [] => ended s
    | _ :: _ => false
    end.

End Stream.

(* ================================================================== *)
(** * Builders *)
(* ================================================================== *)

(** The four classes that extend [Builder]. *)
Inductive Kind := JsonStream | ObjectStream | ArrayStream | ValueStream.

(** An object is named by the place of its creation: the name of the object
    whose method (or constructor) ran [new], followed by the number of
    objects that one had created before.  The builder [createBuilder]
    returns is named []. *)
Abbreviation Id := (list nat).

(** The fields of a builder.  [pipes] lists the builders whose streams are
    piped into [stream] by [asStream().pipe(this.stream, { end: false })],
    each with the ['end'] listener registered next to it; [created] counts
    the objects this one has created. *)
Record Builder := mkBuilder {
  kind : Kind;
  parent : option Id;
  stream : PassThrough;
  pipes : list Id;
  queue : list Id;
  current : option Id;
  endScheduled : bool;
  firstPropertyInserted : bool;
  firstItemInserted : bool;
  created : nat;
}.

Definition set_stream (f : PassThrough -> PassThrough) (b : Builder) : Builder :=
  mkBuilder (kind b) (parent b) (f (stream b)) (pipes b) (queue b) (current b)
    (endScheduled b) (firstPropertyInserted b) (firstItemInserted b) (created b).
Definition set_pipes (f : list Id -> list Id) (b : Builder) : Builder :=
  mkBuilder (kind b) (parent b) (stream b) (f (pipes b)) (queue b) (current b)
    (endScheduled b) (firstPropertyInserted b) (firstItemInserted b) (created b).
Definition set_queue (q : list Id) (b : Builder) : Builder :=
  mkBuilder (kind b) (parent b) (stream b) (pipes b) q (current b)
    (endScheduled b) (firstPropertyInserted b) (firstItemInserted b) (created b).
Definition set_current (c : option Id) (b : Builder) : Builder :=
  mkBuilder (kind b) (parent b) (stream b) (pipes b) (queue b) c
    (endScheduled b) (firstPropertyInserted b) (firstItemInserted b) (created b).
Definition set_endScheduled (e : bool) (b : Builder) : Builder :=
  mkBuilder (kind b) (parent b) (stream b) (pipes b) (queue b) (current b)
    e (firstPropertyInserted b) (firstItemInserted b) (created b).
Definition set_firstPropertyInserted (e : bool) (b : Builder) : Builder :=
  mkBuilder (kind b) (parent b) (stream b) (pipes b) (queue b) (current b)
    (endScheduled b) e (firstItemInserted b) (created b).
Definition set_firstItemInserted (e : bool) (b : Builder) : Builder :=
  mkBuilder (kind b) (parent b) (stream b) (pipes b) (queue b) (current b)
    (endScheduled b) (firstPropertyInserted b) e (created b).
Definition set_created (n : nat) (b : Builder) : Builder :=
  mkBuilder (kind b) (parent b) (stream b) (pipes b) (queue b) (current b)
    (endScheduled b) (firstPropertyInserted b) (firstItemInserted b) n.

(** ** The base class *)
Module Builder.

  (** The field initialisers and [constructor(parent)]. *)
Definition create (k : Kind) (parent : option Id) : Builder :=
    {| kind := k; parent := parent; stream := Stream.create; pipes := [];
       queue := []; current := None; endScheduled := false;
       firstPropertyInserted := false; firstItemInserted := false;
       created := 0 |}.

  (** [consumeChildBuilder()] *)
Definition consumeChildBuilder (this : Builder) : Builder :=
    match current this with
    | Some _ => this
    | None =>
        (* this.current = this.queue.shift() || null *)
        let this := set_queue (tail (queue this)) (set_current (head (queue this)) this) in
        match current this with
        | None =>
            if endScheduled this then set_stream Stream.end_ this else this
        | Some c =>
            (* this.current.asStream().pipe(this.stream, { end: false });
               this.current.asStream().on('end', ...) *)
            set_pipes (fun ps => ps ++ [c]) this
        end
    end.

  (** [addChildBuilder(child)] *)
Definition addChildBuilder (child : Id) (this : Builder) : Builder :=
    if endScheduled this then this
    else consumeChildBuilder (set_queue (queue this ++ [child]) this).

  (** [scheduleEnd()] *)
Definition scheduleEnd (this : Builder) : Builder :=
    consumeChildBuilder (set_endScheduled true this).

  (** The ['end'] of the piped child [c] reaches this builder: the pipe
      detaches, then the listener of [consumeChildBuilder] runs. *)
Definition onChildEnd (c : Id) (this : Builder) : Builder :=
    let this := set_pipes (filter (fun x => x ≠ c)) this in
    consumeChildBuilder (set_current None this).

End Builder.

(** ** Method bodies

    A method runs on [this], creates objects and may throw.  [born] collects
    the objects created so far, each with the state its constructor and the
    method chained to [new] left it in. *)
Record Frame := mkFrame {
  self : Id;
  this : Builder;
  born : list (Id * Builder);
}.

Inductive Outcome (A : Type) :=
| Return (a : A) (f : Frame)
| Throw (f : Frame).
Arguments Return {A} a f.
Arguments Throw {A} f.

Definition M (A : Type) := Frame -> Outcome A.

Definition ret {A} (a : A) : M A := fun f => Return a f.

Definition bind {A B} (m : M A) (k : A -> M B) : M B :=
  fun f =>
    match m f with
    | Return a f' => k a f'
    | Throw f' => Throw f'
    end.

#[global] Instance M_ret : MRet M := @ret.
#[global] Instance M_bind : MBind M := fun A B k m => bind m k.

(** Reading a field of [this], and assigning to [this]. *)
Definition get {A} (field : Builder -> A) : M A :=
  fun f => Return (field (this f)) f.
Definition update (g : Builder -> Builder) : M unit :=
  fun f => Return tt (mkFrame (self f) (g (this f)) (born f)).
Definition me : M Id :=
  fun f => Return (self f) f.

(** [new C(parent)], followed by [init] running on the new object: the
    constructor body of [C], or the method chained to the [new] expression. *)
Definition new_ (k : Kind) (parent : option Id) (init : M unit) : M Id :=
  fun f =>
    let i := self f ++ [created (this f)] in
    let after (o : Frame) :=
      mkFrame (self f) (set_created (S (created (this f))) (this f))
              (born f ++ (i, this o) :: born o) in
    match init (mkFrame i (Builder.create k parent) []) with
    | Return _ o => Return i (after o)
    | Throw o => Throw (after o)
    end.

(** [JSON.stringify(data)] inside a method. *)
Definition stringify (data : JsonValue) : M string :=
  fun f =>
    match JSON.stringify data with
    | Some s => Return s f
    | None => Throw f
    end.

Definition addChildBuilder (child : Id) : M unit := update (Builder.addChildBuilder child).
Definition scheduleEnd : M unit := update Builder.scheduleEnd.

Module ValueStreamBuilder.

  (** [rawValue(data)] *)
Definition rawValue (data : string) : M unit :=
    update (set_stream (Stream.push data));;
    update (set_stream Stream.end_).

  (** [value(data)] *)
Definition value (data : JsonValue) : M unit :=
    s ← stringify data;
    rawValue s.

End ValueStreamBuilder.

Module ObjectStreamBuilder.

Definition constructor : M unit :=
    i ← me;
    v ← new_ ValueStream (Some i) (ValueStreamBuilder.rawValue "{");
    addChildBuilder v.

Definition insertCommaIfNeeded : M unit :=
    first ← get firstPropertyInserted;
    if negb first then update (set_firstPropertyInserted true)
    else
      i ← me;
      v ← new_ ValueStream (Some i) (ValueStreamBuilder.rawValue ",");
      addChildBuilder v.

Definition pushProperty (key : string) (value : JsonValue) : M (option Id) :=
    insertCommaIfNeeded;;
    i ← me;
    v ← new_ ValueStream (Some i)
           (s ← stringify value;
            ValueStreamBuilder.rawValue
              (String JSON.dquote key +:+ String JSON.dquote ":" +:+ s));
    addChildBuilder v;;
    ret (Some i).

Definition addProperty (key : string) (value : option JsonValue) : M (option Id) :=
    match value with
    | Some value => pushProperty key value
    | None =>
        i ← me;
        builder ← new_ JsonStream (Some i) (ret tt);
        insertCommaIfNeeded;;
        k ← new_ ValueStream (Some i)
               (ValueStreamBuilder.rawValue
                  (String JSON.dquote key +:+ String JSON.dquote ":"));
        addChildBuilder k;;
        addChildBuilder builder;;
        ret (Some builder)
    end.

Definition end_ : M (option Id) :=
    i ← me;
    v ← new_ ValueStream (Some i) (ValueStreamBuilder.rawValue "}");
    addChildBuilder v;;
    scheduleEnd;;
    get parent.

End ObjectStreamBuilder.

Module ArrayStreamBuilder.

Definition constructor : M unit :=
    i ← me;
    v ← new_ ValueStream (Some i) (ValueStreamBuilder.rawValue "[");
    addChildBuilder v.

Definition insertCommaIfNeeded : M unit :=
    first ← get firstItemInserted;
    if negb first then update (set_firstItemInserted true)
    else
      i ← me;
      v ← new_ ValueStream (Some i) (ValueStreamBuilder.rawValue ",");
      addChildBuilder v.

Definition pushItem (value : JsonValue) : M (option Id) :=
    insertCommaIfNeeded;;
    i ← me;
    v ← new_ ValueStream (Some i) (ValueStreamBuilder.value value);
    addChildBuilder v;;
    ret (Some i).

Definition addItem (value : option JsonValue) : M (option Id) :=
    match value with
    | Some value => pushItem value
    | None =>
        i ← me;
        builder ← new_ JsonStream (Some i) (ret tt);
        insertCommaIfNeeded;;
        addChildBuilder builder;;
        ret (Some builder)
    end.

Definition end_ : M (option Id) :=
    i ← me;
    v ← new_ ValueStream (Some i) (ValueStreamBuilder.rawValue "]");
    addChildBuilder v;;
    scheduleEnd;;
    get parent.

End ArrayStreamBuilder.

Module JsonStreamBuilder.

  (** [value(data)] (private) *)
Definition value (data : JsonValue) : M (option Id) :=
    p ← get parent;
    builder ← new_ ValueStream p (ValueStreamBuilder.value data);
    addChildBuilder builder;;
    scheduleEnd;;
    i ← me;
    ret (Some i).

  (** [end()] *)
Definition end_ : M (option Id) :=
    scheduleEnd;;
    get parent.

  (** [primitive(data)]: [return this.value(data).end()] *)
Definition primitive (data : JsonPrimitive) : M (option Id) :=
    value (JPrim data);;
    end_.

  (** [object(data?)] *)
Definition object (data : option (list (string * JsonValue))) : M (option Id) :=
    match data with
    | Some data => value (JObject data)
    | None =>
        p ← get parent;
        builder ← new_ ObjectStream p ObjectStreamBuilder.constructor;
        addChildBuilder builder;;
        scheduleEnd;;
        ret (Some builder)
    end.

  (** [array(data?)] *)
Definition array (data : option (list JsonValue)) : M (option Id) :=
    match data with
    | Some data => value (JArray data)
    | None =>
        p ← get parent;
        builder ← new_ ArrayStream p ArrayStreamBuilder.constructor;
        addChildBuilder builder;;
        scheduleEnd;;
        ret (Some builder)
    end.

End JsonStreamBuilder.

(* ================================================================== *)
(** * The heap and the events of an execution *)
(* ================================================================== *)

(** The public methods, with their arguments.  An optional parameter that is
    [undefined] (passed so, or left out) is [None]. *)
Inductive Op :=
| primitive (data : JsonPrimitive)
| object (data : option (list (string * JsonValue)))
| array (data : option (list JsonValue))
| end_
| addProperty (key : string) (value : option JsonValue)
| addItem (value : option JsonValue).

(** Method lookup: what [o] names in class [k]. *)
Definition method (k : Kind) (o : Op) : option (M (option Id)) :=
  match k, o with
  | JsonStream, primitive data => Some (JsonStreamBuilder.primitive data)
  | JsonStream, object data => Some (JsonStreamBuilder.object data)
  | JsonStream, array data => Some (JsonStreamBuilder.array data)
  | JsonStream, end_ => Some JsonStreamBuilder.end_
  | ObjectStream, addProperty key value => Some (ObjectStreamBuilder.addProperty key value)
  | ObjectStream, end_ => Some ObjectStreamBuilder.end_
  | ArrayStream, addItem value => Some (ArrayStreamBuilder.addItem value)
  | ArrayStream, end_ => Some ArrayStreamBuilder.end_
  | _, _ => None
  end.

(** Storing the objects of a frame. *)
Definition commit (f : Frame) (σ : gmap Id Builder) : gmap Id Builder :=
  <[self f := this f]> (foldr (fun ib => <[ib.1 := ib.2]>) σ (born f)).

Definition frame_of {A} (o : Outcome A) : Frame :=
  match o with
  | Return _ f => f
  | Throw f => f
  end.

(** What the caller gets back: a builder (or [null]), or an exception. *)
Inductive Result :=
| Returned (r : option Id)
| Thrown.

Definition result_of (o : Outcome (option Id)) : Result :=
  match o with
  | Return r _ => Returned r
  | Throw _ => Thrown
  end.

(** The call [h.o(...)]. *)
Definition call (h : Id) (o : Op) (σ : gmap Id Builder) : option (Result * gmap Id Builder) :=
  match σ !! h with
  | Some b =>
      match method (kind b) o with
      | Some m =>
          let out := m (mkFrame h b []) in
          Some (result_of out, commit (frame_of out) σ)
      | None => None
      end
  | None => None
  end.

(** The atomic events: a method call by some holder of the builder [h]; the
    stream of [c] hands a chunk to the pipe into the stream of [p]; the
    stream of [c] emits ['end'] to the listeners [p] has on it. *)
Inductive Event :=
| Call (h : Id) (o : Op)
| OnData (p c : Id)
| OnEnd (p c : Id).

Definition step (e : Event) (σ : gmap Id Builder) : option (gmap Id Builder) :=
  match e with
  | Call h o => snd <$> call h o σ
  | OnData p c =>
      match σ !! p, σ !! c with
      | Some bp, Some bc =>
          if decide (c ∈ pipes bp) then
            match buffer (stream bc) with
            | chunk :: _ =>
                Some (<[p := set_stream (Stream.write chunk) bp]>
                        (<[c := set_stream Stream.shift bc]> σ))
            | [] => None
            end
          else None
      | _, _ => None
      end
  | OnEnd p c =>
      match σ !! p, σ !! c with
      | Some bp, Some bc =>
          if decide (c ∈ pipes bp) then
            if Stream.finished (stream bc) then Some (<[p := Builder.onChildEnd c bp]> σ)
            else None
          else None
      | _, _ => None
      end
  end.

Fixpoint run (t : list Event) (σ : gmap Id Builder) : option (gmap Id Builder) :=
  match t with
  | [] => Some σ
  | e :: t' =>
      match step e σ with
      | Some σ' => run t' σ'
      | None => None
      end
  end.

(** [createBuilder()]: a heap with the one builder it returns. *)
Definition root : Id := [].
Definition createBuilder : gmap Id Builder :=
  {[ root := Builder.create JsonStream None ]}.

(** The stream events that can happen in [σ], and a scheduler that lets
    them happen, the first one first, until none is left. *)
Definition ready (σ : gmap Id Builder) : list Event :=
  '(p, bp) ← map_to_list σ;
  c ← pipes bp;
  match σ !! c with
  | Some bc =>
      match buffer (stream bc) with
      | _ :: _ => [OnData p c]
      | [] => if ended (stream bc) then [OnEnd p c] else []
      end
  | None => []
  end.

Fixpoint settle (fuel : nat) (σ : gmap Id Builder) : gmap Id Builder :=
  match fuel with
  | O => σ
  | S fuel =>
      match ready σ with
      | e :: _ =>
          match step e σ with
          | Some σ' => settle fuel σ'
          | None => σ
          end
      | [] => σ
      end
  end.

(** No stream event can happen. *)
Definition quiescent (σ : gmap Id Builder) : Prop :=
  forall p c, step (OnData p c) σ = None /\ step (OnEnd p c) σ = None.

(** ** The collector *)

(** What has arrived on the stream of [h]. *)
Definition output (h : Id) (σ : gmap Id Builder) : string :=
  match σ !! h with
  | Some b => String.concat "" (buffer (stream b))
  | None => ""
  end.

Definition closed (h : Id) (σ : gmap Id Builder) : bool :=
  match σ !! h with
  | Some b => ended (stream b)
  | None => false
  end.

Inductive Promise :=
| Pending
| Resolved (v : JsonValue)
| Rejected.

(** [toJson(builder.asStream())] for the root builder: the chunks are
    joined and parsed once the stream has ended. *)
Definition toJson (σ : gmap Id Builder) : Promise :=
  if closed root σ then
    match JSON.parse (output root σ) with
    | Some v => Resolved v
    | None => Rejected
    end
  else Pending.

(* ================================================================== *)
(** * What a method does to [this] *)
(* ================================================================== *)

Arguments Builder.consumeChildBuilder : simpl never.
Arguments Builder.addChildBuilder : simpl never.
Arguments Builder.scheduleEnd : simpl never.
Arguments Builder.onChildEnd : simpl never.
Arguments JSON.stringify : simpl never.
Arguments JSON.literal : simpl never.

(** The base-class methods leave the other fields alone. *)
Definition same_fields (b' b : Builder) : Prop :=
  kind b' = kind b /\ parent b' = parent b /\
  firstPropertyInserted b' = firstPropertyInserted b /\
  firstItemInserted b' = firstItemInserted b /\
  created b' = created b /\
  buffer (stream b') = buffer (stream b) /\
  errored (stream b') = errored (stream b).

Lemma consume_fields b :
  same_fields (Builder.consumeChildBuilder b) b /\
  endScheduled (Builder.consumeChildBuilder b) = endScheduled b.
Proof.
  unfold Builder.consumeChildBuilder, same_fields.
  destruct (current b); [repeat split; congruence|]. simpl.
  destruct (head (queue b)); simpl; [repeat split; congruence|].
  destruct (endScheduled b) eqn:E; simpl; repeat split; congruence.
Qed.

Lemma addChild_fields x b :
  same_fields (Builder.addChildBuilder x b) b /\
  endScheduled (Builder.addChildBuilder x b) = endScheduled b.
Proof.
  unfold Builder.addChildBuilder.
  destruct (endScheduled b) eqn:E; [unfold same_fields; repeat split; congruence|].
  destruct (consume_fields (set_queue (queue b ++ [x]) b)) as [H1 H2].
  split; [exact H1|]. rewrite H2. exact E.
Qed.

Lemma scheduleEnd_fields b :
  same_fields (Builder.scheduleEnd b) b /\
  endScheduled (Builder.scheduleEnd b) = true.
Proof.
  unfold Builder.scheduleEnd.
  destruct (consume_fields (set_endScheduled true b)) as [H1 H2].
  split; [exact H1|]. rewrite H2. reflexivity.
Qed.

Lemma onChildEnd_fields x b :
  same_fields (Builder.onChildEnd x b) b /\
  endScheduled (Builder.onChildEnd x b) = endScheduled b.
Proof.
  unfold Builder.onChildEnd.
  destruct (consume_fields
              (set_current None (set_pipes (filter (fun y => y ≠ x)) b))) as [H1 H2].
  split; [exact H1|]. rewrite H2. reflexivity.
Qed.

Lemma kind_addChild x b : kind (Builder.addChildBuilder x b) = kind b.
Proof. apply addChild_fields. Qed.
Lemma parent_addChild x b : parent (Builder.addChildBuilder x b) = parent b.
Proof. apply addChild_fields. Qed.
Lemma firstProperty_addChild x b :
  firstPropertyInserted (Builder.addChildBuilder x b) = firstPropertyInserted b.
Proof. apply addChild_fields. Qed.
Lemma firstItem_addChild x b :
  firstItemInserted (Builder.addChildBuilder x b) = firstItemInserted b.
Proof. apply addChild_fields. Qed.
Lemma created_addChild x b : created (Builder.addChildBuilder x b) = created b.
Proof. apply addChild_fields. Qed.
Lemma kind_scheduleEnd b : kind (Builder.scheduleEnd b) = kind b.
Proof. apply scheduleEnd_fields. Qed.
Lemma parent_scheduleEnd b : parent (Builder.scheduleEnd b) = parent b.
Proof. apply scheduleEnd_fields. Qed.
Lemma firstProperty_scheduleEnd b :
  firstPropertyInserted (Builder.scheduleEnd b) = firstPropertyInserted b.
Proof. apply scheduleEnd_fields. Qed.
Lemma firstItem_scheduleEnd b :
  firstItemInserted (Builder.scheduleEnd b) = firstItemInserted b.
Proof. apply scheduleEnd_fields. Qed.
Lemma created_scheduleEnd b : created (Builder.scheduleEnd b) = created b.
Proof. apply scheduleEnd_fields. Qed.
Lemma endScheduled_scheduleEnd b : endScheduled (Builder.scheduleEnd b) = true.
Proof. apply scheduleEnd_fields. Qed.
Lemma endScheduled_addChild x b :
  endScheduled (Builder.addChildBuilder x b) = endScheduled b.
Proof. apply addChild_fields. Qed.

Create Rewrite HintDb fields.
#[global] Hint Rewrite kind_addChild parent_addChild firstProperty_addChild
  firstItem_addChild created_addChild kind_scheduleEnd parent_scheduleEnd
  firstProperty_scheduleEnd firstItem_scheduleEnd created_scheduleEnd
  endScheduled_scheduleEnd endScheduled_addChild : fields.

(** The steps a method takes on [this]. *)
Inductive Action :=
| Created (n : nat)
| Enqueue (x : Id)
| ScheduleEnd
| FirstProperty
| FirstItem.

Definition act (a : Action) (b : Builder) : Builder :=
  match a with
  | Created n => set_created n b
  | Enqueue x => Builder.addChildBuilder x b
  | ScheduleEnd => Builder.scheduleEnd b
  | FirstProperty => set_firstPropertyInserted true b
  | FirstItem => set_firstItemInserted true b
  end.

(** The last step comes first in the list. *)
Definition perform (acts : list Action) (b : Builder) : Builder := foldr act b acts.

(** The fields a method reads. *)
Definition agree (b b' : Builder) : Prop :=
  kind b = kind b' /\ parent b = parent b' /\ created b = created b' /\
  firstPropertyInserted b = firstPropertyInserted b' /\
  firstItemInserted b = firstItemInserted b'.

Definition outcome (r : Result) (f : Frame) : Outcome (option Id) :=
  match r with
  | Returned x => Return x f
  | Thrown => Throw f
  end.

(** A value builder after [rawValue(data)]. *)
Definition leaf (parent : option Id) (data : string) : Builder :=
  set_stream Stream.end_ (set_stream (Stream.push data) (Builder.create ValueStream parent)).

Ltac run_method :=
  unfold JsonStreamBuilder.primitive, JsonStreamBuilder.object, JsonStreamBuilder.array,
    JsonStreamBuilder.end_, JsonStreamBuilder.value,
    ObjectStreamBuilder.addProperty, ObjectStreamBuilder.pushProperty,
    ObjectStreamBuilder.insertCommaIfNeeded, ObjectStreamBuilder.end_,
    ObjectStreamBuilder.constructor,
    ArrayStreamBuilder.addItem, ArrayStreamBuilder.pushItem,
    ArrayStreamBuilder.insertCommaIfNeeded, ArrayStreamBuilder.end_,
    ArrayStreamBuilder.constructor,
    ValueStreamBuilder.value, ValueStreamBuilder.rawValue,
    addChildBuilder, scheduleEnd, new_, stringify, get, update, me,
    mbind, M_bind, bind, mret, M_ret, ret;
  simpl.


Lemma plan_return a h X news acts b :
  X = perform acts b ->
  Return a (mkFrame h X news) = outcome (Returned a) (mkFrame h (perform acts b) news).
Proof. intros ->. reflexivity. Qed.

Lemma plan_throw h X news acts b :
  X = perform acts b ->
  @Throw (option Id) (mkFrame h X news) = outcome Thrown (mkFrame h (perform acts b) news).
Proof. intros ->. reflexivity. Qed.

Lemma perform_nil b : b = perform [] b.
Proof. reflexivity. Qed.

Lemma perform_cons a acts b X : X = perform acts b -> act a X = perform (a :: acts) b.
Proof. intros ->. reflexivity. Qed.

Ltac find_plan :=
  lazymatch goal with
  | |- Builder.addChildBuilder ?x ?X = perform _ _ =>
      refine (perform_cons (Enqueue x) _ _ X _); find_plan
  | |- Builder.scheduleEnd ?X = perform _ _ =>
      refine (perform_cons ScheduleEnd _ _ X _); find_plan
  | |- set_created ?n ?X = perform _ _ =>
      refine (perform_cons (Created n) _ _ X _); find_plan
  | |- set_firstPropertyInserted true ?X = perform _ _ =>
      refine (perform_cons FirstProperty _ _ X _); find_plan
  | |- set_firstItemInserted true ?X = perform _ _ =>
      refine (perform_cons FirstItem _ _ X _); find_plan
  | |- _ => apply perform_nil
  end.


(** ** The shape of a single builder *)

Definition children (b : Builder) (c : Id) : Prop :=
  c ∈ queue b \/ current b = Some c.

Definition active (b : Builder) : list Id :=
  match current b with
  | Some c => [c]
  | None => []
  end.

(** What holds of every builder between two events. *)
Record good (b : Builder) : Prop := {
  good_pipes : pipes b = active b;
  good_queue : current b = None -> queue b = [];
  good_leaf : kind b = ValueStream -> current b = None;
  good_closed :
    kind b <> ValueStream ->
    (ended (stream b) = true <-> endScheduled b = true /\ current b = None);
  good_errored : errored (stream b) = false;
}.

(** What a method creates, and what it enqueues: [c0] and [c1] are the
    values of [created] before and after. *)
Record plan_ok (h : Id) (c0 c1 : nat) (acts : list Action) (news : list (Id * Builder))
  : Prop := {
  plan_created : forall b, created b = c0 -> created (perform acts b) = c1;
  plan_names : forall j bj, (j, bj) ∈ news -> exists k rest, j = h ++ k :: rest /\ c0 <= k < c1;
  plan_good : forall j bj, (j, bj) ∈ news -> good bj;
  plan_kids : forall j bj c, (j, bj) ∈ news -> children bj c ->
                (exists k, c = j ++ [k]) /\ c ∈ news.*1;
  plan_below : forall j bj j' k rest, (j, bj) ∈ news -> j' ∈ news.*1 ->
                 j' = j ++ k :: rest -> k < created bj;
  plan_nodup : NoDup news.*1;
  plan_enqueue : forall x, Enqueue x ∈ acts -> (exists k, x = h ++ [k]) /\ x ∈ news.*1;
  plan_grows : c0 <= c1;
}.

Ltac inv_elem H :=
  repeat match type of H with
    | _ ∈ _ :: _ => apply elem_of_cons in H; destruct H as [H|H]
    | _ ∈ [] => apply elem_of_nil in H; contradiction
    end.

Lemma app_cons_inj (h : Id) k rest k' rest' :
  h ++ k :: rest = h ++ k' :: rest' -> k = k' /\ rest = rest'.
Proof. intros H. apply app_inv_head in H. by injection H. Qed.

Lemma app_assoc_cons (h : Id) k rest : (h ++ [k]) ++ rest = h ++ k :: rest.
Proof. by rewrite <- app_assoc. Qed.

(** Equations between names under the same builder. *)
Ltac id_eq H :=
  rewrite <- ?app_assoc in H; simpl in H; apply app_inv_head in H;
  try discriminate H; try (injection H as H); try lia.

Ltac solve_good :=
  unfold leaf, Builder.addChildBuilder, Builder.consumeChildBuilder; simpl;
  split; simpl; unfold active; simpl; try done; try (intros _; split; intros; intuition done).

Ltac unfold_new :=
  unfold leaf, Builder.addChildBuilder, Builder.consumeChildBuilder, children; simpl.

Ltac solve_plan :=
  split; simpl;
  [> intros b0 Hb0; autorewrite with fields; simpl; autorewrite with fields; simpl;
     rewrite ?Hb0; reflexivity
  | intros j bj H; inv_elem H; simplify_eq;
    first [ by eexists _, []; split; [reflexivity|lia]
          | by eexists _, [_]; split; [rewrite <- ?app_assoc; reflexivity|lia] ]
  | intros j bj H; inv_elem H; simplify_eq; solve_good
  | intros j bj c H; inv_elem H; simplify_eq; unfold_new;
    intros [Hc|Hc]; try (inv_elem Hc); simplify_eq;
    (split; [by eexists | set_solver])
  | intros j bj j' k rest H H'; inv_elem H; inv_elem H'; simplify_eq;
    intros Heq; unfold_new; id_eq Heq;
    try (apply (f_equal List.length) in Heq; simpl in Heq; lia)
  | repeat (apply NoDup_cons; split;
            [let H := fresh in intros H; inv_elem H; id_eq H|]);
    apply NoDup_nil_2
  | intros x H; inv_elem H; simplify_eq; (split; [by eexists | set_solver])
  | lia ].

Lemma method_plan k o m h b :
  method k o = Some m ->
  exists acts news r c1,
    (forall b2, agree b b2 ->
       m (mkFrame h b2 []) = outcome r (mkFrame h (perform acts b2) news)) /\
    plan_ok h (created b) c1 acts news.
Proof.
  intros Hm.
  destruct (firstPropertyInserted b) eqn:EP;
  destruct (firstItemInserted b) eqn:EI;
  destruct k, o as [data|[data|]|[data|]| |key [value|]|[value|]];
    simpl in Hm; try discriminate; injection Hm as <-;
    try (destruct (JSON.stringify (JPrim data)) eqn:ES);
    try (destruct (JSON.stringify (JObject data)) eqn:ES);
    try (destruct (JSON.stringify (JArray data)) eqn:ES);
    try (destruct (JSON.stringify value) eqn:ES);
    eexists _, _, _, _; (split; [
    intros b2 (Hk & Hp & Hc & Hfp & Hfi);
    run_method;
    repeat progress (rewrite <- ?Hp, <- ?Hc, <- ?Hfp, <- ?Hfi, ?EP, ?EI, ?ES;
                     autorewrite with fields; simpl);
    first [eapply plan_return | eapply plan_throw]; find_plan|]).
  all: solve [solve_plan].
Qed.

(** ** Steps on a single builder *)

(** Proofs about one builder go by cases on its fields. *)
Ltac break_builder b :=
  let k := fresh "k" in let p := fresh "p" in let buf := fresh "buf" in
  let e := fresh "e" in let err := fresh "err" in let ps := fresh "ps" in
  let q := fresh "q" in let c := fresh "c" in let es := fresh "es" in
  let fp := fresh "fp" in let fi := fresh "fi" in let cr := fresh "cr" in
  destruct b as [k p [buf e err] ps q c es fp fi cr].

Ltac split_fields b :=
  break_builder b;
  unfold Builder.scheduleEnd, Builder.addChildBuilder, Builder.onChildEnd,
    Builder.consumeChildBuilder; simpl in *; subst; simpl.

Ltac unfold_base :=
  unfold Builder.scheduleEnd, Builder.addChildBuilder, Builder.onChildEnd,
    Builder.consumeChildBuilder, children, active, Stream.write, Stream.push,
    Stream.end_, Stream.shift, Stream.finished, set_stream, set_pipes, set_queue,
    set_current, set_endScheduled, set_created, set_firstPropertyInserted,
    set_firstItemInserted in *;
  simpl in *.

Lemma filter_ne_self (c : Id) : filter (fun x => x ≠ c) [c] = [].
Proof. rewrite filter_cons. by rewrite decide_False by (intros H; by apply H). Qed.

Ltac by_cases b :=
  break_builder b; unfold_base;
  repeat match goal with
    | H : good _ |- _ => destruct H as [? ? ? ? ?]; simpl in *
    end;
  unfold_base; subst;
  repeat match goal with
    | |- context [head (?q ++ _)] => is_var q; destruct q; simpl in *
    | |- context [head ?q] => is_var q; destruct q; simpl in *
    | H : context [head (?q ++ _)] |- _ => is_var q; destruct q; simpl in *
    | H : context [head ?q] |- _ => is_var q; destruct q; simpl in *
    end;
  repeat (case_match; simpl in *; simplify_eq);
  rewrite ?filter_ne_self in *; simpl in *;
  repeat match goal with
    | H : ?x = ?x -> _ |- _ => specialize (H eq_refl)
    | H : ?x <> ?y -> _, H' : ?x <> ?y |- _ => specialize (H H')
    end;
  subst; simpl in *;
  try (split; simpl; unfold active; simpl);
  try solve [intuition (try congruence; try discriminate)].

Lemma kind_act a b : kind (act a b) = kind b.
Proof. destruct a; simpl; autorewrite with fields; reflexivity. Qed.

Lemma kind_perform acts b : kind (perform acts b) = kind b.
Proof. induction acts as [|a acts IH]; simpl; [done|]. by rewrite kind_act. Qed.

Lemma good_act a b : kind b <> ValueStream -> good b -> good (act a b).
Proof.
  intros Hk Hg. destruct a; simpl; by_cases b.
Qed.

Lemma good_perform acts b : kind b <> ValueStream -> good b -> good (perform acts b).
Proof.
  intros Hk Hg. induction acts as [|a acts IH]; simpl; [done|].
  apply good_act; [by rewrite kind_perform|done].
Qed.

Lemma good_active c b :
  good b -> c ∈ pipes b ->
  current b = Some c /\ pipes b = [c] /\ ended (stream b) = false /\ kind b <> ValueStream.
Proof.
  intros Hg Hin. by_cases b; inv_elem Hin; subst; intuition (try congruence).
  destruct e; intuition congruence.
Qed.

Lemma good_onChildEnd c b : good b -> c ∈ pipes b -> good (Builder.onChildEnd c b).
Proof.
  intros Hg Hin. destruct (good_active c b Hg Hin) as (Ec & Hp & Hn & Hk).
  by_cases b.
Qed.

Lemma good_write x c b :
  good b -> c ∈ pipes b -> good (set_stream (Stream.write x) b).
Proof.
  intros Hg Hin. destruct (good_active c b Hg Hin) as (Ec & Hp & Hn & Hk).
  by_cases b.
Qed.

Lemma good_shift b : good b -> good (set_stream Stream.shift b).
Proof. intros Hg. by_cases b. Qed.

Lemma children_act a b c : children (act a b) c -> children b c \/ a = Enqueue c.
Proof.
  destruct a; simpl; try (by left).
  - by_cases b; set_solver.
  - by_cases b; set_solver.
Qed.

Lemma children_perform acts b c :
  children (perform acts b) c -> children b c \/ Enqueue c ∈ acts.
Proof.
  induction acts as [|a acts IH]; simpl; [by left|].
  intros H. apply children_act in H as [H| ->].
  - apply IH in H as [H|H]; [by left|]. right. by right.
  - right. by left.
Qed.

Lemma children_onChildEnd x b c : children (Builder.onChildEnd x b) c -> children b c.
Proof.
  split_fields b; unfold children; simpl.
  destruct q as [|y q], es; simpl; set_solver.
Qed.

(** ** A method call and a stream event on the same builder commute *)

Lemma act_onChildEnd a c b :
  current b = Some c ->
  act a (Builder.onChildEnd c b) = Builder.onChildEnd c (act a b) /\
  current (act a b) = Some c /\ pipes (act a b) = pipes b.
Proof.
  intros Ec. destruct a; simpl; split_fields b; destruct es, q as [|y q]; simpl; done.
Qed.

Lemma perform_onChildEnd acts c b :
  current b = Some c ->
  perform acts (Builder.onChildEnd c b) = Builder.onChildEnd c (perform acts b) /\
  current (perform acts b) = Some c /\ pipes (perform acts b) = pipes b.
Proof.
  intros Ec. induction acts as [|a acts (IH1 & IH2 & IH3)]; simpl; [done|].
  rewrite IH1. destruct (act_onChildEnd a c (perform acts b) IH2) as (-> & ? & ->). done.
Qed.

Lemma act_stream a c f b :
  current b = Some c ->
  act a (set_stream f b) = set_stream f (act a b) /\
  current (act a b) = Some c /\ pipes (act a b) = pipes b /\ stream (act a b) = stream b.
Proof.
  intros Ec. destruct a; simpl; split_fields b; destruct es; simpl; done.
Qed.

Lemma perform_stream acts c f b :
  current b = Some c ->
  perform acts (set_stream f b) = set_stream f (perform acts b) /\
  current (perform acts b) = Some c /\ pipes (perform acts b) = pipes b /\
  stream (perform acts b) = stream b.
Proof.
  intros Ec. induction acts as [|a acts (IH1 & IH2 & IH3 & IH4)]; simpl; [done|].
  rewrite IH1. destruct (act_stream a c f (perform acts b) IH2) as (-> & ? & -> & ->). done.
Qed.

Lemma act_shift a b :
  act a (set_stream Stream.shift b) = set_stream Stream.shift (act a b) /\
  buffer (stream (act a b)) = buffer (stream b) /\
  (ended (stream b) = true -> ended (stream (act a b)) = true).
Proof.
  destruct a; simpl; split_fields b; try done;
    destruct es, c, q as [|y q]; simpl; done.
Qed.

Lemma perform_shift acts b :
  perform acts (set_stream Stream.shift b) = set_stream Stream.shift (perform acts b) /\
  buffer (stream (perform acts b)) = buffer (stream b) /\
  (ended (stream b) = true -> ended (stream (perform acts b)) = true).
Proof.
  induction acts as [|a acts (IH1 & IH2 & IH3)]; simpl; [done|].
  rewrite IH1. destruct (act_shift a (perform acts b)) as (-> & -> & H). auto.
Qed.

Lemma agree_onChildEnd c b : agree b (Builder.onChildEnd c b).
Proof. destruct (onChildEnd_fields c b) as [(?&?&?&?&?&?&?) ?]. by repeat split. Qed.

Lemma agree_stream f b : agree b (set_stream f b).
Proof. by repeat split. Qed.

Lemma agree_refl b : agree b b.
Proof. by repeat split. Qed.


(* ================================================================== *)
(** * The shape of the heap *)
(* ================================================================== *)

(** Every builder is well-shaped; the builders in a queue, and the one
    being piped, were created by the owner of the queue and are in the heap;
    the names given out by a builder are below its counter. *)
Record Inv (σ : gmap Id Builder) : Prop := {
  inv_good : forall i b, σ !! i = Some b -> good b;
  inv_kids : forall i b c, σ !! i = Some b -> children b c ->
               (exists k, c = i ++ [k]) /\ is_Some (σ !! c);
  inv_names : forall i b k rest, σ !! i = Some b -> is_Some (σ !! (i ++ k :: rest)) ->
                k < created b;
}.

Lemma commit_union (h : Id) (b : Builder) (news : list (Id * Builder)) (σ : gmap Id Builder) :
  commit (mkFrame h b news) σ = <[h := b]> (list_to_map news ∪ σ).
Proof.
  unfold commit. simpl. f_equal.
  induction news as [|[j bj] news IH]; simpl.
  - by rewrite (left_id_L ∅ (∪)).
  - rewrite IH. by rewrite insert_union_l.
Qed.

Lemma names_split (i h : Id) k rest k' rest' :
  i ++ k :: rest = h ++ k' :: rest' ->
  i = h \/ (exists r, h = i ++ k :: r) \/ (exists r, i = h ++ k' :: r).
Proof.
  revert h. induction i as [|x i IH]; intros [|y h] H; simpl in H.
  - by left.
  - injection H as -> ->. right. left. by eexists.
  - injection H as -> <-. right. right. by eexists.
  - injection H as -> H. apply IH in H as [->|[[r ->]|[r ->]]]; eauto.
Qed.

Lemma name_not_self (i : Id) k rest : i ++ k :: rest <> i.
Proof. intros H. apply (f_equal List.length) in H. rewrite length_app in H. simpl in H. lia. Qed.

Section Call.
Context (σ : gmap Id Builder) (h : Id) (b : Builder).
Context (c1 : nat) (acts : list Action) (news : list (Id * Builder)).
Hypothesis HInv : Inv σ.
Hypothesis Hh : σ !! h = Some b.
Hypothesis Hplan : plan_ok h (created b) c1 acts news.

Let σ' : gmap Id Builder := <[h := perform acts b]> (list_to_map news ∪ σ).

Lemma news_fresh j bj : (j, bj) ∈ news -> σ !! j = None /\ j <> h.
  Proof.
    intros Hin. destruct (plan_names _ _ _ _ _ Hplan j bj Hin) as (k & rest & -> & Hk).
    split; [|apply name_not_self].
    destruct (σ !! (h ++ k :: rest)) eqn:E; [|done].
    assert (k < created b) by (eapply inv_names; eauto). lia.
  Qed.

Lemma call_lookup_self : σ' !! h = Some (perform acts b).
  Proof. apply lookup_insert_eq. Qed.

Lemma call_lookup_new j bj : (j, bj) ∈ news -> σ' !! j = Some bj.
  Proof.
    intros Hin. destruct (news_fresh j bj Hin) as [_ Hne].
    unfold σ'. rewrite lookup_insert_ne by done.
    apply lookup_union_Some_l. apply elem_of_list_to_map; [|done].
    apply (plan_nodup _ _ _ _ _ Hplan).
  Qed.

Lemma call_lookup_old i : i <> h -> i ∉ (news.*1) -> σ' !! i = σ !! i.
  Proof.
    intros Hne Hnot. unfold σ'. rewrite lookup_insert_ne by done.
    rewrite lookup_union_r; [done|]. by apply not_elem_of_list_to_map.
  Qed.

Lemma call_lookup i x :
    σ' !! i = Some x ->
    (i = h /\ x = perform acts b) \/ (i, x) ∈ news \/
    (i <> h /\ i ∉ (news.*1) /\ σ !! i = Some x).
  Proof.
    intros H. destruct (decide (i = h)) as [->|Hne].
    - left. rewrite call_lookup_self in H. by injection H.
    - right. destruct (decide (i ∈ news.*1)) as [Hin|Hnot].
      + left. apply list_elem_of_fmap in Hin as [[j bj] [-> Hin]]. simpl in *.
        rewrite (call_lookup_new _ _ Hin) in H. by injection H as <-.
      + right. rewrite call_lookup_old in H by done. done.
  Qed.

Lemma call_lookup_mono i : is_Some (σ !! i) -> is_Some (σ' !! i).
  Proof.
    intros [x Hx]. destruct (decide (i = h)) as [->|Hne].
    - rewrite call_lookup_self. by eexists.
    - destruct (decide (i ∈ news.*1)) as [Hin|Hnot].
      + apply list_elem_of_fmap in Hin as [[j bj] [-> Hin]]. simpl in *.
        rewrite (call_lookup_new _ _ Hin). by eexists.
      + rewrite call_lookup_old by done. by eexists.
  Qed.

Lemma call_lookup_name j : j ∈ news.*1 -> is_Some (σ' !! j).
  Proof.
    intros Hin. apply list_elem_of_fmap in Hin as [[j' bj] [-> Hin]]. simpl.
    rewrite (call_lookup_new _ _ Hin). by eexists.
  Qed.

Lemma call_Inv : kind b <> ValueStream -> Inv σ'.
  Proof.
    intros Hk.
    pose proof (plan_created _ _ _ _ _ Hplan b eq_refl) as Hc1.
    pose proof (plan_grows _ _ _ _ _ Hplan) as Hgrow.
    split.
    - intros i x Hx. apply call_lookup in Hx as [[-> ->]|[Hin|(_ & _ & Hold)]].
      + apply good_perform; [done|]. eapply inv_good; eauto.
      + eapply plan_good; eauto.
      + eapply inv_good; eauto.
    - intros i x c Hx Hc. apply call_lookup in Hx as [[-> ->]|[Hin|(_ & _ & Hold)]].
      + apply children_perform in Hc as [Hc|Hc].
        * destruct (inv_kids _ HInv _ _ _ Hh Hc) as [Hname Hsome].
          split; [done|]. by apply call_lookup_mono.
        * destruct (plan_enqueue _ _ _ _ _ Hplan c Hc) as [Hname Hin].
          split; [done|]. by apply call_lookup_name.
      + destruct (plan_kids _ _ _ _ _ Hplan i x c Hin Hc) as [Hname Hin'].
        split; [done|]. by apply call_lookup_name.
      + destruct (inv_kids _ HInv _ _ _ Hold Hc) as [Hname Hsome].
        split; [done|]. by apply call_lookup_mono.
    - intros i x k rest Hx [y Hy].
      apply call_lookup in Hx as [[-> ->]|[Hin|(Hne & Hnot & Hold)]];
        apply call_lookup in Hy as [[Hj ->]|[Hin'|(Hne' & Hnot' & Hold')]].
      + by apply name_not_self in Hj.
      + destruct (plan_names _ _ _ _ _ Hplan _ _ Hin') as (k' & rest' & Heq & Hk').
        apply app_cons_inj in Heq as [-> _]. lia.
      + assert (k < created b) by (eapply inv_names; eauto). lia.
      + destruct (plan_names _ _ _ _ _ Hplan _ _ Hin) as (k' & rest' & -> & Hk').
        rewrite <- app_assoc in Hj. simpl in Hj. by apply name_not_self in Hj.
      + eapply plan_below; eauto.
        apply list_elem_of_fmap. by exists (i ++ k :: rest, y).
      + destruct (plan_names _ _ _ _ _ Hplan _ _ Hin) as (k' & rest' & -> & Hk').
        rewrite <- app_assoc in Hold'. simpl in Hold'.
        assert (k' < created b) by (eapply inv_names; eauto). lia.
      + eapply (inv_names _ HInv); [exact Hold|]. rewrite Hj. eauto.
      + destruct (plan_names _ _ _ _ _ Hplan _ _ Hin') as (k' & rest' & Heq & Hk').
        apply names_split in Heq as [->|[[r ->]|[r ->]]].
        * done.
        * eapply (inv_names _ HInv); [exact Hold|]. eauto.
        * assert (k' < created b) by (eapply inv_names; eauto). lia.
      + eapply inv_names; eauto.
  Qed.

End Call.

(** ** The shape of a step *)

Lemma step_call_inv h o σ σ' :
  step (Call h o) σ = Some σ' ->
  exists b m acts news r c1,
    σ !! h = Some b /\ method (kind b) o = Some m /\ kind b <> ValueStream /\
    (forall b2, agree b b2 ->
       m (mkFrame h b2 []) = outcome r (mkFrame h (perform acts b2) news)) /\
    plan_ok h (created b) c1 acts news /\
    call h o σ = Some (r, σ') /\
    σ' = <[h := perform acts b]> (list_to_map news ∪ σ).
Proof.
  unfold step, call. intros H.
  destruct (σ !! h) as [b|] eqn:Hb; [|done].
  destruct (method (kind b) o) as [m|] eqn:Hm; [|done].
  simpl in H. injection H as <-.
  destruct (method_plan _ _ _ h b Hm) as (acts & news & r & c1 & Hrun & Hplan).
  exists b, m, acts, news, r, c1.
  assert (kind b <> ValueStream) by (intros Hk; rewrite Hk in Hm; by destruct o).
  rewrite (Hrun b (agree_refl b)).
  assert (commit (frame_of (outcome r (mkFrame h (perform acts b) news))) σ
          = <[h := perform acts b]> (list_to_map news ∪ σ)) as Hc
    by (destruct r; simpl; apply commit_union).
  assert (result_of (outcome r (mkFrame h (perform acts b) news)) = r) as Hr
    by (by destruct r).
  rewrite Hc, Hr. split_and!; done.
Qed.

Lemma step_call_intro h o σ b b2 m acts news r :
  method (kind b) o = Some m ->
  (forall b2, agree b b2 ->
     m (mkFrame h b2 []) = outcome r (mkFrame h (perform acts b2) news)) ->
  σ !! h = Some b2 -> agree b b2 ->
  step (Call h o) σ = Some (<[h := perform acts b2]> (list_to_map news ∪ σ)).
Proof.
  intros Hm Hrun Hh Hag. unfold step, call. rewrite Hh.
  destruct Hag as (Hk & Hrest). rewrite <- Hk, Hm. simpl.
  rewrite (Hrun b2) by (split; done).
  f_equal. destruct r; simpl; apply commit_union.
Qed.

Lemma step_data_inv p c σ σ' :
  step (OnData p c) σ = Some σ' ->
  exists bp bc x rest,
    σ !! p = Some bp /\ σ !! c = Some bc /\ c ∈ pipes bp /\
    buffer (stream bc) = x :: rest /\
    σ' = <[p := set_stream (Stream.write x) bp]> (<[c := set_stream Stream.shift bc]> σ).
Proof.
  unfold step. intros H.
  destruct (σ !! p) as [bp|] eqn:Hp; [|done].
  destruct (σ !! c) as [bc|] eqn:Hc; [|done].
  destruct (decide (c ∈ pipes bp)); [|done].
  destruct (buffer (stream bc)) as [|x rest] eqn:Hb; [done|].
  injection H as <-. by exists bp, bc, x, rest.
Qed.

Lemma step_data_intro p c σ bp bc x rest :
  σ !! p = Some bp -> σ !! c = Some bc -> c ∈ pipes bp ->
  buffer (stream bc) = x :: rest ->
  step (OnData p c) σ =
    Some (<[p := set_stream (Stream.write x) bp]> (<[c := set_stream Stream.shift bc]> σ)).
Proof.
  intros Hp Hc Hin Hb. unfold step. rewrite Hp, Hc, Hb.
  by rewrite decide_True.
Qed.

Lemma step_end_inv p c σ σ' :
  step (OnEnd p c) σ = Some σ' ->
  exists bp bc,
    σ !! p = Some bp /\ σ !! c = Some bc /\ c ∈ pipes bp /\
    Stream.finished (stream bc) = true /\
    σ' = <[p := Builder.onChildEnd c bp]> σ.
Proof.
  unfold step. intros H.
  destruct (σ !! p) as [bp|] eqn:Hp; [|done].
  destruct (σ !! c) as [bc|] eqn:Hc; [|done].
  destruct (decide (c ∈ pipes bp)); [|done].
  destruct (Stream.finished (stream bc)) eqn:Hf; [|done].
  injection H as <-. by exists bp, bc.
Qed.

Lemma step_end_intro p c σ bp bc :
  σ !! p = Some bp -> σ !! c = Some bc -> c ∈ pipes bp ->
  Stream.finished (stream bc) = true ->
  step (OnEnd p c) σ = Some (<[p := Builder.onChildEnd c bp]> σ).
Proof.
  intros Hp Hc Hin Hf. unfold step. rewrite Hp, Hc, Hf.
  by rewrite decide_True.
Qed.

(** A builder changes, its children and its counter do not. *)
Lemma Inv_update σ i b b' :
  Inv σ -> σ !! i = Some b -> good b' ->
  (forall c, children b' c -> children b c) -> created b <= created b' ->
  Inv (<[i := b']> σ).
Proof.
  intros HInv Hi Hg Hkids Hcr. split.
  - intros j x Hx. destruct (decide (j = i)) as [->|Hne].
    + rewrite lookup_insert_eq in Hx. by injection Hx as <-.
    + rewrite lookup_insert_ne in Hx by done. eapply inv_good; eauto.
  - intros j x c Hx Hc.
    assert ((exists k, c = j ++ [k]) /\ is_Some (σ !! c)) as [Hname Hsome].
    { destruct (decide (j = i)) as [->|Hne].
      + rewrite lookup_insert_eq in Hx. injection Hx as <-.
        eapply inv_kids; eauto.
      + rewrite lookup_insert_ne in Hx by done. eapply inv_kids; eauto. }
    split; [done|]. rewrite lookup_insert_is_Some. destruct (decide (i = c)); auto.
  - intros j x k rest Hx Hsome.
    assert (is_Some (σ !! (j ++ k :: rest))) as Hsome'.
    { apply lookup_insert_is_Some in Hsome as [<-|[_ ?]]; [by eexists|done]. }
    destruct (decide (j = i)) as [->|Hne].
    + rewrite lookup_insert_eq in Hx. injection Hx as <-.
      assert (k < created b) by (eapply inv_names; eauto). lia.
    + rewrite lookup_insert_ne in Hx by done. eapply inv_names; eauto.
Qed.

Lemma piped_child σ p bp c :
  Inv σ -> σ !! p = Some bp -> c ∈ pipes bp ->
  current bp = Some c /\ pipes bp = [c] /\ ended (stream bp) = false /\
  kind bp <> ValueStream /\ (exists k, c = p ++ [k]) /\ c <> p.
Proof.
  intros HInv Hp Hin.
  destruct (good_active c bp (inv_good _ HInv _ _ Hp) Hin) as (Ec & Hps & Hn & Hk).
  destruct (inv_kids _ HInv p bp c Hp) as [[k ->] _]; [by right|].
  repeat split; try done; [by eexists|]. apply (name_not_self p k []).
Qed.

Lemma step_Inv e σ σ' : Inv σ -> step e σ = Some σ' -> Inv σ'.
Proof.
  intros HInv Hstep. destruct e as [h o|p c|p c].
  - apply step_call_inv in Hstep
      as (b & m & acts & news & r & c1 & Hh & Hm & Hk & Hrun & Hplan & _ & ->).
    by eapply call_Inv.
  - apply step_data_inv in Hstep as (bp & bc & x & rest & Hp & Hc & Hin & Hb & ->).
    destruct (piped_child _ _ _ _ HInv Hp Hin) as (_ & _ & _ & _ & _ & Hne).
    apply (Inv_update _ p bp).
    + apply (Inv_update _ c bc); try done.
      apply good_shift. eapply inv_good; eauto.
    + by rewrite lookup_insert_ne.
    + eapply good_write; eauto. eapply inv_good; eauto.
    + unfold Stream.write. by destruct (ended (stream bp)).
    + unfold Stream.write. by destruct (ended (stream bp)).
  - apply step_end_inv in Hstep as (bp & bc & Hp & Hc & Hin & Hf & ->).
    eapply Inv_update; eauto.
    + apply good_onChildEnd; [|done]. eapply inv_good; eauto.
    + apply children_onChildEnd.
    + destruct (onChildEnd_fields c bp) as [(?&?&?&?&->&?&?) ?]. done.
Qed.

Lemma Inv_createBuilder : Inv createBuilder.
Proof.
  unfold createBuilder, root. split.
  - intros i b H. apply lookup_singleton_Some in H as [<- <-].
    split; simpl; try done. intros _. split; [done|]. by intros [? ?].
  - intros i b c H [Hc|Hc]; apply lookup_singleton_Some in H as [<- <-]; simpl in *.
    + inv_elem Hc.
    + done.
  - intros i b k rest H [x Hx]. apply lookup_singleton_Some in H as [<- <-].
    apply lookup_singleton_Some in Hx as [Hx _]. done.
Qed.

Lemma run_Inv t σ σ' : Inv σ -> run t σ = Some σ' -> Inv σ'.
Proof.
  revert σ. induction t as [|e t IH]; simpl; intros σ HInv H.
  - by injection H as <-.
  - destruct (step e σ) as [σ1|] eqn:Hs; [|done].
    eapply IH; [|exact H]. eapply step_Inv; eauto.
Qed.

(* ================================================================== *)
(** * Independent events commute *)
(* ================================================================== *)

Lemma onChildEnd_shift c b :
  Builder.onChildEnd c (set_stream Stream.shift b)
  = set_stream Stream.shift (Builder.onChildEnd c b).
Proof. split_fields b. destruct q as [|y q], es; simpl; done. Qed.

Lemma onChildEnd_buffer c b :
  buffer (stream (Builder.onChildEnd c b)) = buffer (stream b).
Proof. apply onChildEnd_fields. Qed.

Lemma shift_write y b x rest :
  buffer (stream b) = x :: rest -> ended (stream b) = false ->
  set_stream Stream.shift (set_stream (Stream.write y) b)
  = set_stream (Stream.write y) (set_stream Stream.shift b) /\
  buffer (stream (set_stream (Stream.write y) b)) = x :: (rest ++ [y]).
Proof.
  break_builder b. simpl. intros -> ->. unfold Stream.write, set_stream. simpl. done.
Qed.

Lemma news_absent (σ : gmap Id Builder) (h : Id) (b : Builder) c1 acts news i :
  Inv σ -> σ !! h = Some b -> plan_ok h (created b) c1 acts news ->
  is_Some (σ !! i) -> (list_to_map news : gmap Id Builder) !! i = None.
Proof.
  intros HInv Hh Hplan [x Hx].
  destruct ((list_to_map news : gmap Id Builder) !! i) as [y|] eqn:E; [|done].
  apply elem_of_list_to_map_2 in E.
  destruct (news_fresh σ h b c1 acts news HInv Hh Hplan i y E) as [Hnone _]. congruence.
Qed.

Lemma news_disjoint (σ : gmap Id Builder) (h1 h2 : Id) (b1 b2 : Builder)
      c1 acts1 news1 c2 acts2 news2 i x y :
  Inv σ -> h1 <> h2 ->
  σ !! h1 = Some b1 -> plan_ok h1 (created b1) c1 acts1 news1 ->
  σ !! h2 = Some b2 -> plan_ok h2 (created b2) c2 acts2 news2 ->
  (list_to_map news1 : gmap Id Builder) !! i = Some x ->
  (list_to_map news2 : gmap Id Builder) !! i = Some y -> False.
Proof.
  intros HInv Hne H1 P1 H2 P2 E1 E2.
  apply elem_of_list_to_map_2 in E1. apply elem_of_list_to_map_2 in E2.
  destruct (plan_names _ _ _ _ _ P1 _ _ E1) as (k1 & r1 & -> & Hk1).
  destruct (plan_names _ _ _ _ _ P2 _ _ E2) as (k2 & r2 & Heq & Hk2).
  apply names_split in Heq as [->|[[r ->]|[r ->]]].
  - done.
  - assert (k1 < created b1) by (eapply inv_names; eauto). lia.
  - assert (k2 < created b2) by (eapply inv_names; eauto). lia.
Qed.

(** Equality of heaps, looked up name by name. *)
Ltac heap_eq i :=
  apply map_eq; intros i;
  repeat (rewrite lookup_insert || rewrite lookup_union);
  repeat case_decide; subst; try done;
  repeat match goal with
    | H : list_to_map _ !! _ = None |- _ => rewrite H
    end;
  simpl; try done.

Lemma diamond_call_call σ h1 o1 h2 o2 σa σb :
  Inv σ -> h1 <> h2 ->
  step (Call h1 o1) σ = Some σa -> step (Call h2 o2) σ = Some σb ->
  exists σc, step (Call h2 o2) σa = Some σc /\ step (Call h1 o1) σb = Some σc.
Proof.
  intros HInv Hne Ha Hb.
  apply step_call_inv in Ha
    as (b1 & m1 & acts1 & news1 & r1 & c1 & H1 & Hm1 & Hk1 & Hrun1 & P1 & _ & ->).
  apply step_call_inv in Hb
    as (b2 & m2 & acts2 & news2 & r2 & c2 & H2 & Hm2 & Hk2 & Hrun2 & P2 & _ & ->).
  pose proof (news_absent σ h1 b1 c1 acts1 news1 h2 HInv H1 P1 (mk_is_Some _ _ H2)) as N12.
  pose proof (news_absent σ h2 b2 c2 acts2 news2 h1 HInv H2 P2 (mk_is_Some _ _ H1)) as N21.
  eexists. split.
  - eapply (step_call_intro h2 o2 _ b2 b2); eauto using agree_refl.
    rewrite lookup_insert_ne by done. rewrite lookup_union_r by done. done.
  - erewrite (step_call_intro h1 o1 _ b1 b1); eauto using agree_refl.
    + f_equal. apply map_eq. intros i.
      repeat (rewrite lookup_insert || rewrite lookup_union).
      repeat case_decide; subst; try done; rewrite ?N12, ?N21; simpl; try done.
      destruct ((list_to_map news1 : gmap Id Builder) !! i) eqn:E1;
        destruct ((list_to_map news2 : gmap Id Builder) !! i) eqn:E2; simpl; try done.
      * exfalso. eapply (news_disjoint σ h1 h2); eauto.
      * by destruct (σ !! i).
      * by destruct (σ !! i).
    + rewrite lookup_insert_ne by done. rewrite lookup_union_r by done. done.
Qed.

Ltac heap_cases i :=
  heap_eq i;
  repeat match goal with
    | |- context [list_to_map ?n !! ?j] =>
        let E := fresh "E" in destruct (list_to_map n !! j) eqn:E; simpl
    end;
  try done;
  try (by match goal with |- context [?m !! ?j] => destruct (m !! j) end).

Lemma diamond_call_data σ h o p c σa σb :
  Inv σ ->
  step (Call h o) σ = Some σa -> step (OnData p c) σ = Some σb ->
  exists σc, step (OnData p c) σa = Some σc /\ step (Call h o) σb = Some σc.
Proof.
  intros HInv Ha Hb.
  apply step_call_inv in Ha
    as (b & m & acts & news & r & c1 & Hh & Hm & Hk & Hrun & Hplan & _ & ->).
  apply step_data_inv in Hb as (bp & bc & x & rest & Hp & Hc & Hin & Hbuf & ->).
  destruct (piped_child _ _ _ _ HInv Hp Hin) as (Ecur & Hps & Hne & _ & _ & Hcp).
  pose proof (news_absent σ h b c1 acts news p HInv Hh Hplan (mk_is_Some _ _ Hp)) as Np.
  pose proof (news_absent σ h b c1 acts news c HInv Hh Hplan (mk_is_Some _ _ Hc)) as Nc.
  destruct (decide (h = p)) as [->|Hhp]; [|destruct (decide (h = c)) as [->|Hhc]].
  - (* the call is on the destination of the pipe *)
    assert (b = bp) as -> by congruence.
    destruct (perform_stream acts c (Stream.write x) bp Ecur) as (Hcomm & _ & Hpipes & _).
    eexists. split.
    + eapply (step_data_intro p c _ (perform acts bp) bc x rest); try done.
      * by rewrite lookup_insert_eq.
      * rewrite lookup_insert_ne by done. by rewrite lookup_union_r.
      * by rewrite Hpipes.
    + erewrite (step_call_intro p o _ bp (set_stream (Stream.write x) bp));
        eauto using agree_stream.
      * f_equal. rewrite Hcomm. heap_cases i.
      * by rewrite lookup_insert_eq.
  - (* the call is on the source of the pipe *)
    assert (b = bc) as -> by congruence.
    destruct (perform_shift acts bc) as (Hcomm & Hsame & _).
    eexists. split.
    + eapply (step_data_intro p c _ bp (perform acts bc) x rest); try done.
      * rewrite lookup_insert_ne by done. by rewrite lookup_union_r.
      * by rewrite lookup_insert_eq.
      * by rewrite Hsame.
    + erewrite (step_call_intro c o _ bc (set_stream Stream.shift bc));
        eauto using agree_stream.
      * f_equal. rewrite Hcomm. heap_cases i.
      * rewrite lookup_insert_ne by done. by rewrite lookup_insert_eq.
  - eexists. split.
    + eapply (step_data_intro p c _ bp bc x rest); try done.
      * rewrite lookup_insert_ne by done. by rewrite lookup_union_r.
      * rewrite lookup_insert_ne by done. by rewrite lookup_union_r.
    + erewrite (step_call_intro h o _ b b); eauto using agree_refl.
      * f_equal. heap_cases i.
      * rewrite !lookup_insert_ne by done. done.
Qed.

Lemma finished_perform acts b :
  Stream.finished (stream b) = true -> Stream.finished (stream (perform acts b)) = true.
Proof.
  destruct (perform_shift acts b) as (_ & Hbuf & Hend).
  unfold Stream.finished. rewrite Hbuf. destruct (buffer (stream b)); [|done]. exact Hend.
Qed.

Lemma diamond_call_end σ h o p c σa σb :
  Inv σ ->
  step (Call h o) σ = Some σa -> step (OnEnd p c) σ = Some σb ->
  exists σc, step (OnEnd p c) σa = Some σc /\ step (Call h o) σb = Some σc.
Proof.
  intros HInv Ha Hb.
  apply step_call_inv in Ha
    as (b & m & acts & news & r & c1 & Hh & Hm & Hk & Hrun & Hplan & _ & ->).
  apply step_end_inv in Hb as (bp & bc & Hp & Hc & Hin & Hfin & ->).
  destruct (piped_child _ _ _ _ HInv Hp Hin) as (Ecur & Hps & Hne & _ & _ & Hcp).
  pose proof (news_absent σ h b c1 acts news p HInv Hh Hplan (mk_is_Some _ _ Hp)) as Np.
  pose proof (news_absent σ h b c1 acts news c HInv Hh Hplan (mk_is_Some _ _ Hc)) as Nc.
  destruct (decide (h = p)) as [->|Hhp]; [|destruct (decide (h = c)) as [->|Hhc]].
  - assert (b = bp) as -> by congruence.
    destruct (perform_onChildEnd acts c bp Ecur) as (Hcomm & _ & Hpipes).
    eexists. split.
    + eapply (step_end_intro p c _ (perform acts bp) bc); try done.
      * by rewrite lookup_insert_eq.
      * rewrite lookup_insert_ne by done. by rewrite lookup_union_r.
      * by rewrite Hpipes.
    + erewrite (step_call_intro p o _ bp (Builder.onChildEnd c bp));
        eauto using agree_onChildEnd.
      * f_equal. rewrite Hcomm. heap_cases i.
      * by rewrite lookup_insert_eq.
  - assert (b = bc) as -> by congruence.
    eexists. split.
    + eapply (step_end_intro p c _ bp (perform acts bc)); try done.
      * rewrite lookup_insert_ne by done. by rewrite lookup_union_r.
      * by rewrite lookup_insert_eq.
      * by apply finished_perform.
    + erewrite (step_call_intro c o _ bc bc); eauto using agree_refl.
      * f_equal. heap_cases i.
      * by rewrite lookup_insert_ne.
  - eexists. split.
    + eapply (step_end_intro p c _ bp bc); try done.
      * rewrite lookup_insert_ne by done. by rewrite lookup_union_r.
      * rewrite lookup_insert_ne by done. by rewrite lookup_union_r.
    + erewrite (step_call_intro h o _ b b); eauto using agree_refl.
      * f_equal. heap_cases i.
      * by rewrite lookup_insert_ne.
Qed.

Lemma finished_ended s : Stream.finished s = true -> ended s = true.
Proof. unfold Stream.finished. by destruct (buffer s). Qed.

Lemma finished_buffer s : Stream.finished s = true -> buffer s = [].
Proof. unfold Stream.finished. by destruct (buffer s). Qed.

(** Two pipes are the same pipe, or have different ends on both sides. *)
Lemma pipes_apart σ p c p' c' bp bp' :
  Inv σ -> σ !! p = Some bp -> σ !! p' = Some bp' ->
  c ∈ pipes bp -> c' ∈ pipes bp' -> (p, c) <> (p', c') ->
  p <> p' /\ c <> c'.
Proof.
  intros HInv Hp Hp' Hin Hin' Hne.
  destruct (piped_child _ _ _ _ HInv Hp Hin) as (_ & Hps & _ & _ & [k ->] & _).
  destruct (piped_child _ _ _ _ HInv Hp' Hin') as (_ & Hps' & _ & _ & [k' ->] & _).
  assert (p <> p') as Hpp.
  { intros ->. assert (bp = bp') as -> by congruence.
    rewrite Hps' in Hin. inv_elem Hin. congruence. }
  split; [done|]. intros H. by apply app_inj_tail in H as [? _].
Qed.

Lemma grandchild_not_self (p : Id) k k' : (p ++ [k]) ++ [k'] <> p.
Proof. rewrite <- app_assoc. simpl. apply name_not_self. Qed.

(** A chunk leaves [c] for [p] while another one arrives at [c] from [c']. *)
Lemma diamond_data_chain σ p c c' σa σb :
  Inv σ ->
  step (OnData p c) σ = Some σa -> step (OnData c c') σ = Some σb ->
  exists σc, step (OnData c c') σa = Some σc /\ step (OnData p c) σb = Some σc.
Proof.
  intros HInv Ha Hb.
  apply step_data_inv in Ha as (bp & bc & x & rest & Hp & Hc & Hin & Hbuf & ->).
  apply step_data_inv in Hb as (bc0 & bc' & x' & rest' & Hc0 & Hc' & Hin' & Hbuf' & ->).
  assert (bc0 = bc) as -> by congruence.
  destruct (piped_child _ _ _ _ HInv Hp Hin) as (_ & _ & _ & _ & [k ->] & Hcp).
  destruct (piped_child _ _ _ _ HInv Hc Hin') as (_ & _ & Hopen & _ & [k' ->] & Hcc).
  pose proof (grandchild_not_self p k k') as Hgp.
  destruct (shift_write x' bc x rest Hbuf Hopen) as (Hcomm & Hbuf2).
  eexists. split.
  - eapply (step_data_intro _ _ _ (set_stream Stream.shift bc) bc' x' rest'); try done.
    + rewrite lookup_insert_ne by done. by rewrite lookup_insert_eq.
    + by rewrite !lookup_insert_ne.
  - erewrite (step_data_intro p _ _ bp (set_stream (Stream.write x') bc)); try done.
    + f_equal. rewrite Hcomm. heap_cases i.
    + rewrite !lookup_insert_ne by done. done.
    + by rewrite lookup_insert_eq.
Qed.

Lemma diamond_data_data σ p c p' c' σa σb :
  Inv σ -> (p, c) <> (p', c') ->
  step (OnData p c) σ = Some σa -> step (OnData p' c') σ = Some σb ->
  exists σc, step (OnData p' c') σa = Some σc /\ step (OnData p c) σb = Some σc.
Proof.
  intros HInv Hne Ha Hb.
  destruct (decide (c = p')) as [<-|Hcp'].
  { eapply diamond_data_chain; eauto. }
  destruct (decide (c' = p)) as [->|Hc'p].
  { destruct (diamond_data_chain σ p' p c σb σa HInv Hb Ha) as (σc & H1 & H2). eauto. }
  apply step_data_inv in Ha as (bp & bc & x & rest & Hp & Hc & Hin & Hbuf & ->).
  apply step_data_inv in Hb as (bp' & bc' & x' & rest' & Hp' & Hc' & Hin' & Hbuf' & ->).
  destruct (pipes_apart σ p c p' c' bp bp' HInv Hp Hp' Hin Hin' Hne) as [Hpp Hcc].
  destruct (piped_child _ _ _ _ HInv Hp Hin) as (_ & _ & _ & _ & _ & Hcp).
  destruct (piped_child _ _ _ _ HInv Hp' Hin') as (_ & _ & _ & _ & _ & Hcp2).
  eexists. split.
  - eapply (step_data_intro p' c' _ bp' bc' x' rest'); try done.
    + by rewrite !lookup_insert_ne.
    + by rewrite !lookup_insert_ne.
  - erewrite (step_data_intro p c _ bp bc x rest); try done.
    + f_equal. heap_cases i.
    + by rewrite !lookup_insert_ne.
    + by rewrite !lookup_insert_ne.
Qed.

Lemma diamond_data_end σ p c p' c' σa σb :
  Inv σ ->
  step (OnData p c) σ = Some σa -> step (OnEnd p' c') σ = Some σb ->
  exists σc, step (OnEnd p' c') σa = Some σc /\ step (OnData p c) σb = Some σc.
Proof.
  intros HInv Ha Hb.
  apply step_data_inv in Ha as (bp & bc & x & rest & Hp & Hc & Hin & Hbuf & ->).
  apply step_end_inv in Hb as (bp' & bc' & Hp' & Hc' & Hin' & Hfin & ->).
  assert ((p, c) <> (p', c')) as Hne.
  { intros [= -> ->]. assert (bc = bc') as -> by congruence.
    apply finished_buffer in Hfin. congruence. }
  destruct (pipes_apart σ p c p' c' bp bp' HInv Hp Hp' Hin Hin' Hne) as [Hpp Hcc].
  destruct (piped_child _ _ _ _ HInv Hp Hin) as (_ & _ & Hopen & _ & [k Hk] & Hcp).
  destruct (piped_child _ _ _ _ HInv Hp' Hin') as (_ & _ & _ & _ & [k' Hk'] & Hcp2).
  assert (c' <> p) as Hc'p.
  { intros ->. assert (bc' = bp) as -> by congruence.
    apply finished_ended in Hfin. congruence. }
  destruct (decide (p' = c)) as [->|Hp'c].
  - assert (bp' = bc) as -> by congruence.
    eexists. split.
    + eapply (step_end_intro c c' _ (set_stream Stream.shift bc) bc'); try done.
      * rewrite lookup_insert_ne by done. by rewrite lookup_insert_eq.
      * by rewrite !lookup_insert_ne.
    + erewrite (step_data_intro p c _ bp (Builder.onChildEnd c' bc) x rest); try done.
      * f_equal. rewrite onChildEnd_shift. heap_cases i.
      * by rewrite lookup_insert_ne.
      * by rewrite lookup_insert_eq.
      * by rewrite onChildEnd_buffer.
  - eexists. split.
    + eapply (step_end_intro p' c' _ bp' bc'); try done.
      * by rewrite !lookup_insert_ne.
      * by rewrite !lookup_insert_ne.
    + erewrite (step_data_intro p c _ bp bc x rest); try done.
      * f_equal. heap_cases i.
      * by rewrite !lookup_insert_ne.
      * by rewrite !lookup_insert_ne.
Qed.

Lemma diamond_end_end σ p c p' c' σa σb :
  Inv σ -> (p, c) <> (p', c') ->
  step (OnEnd p c) σ = Some σa -> step (OnEnd p' c') σ = Some σb ->
  exists σc, step (OnEnd p' c') σa = Some σc /\ step (OnEnd p c) σb = Some σc.
Proof.
  intros HInv Hne Ha Hb.
  apply step_end_inv in Ha as (bp & bc & Hp & Hc & Hin & Hfin & ->).
  apply step_end_inv in Hb as (bp' & bc' & Hp' & Hc' & Hin' & Hfin' & ->).
  destruct (pipes_apart σ p c p' c' bp bp' HInv Hp Hp' Hin Hin' Hne) as [Hpp Hcc].
  destruct (piped_child _ _ _ _ HInv Hp Hin) as (_ & _ & Hopen & _ & _ & Hcp).
  destruct (piped_child _ _ _ _ HInv Hp' Hin') as (_ & _ & Hopen' & _ & _ & Hcp2).
  assert (c' <> p) as Hc'p.
  { intros ->. assert (bc' = bp) as -> by congruence.
    apply finished_ended in Hfin'. congruence. }
  assert (c <> p') as Hcp'.
  { intros ->. assert (bc = bp') as -> by congruence.
    apply finished_ended in Hfin. congruence. }
  eexists. split.
  - eapply (step_end_intro p' c' _ bp' bc'); try done.
    + by rewrite !lookup_insert_ne.
    + by rewrite !lookup_insert_ne.
  - erewrite (step_end_intro p c _ bp bc); try done.
    + f_equal. heap_cases i.
    + by rewrite !lookup_insert_ne.
    + by rewrite !lookup_insert_ne.
Qed.

(** Two events are independent unless they are calls on the same builder
    or the same stream event. *)
Definition key (e : Event) : nat * Id * Id :=
  match e with
  | Call h _ => (0, h, [])
  | OnData p c => (1, p, c)
  | OnEnd p c => (2, p, c)
  end.

Lemma diamond σ e1 e2 σa σb :
  Inv σ -> key e1 <> key e2 ->
  step e1 σ = Some σa -> step e2 σ = Some σb ->
  exists σc, step e2 σa = Some σc /\ step e1 σb = Some σc.
Proof.
  intros HInv Hne Ha Hb.
  destruct e1 as [h1 o1|p1 c1|p1 c1], e2 as [h2 o2|p2 c2|p2 c2]; simpl in Hne.
  - eapply diamond_call_call; eauto. congruence.
  - eapply diamond_call_data; eauto.
  - eapply diamond_call_end; eauto.
  - destruct (diamond_call_data _ _ _ _ _ _ _ HInv Hb Ha) as (σc & ? & ?). eauto.
  - eapply diamond_data_data; eauto. congruence.
  - eapply diamond_data_end; eauto.
  - destruct (diamond_call_end _ _ _ _ _ _ _ HInv Hb Ha) as (σc & ? & ?). eauto.
  - destruct (diamond_data_end _ _ _ _ _ _ _ HInv Hb Ha) as (σc & ? & ?). eauto.
  - eapply diamond_end_end; eauto. congruence.
Qed.

(** The calls a trace makes on the builder [h], in order. *)
Fixpoint calls_on (h : Id) (t : list Event) : list Op :=
  match t with
  | [] => []
  | Call h' o :: t' => if decide (h' = h) then o :: calls_on h t' else calls_on h t'
  | _ :: t' => calls_on h t'
  end.

Lemma calls_on_app h t t' : calls_on h (t ++ t') = calls_on h t ++ calls_on h t'.
Proof.
  induction t as [|[h' o|p c|p c] t IH]; simpl; try done.
  destruct (decide (h' = h)); simpl; by rewrite IH.
Qed.

Lemma calls_on_other h e t :
  Forall (fun e' => key e' <> key e) t ->
  (forall o, e = Call h o -> calls_on h t = []).
Proof.
  intros Hall o ->. induction Hall as [|[h' o'|p c|p c] t Hk Hall IH]; simpl; try done.
  destruct (decide (h' = h)) as [->|]; [|done]. simpl in Hk. done.
Qed.

Lemma run_app t t' σ :
  run (t ++ t') σ = match run t σ with Some σ' => run t' σ' | None => None end.
Proof.
  revert σ. induction t as [|e t IH]; intros σ; simpl; [done|].
  destruct (step e σ); [apply IH|done].
Qed.

(** The first event of a trace with the key of [e]. *)
Lemma first_with_key (k : nat * Id * Id) (t : list Event) :
  Forall (fun e' => key e' <> k) t \/
  exists pre e' post, t = pre ++ e' :: post /\ key e' = k /\
                      Forall (fun e' => key e' <> k) pre.
Proof.
  induction t as [|e t [IH|(pre & e' & post & -> & Hk & Hpre)]].
  - by left.
  - destruct (decide (key e = k)) as [Heq|Hne].
    + right. exists [], e, t. by repeat split.
    + left. by constructor.
  - destruct (decide (key e = k)) as [Heq|Hne].
    + right. exists [], e, (pre ++ e' :: post). by repeat split.
    + right. exists (e :: pre), e', post. repeat split; [done|]. by constructor.
Qed.

Lemma to_front σ e pre post σ1 σ2 :
  Inv σ -> Forall (fun e' => key e' <> key e) pre ->
  step e σ = Some σ1 -> run (pre ++ e :: post) σ = Some σ2 ->
  run (pre ++ post) σ1 = Some σ2.
Proof.
  intros HInv Hall. revert σ σ1 HInv.
  induction Hall as [|e' pre Hk Hall IH]; intros σ σ1 HInv He Hrun; simpl in *.
  - by rewrite He in Hrun.
  - destruct (step e' σ) as [σb|] eqn:He'; [|done].
    destruct (diamond σ e e' σ1 σb HInv (not_eq_sym Hk) He He') as (σc & H1 & H2).
    rewrite H1. apply (IH σb σc); [eapply step_Inv; eauto|done|done].
Qed.

Lemma persists σ e t σ1 σ2 :
  Inv σ -> Forall (fun e' => key e' <> key e) t ->
  step e σ = Some σ1 -> run t σ = Some σ2 -> is_Some (step e σ2).
Proof.
  intros HInv Hall. revert σ σ1 HInv.
  induction Hall as [|e' t Hk Hall IH]; intros σ σ1 HInv He Hrun; simpl in *.
  - injection Hrun as <-. by eexists.
  - destruct (step e' σ) as [σb|] eqn:He'; [|done].
    destruct (diamond σ e e' σ1 σb HInv (not_eq_sym Hk) He He') as (σc & H1 & H2).
    apply (IH σb σc); [eapply step_Inv; eauto|done|done].
Qed.

(** The heap an execution ends in, once no stream event is left, depends
    on the calls made on each builder only. *)
Lemma confluence t1 : forall t2 σ σ1 σ2,
  Inv σ -> run t1 σ = Some σ1 -> run t2 σ = Some σ2 ->
  (forall h, calls_on h t1 = calls_on h t2) ->
  quiescent σ1 -> quiescent σ2 -> σ1 = σ2.
Proof.
  induction t1 as [|e t1 IH]; intros t2 σ σ1 σ2 HInv H1 H2 Hcalls Q1 Q2; simpl in H1.
  - injection H1 as <-. destruct t2 as [|e t2]; simpl in H2; [by injection H2|].
    destruct (step e σ) as [σb|] eqn:He; [|done]. exfalso.
    destruct e as [h o|p c|p c].
    + specialize (Hcalls h). simpl in Hcalls. by rewrite decide_True in Hcalls.
    + destruct (Q1 p c) as [Hq _]. congruence.
    + destruct (Q1 p c) as [_ Hq]. congruence.
  - destruct (step e σ) as [σa|] eqn:He; [|done].
    assert (exists pre post, t2 = pre ++ e :: post /\
                             Forall (fun e' => key e' <> key e) pre)
      as (pre & post & -> & Hpre).
    { destruct (first_with_key (key e) t2) as [Hall|(pre & e' & post & -> & Hk & Hpre)].
      - exfalso. destruct (persists σ e t2 σa σ2 HInv Hall He H2) as [σx Hx].
        destruct e as [h o|p c|p c].
        + specialize (Hcalls h). simpl in Hcalls. rewrite decide_True in Hcalls by done.
          by rewrite (calls_on_other h (Call h o) t2 Hall o) in Hcalls.
        + destruct (Q2 p c) as [Hq _]. congruence.
        + destruct (Q2 p c) as [_ Hq]. congruence.
      - exists pre, post. split; [|done]. f_equal. f_equal.
        destruct e as [h o|p c|p c], e' as [h' o'|p' c'|p' c']; simpl in Hk;
          try discriminate; try (by injection Hk as -> ->).
        injection Hk as ->.
        specialize (Hcalls h). rewrite calls_on_app in Hcalls. simpl in Hcalls.
        rewrite (calls_on_other h (Call h o) pre Hpre o) in Hcalls by done.
        rewrite !decide_True in Hcalls by done.
        simpl in Hcalls. by injection Hcalls as -> _. }
    pose proof (to_front σ e pre post σa σ2 HInv Hpre He H2) as H2'.
    apply (IH (pre ++ post) σa); try done.
    + eapply step_Inv; eauto.
    + intros h. specialize (Hcalls h). rewrite calls_on_app in *. simpl in Hcalls.
      destruct e as [h0 o|p c|p c]; try done.
      destruct (decide (h0 = h)) as [->|]; [|done].
      rewrite (calls_on_other h (Call h o) pre Hpre o) in * by done.
      simpl in *. by injection Hcalls.
Qed.

(* ================================================================== *)
(** * Schedules *)
(* ================================================================== *)

Definition is_call (e : Event) : bool :=
  match e with
  | Call _ _ => true
  | _ => false
  end.

(** The builders a trace makes calls on. *)
Definition handles (t : list Event) : list Id :=
  omap (fun e => match e with Call h _ => Some h | _ => None end) t.

Lemma calls_on_filter h t : calls_on h (filter is_call t) = calls_on h t.
Proof.
  induction t as [|[h' o|p c|p c] t IH]; [done| | |].
  - rewrite filter_cons_True by done. simpl. destruct (decide (h' = h)); by rewrite IH.
  - rewrite filter_cons_False by (by intros []). done.
  - rewrite filter_cons_False by (by intros []). done.
Qed.

Lemma calls_on_no_handle h t : h ∉ handles t -> calls_on h t = [].
Proof.
  induction t as [|[h' o|p c|p c] t IH]; simpl; try done.
  intros Hnot. apply not_elem_of_cons in Hnot as [Hne Hnot].
  rewrite decide_False by done. auto.
Qed.

(** It is enough to compare the calls on the builders that are called. *)
Lemma same_calls t1 t2 :
  Forall (fun h => calls_on h t1 = calls_on h t2) (handles t1 ++ handles t2) ->
  forall h, calls_on h t1 = calls_on h t2.
Proof.
  intros Hall h. destruct (decide (h ∈ handles t1 ++ handles t2)) as [Hin|Hnot].
  - by apply (proj1 (Forall_forall _ _) Hall).
  - apply not_elem_of_app in Hnot as [H1 H2].
    by rewrite !calls_on_no_handle.
Qed.

Lemma ready_complete σ e :
  (exists p c, e = OnData p c \/ e = OnEnd p c) -> is_Some (step e σ) -> e ∈ ready σ.
Proof.
  intros (p & c & He) [σ' Hs]. unfold ready.
  apply list_elem_of_bind.
  destruct He as [-> | ->].
  - apply step_data_inv in Hs as (bp & bc & x & rest & Hp & Hc & Hin & Hbuf & _).
    exists (p, bp). split; [|by apply elem_of_map_to_list].
    apply list_elem_of_bind. exists c. split; [|done].
    rewrite Hc, Hbuf. by left.
  - apply step_end_inv in Hs as (bp & bc & Hp & Hc & Hin & Hfin & _).
    exists (p, bp). split; [|by apply elem_of_map_to_list].
    apply list_elem_of_bind. exists c. split; [|done].
    rewrite Hc. rewrite (finished_buffer _ Hfin), (finished_ended _ Hfin). by left.
Qed.

Lemma ready_nil_quiescent σ : ready σ = [] -> quiescent σ.
Proof.
  intros Hr p c. split.
  - destruct (step (OnData p c) σ) eqn:E; [|done].
    assert (OnData p c ∈ ready σ) as Hin by (apply ready_complete; eauto).
    rewrite Hr in Hin. inv_elem Hin.
  - destruct (step (OnEnd p c) σ) eqn:E; [|done].
    assert (OnEnd p c ∈ ready σ) as Hin by (apply ready_complete; eauto).
    rewrite Hr in Hin. inv_elem Hin.
Qed.

(** The stream events [settle] lets happen. *)
Fixpoint settle_trace (fuel : nat) (σ : gmap Id Builder) : list Event :=
  match fuel with
  | O => []
  | S fuel =>
      match ready σ with
      | e :: _ =>
          match step e σ with
          | Some σ' => e :: settle_trace fuel σ'
          | None => []
          end
      | [] => []
      end
  end.

Lemma run_settle_trace fuel σ : run (settle_trace fuel σ) σ = Some (settle fuel σ).
Proof.
  revert σ. induction fuel as [|fuel IH]; intros σ; simpl; [done|].
  destruct (ready σ) as [|e l]; [done|].
  destruct (step e σ) as [σ'|] eqn:E; simpl; [|done]. by rewrite E.
Qed.

(** A chain of calls [h.o1(...).o2(...)...]: each call is made on what
    the one before returned.  The result is the calls that were made and
    the heap after the last one; a call on [null] or an exception stops
    the chain. *)
Fixpoint chain (h : option Id) (ops : list Op) (σ : gmap Id Builder)
  : option (list Event * gmap Id Builder) :=
  match ops with
  | [] => Some ([], σ)
  | o :: ops' =>
      match h with
      | Some h =>
          match call h o σ with
          | Some (Returned r, σ') =>
              match chain r ops' σ' with
              | Some (t, σ'') => Some (Call h o :: t, σ'')
              | None => None
              end
          | _ => None
          end
      | None => None
      end
  end.

Lemma chain_run h ops σ t σ' : chain h ops σ = Some (t, σ') -> run t σ = Some σ'.
Proof.
  revert h σ t. induction ops as [|o ops IH]; intros h σ t H; simpl in H.
  - by injection H as <- <-.
  - destruct h as [h|]; [|done].
    destruct (call h o σ) as [[[r|] σ1]|] eqn:E; try done.
    destruct (chain r ops σ1) as [[t' σ2]|] eqn:E'; [|done].
    injection H as <- <-. simpl. rewrite E. simpl. eauto.
Qed.

Definition num (z : Z) : JsonValue := JPrim (PNumber (Finite z)).
Definition str (s : string) : JsonValue := JPrim (PString s).
Definition null : JsonValue := JPrim PNull.

(* ================================================================== *)
(** * The claims of the specification *)
(* ================================================================== *)

(** ** Order of calls across builders *)

(** C2.  Two executions from [createBuilder()] that make the same calls, in
    the same order, on each builder, and run until no stream event is
    left, end with the same text on the root stream, however the calls on
    different builders and the stream events are interleaved. *)
Theorem order_invariance (t1 t2 : list Event) (σ1 σ2 : gmap Id Builder) :
  run t1 createBuilder = Some σ1 ->
  run t2 createBuilder = Some σ2 ->
  (forall h, calls_on h t1 = calls_on h t2) ->
  quiescent σ1 -> quiescent σ2 ->
  output root σ1 = output root σ2.
Proof.
  intros H1 H2 Hcalls Q1 Q2.
  by rewrite (confluence t1 t2 createBuilder σ1 σ2 Inv_createBuilder H1 H2 Hcalls Q1 Q2).
Qed.

(** The nested object of the tests: the calls in the order of the
    [synchronous] test, and in the order of the [unordered] test, where a
    property is added to the object while its array is still being built. *)
Definition nested_synchronous : list Event :=
  [ Call [] (object None);
    Call [0] (addProperty "foo" (Some null));
    Call [0] (addProperty "bar" (Some (num 42)));
    Call [0] (addProperty "sub" None);
    Call [0; 4] (array None);
    Call [0; 4; 0] (addItem (Some (num 1)));
    Call [0; 4; 0] (addItem (Some (num 2)));
    Call [0; 4; 0] (addItem (Some (num 3)));
    Call [0; 4; 0] end_;
    Call [0] (addProperty "baz" (Some (JObject [("a", num 1)])));
    Call [0] end_ ].

Definition nested_unordered : list Event :=
  [ Call [] (object None);
    Call [0] (addProperty "foo" (Some null));
    Call [0] (addProperty "bar" (Some (num 42)));
    Call [0] (addProperty "sub" None);
    OnData [0] [0; 0];
    Call [0; 4] (array None);
    Call [0] (addProperty "baz" (Some (JObject [("a", num 1)])));
    Call [0; 4; 0] (addItem (Some (num 1)));
    OnData [] [0];
    Call [0] end_;
    Call [0; 4; 0] (addItem (Some (num 2)));
    Call [0; 4; 0] (addItem (Some (num 3)));
    Call [0; 4; 0] end_ ].

(** A trace followed by the stream events that are left, and the heap in
    which this ends. *)
Definition finish (t : list Event) : list Event :=
  match run t createBuilder with
  | Some σ => t ++ settle_trace 200 σ
  | None => t
  end.

Definition after (t : list Event) : gmap Id Builder :=
  match run (finish t) createBuilder with
  | Some σ => σ
  | None => ∅
  end.

Lemma ready_stream_events σ e : e ∈ ready σ -> is_call e = false.
Proof.
  unfold ready. intros H.
  apply list_elem_of_bind in H as ([p bp] & H & _).
  apply list_elem_of_bind in H as (c & H & _).
  destruct (σ !! c) as [bc|]; [|inv_elem H].
  destruct (buffer (stream bc)); [destruct (ended (stream bc))|]; inv_elem H; by subst.
Qed.

Lemma calls_on_settle_trace h fuel σ : calls_on h (settle_trace fuel σ) = [].
Proof.
  revert σ. induction fuel as [|fuel IH]; intros σ; simpl; [done|].
  destruct (ready σ) as [|e l] eqn:E; [done|].
  destruct (step e σ) as [σ'|]; [|done].
  assert (is_call e = false) as He by (apply (ready_stream_events σ); rewrite E; by left).
  destruct e; try done; simpl; apply IH.
Qed.

Lemma calls_on_finish h t : calls_on h (finish t) = calls_on h t.
Proof.
  unfold finish. destruct (run t createBuilder); [|done].
  by rewrite calls_on_app, calls_on_settle_trace, app_nil_r.
Qed.

Ltac compare_calls :=
  let h := fresh "h" in
  intros h; rewrite !calls_on_finish; revert h; apply same_calls;
  repeat (apply Forall_cons; split; [reflexivity|]); first [exact I | by apply Forall_nil].

Lemma order_invariance_witness :
  output root (after nested_synchronous) = output root (after nested_unordered).
Proof.
  apply (order_invariance (finish nested_synchronous) (finish nested_unordered)).
  - vm_compute; reflexivity.
  - vm_compute; reflexivity.
  - compare_calls.
  - apply ready_nil_quiescent. vm_compute; reflexivity.
  - apply ready_nil_quiescent. vm_compute; reflexivity.
Defined.

Example nested_text :
  output root (after nested_unordered)
  = text "{'foo':null,'bar':42,'sub':[1,2,3],'baz':{'a':1}}".
Proof. vm_compute. reflexivity. Qed.

(** ** Example 2 of the specification *)

Definition example2_ops : list Op :=
  [ object None; addProperty "a" (Some (num 1)); addProperty "b" (Some (num 2)); end_ ].

(** [createBuilder().object().addProperty('a', 1).addProperty('b', 2).end()] *)
Definition example2 : option (list Event * gmap Id Builder) :=
  chain (Some root) example2_ops createBuilder.

Definition example2_calls : list Event :=
  match example2 with
  | Some (t, _) => t
  | None => []
  end.

Example example2_calls_eq :
  example2_calls =
  [ Call [] (object None); Call [0] (addProperty "a" (Some (num 1)));
    Call [0] (addProperty "b" (Some (num 2))); Call [0] end_ ].
Proof. vm_compute. reflexivity. Qed.

Lemma run_finish_after t :
  is_Some (run (finish t) createBuilder) -> run (finish t) createBuilder = Some (after t).
Proof. unfold after. by intros [σ ->]. Qed.

(** C4.  In every execution that makes the calls of
    [object().addProperty('a',1).addProperty('b',2).end()], whatever the
    stream events between them, the text that has arrived on the root
    stream when no event is left is exactly the 13 characters of the object
    with members a and b, and the stream is closed. *)
Theorem example2_text (t : list Event) (σ : gmap Id Builder) :
  run t createBuilder = Some σ ->
  filter is_call t = example2_calls ->
  quiescent σ ->
  output root σ = text "{'a':1,'b':2}" /\ closed root σ = true.
Proof.
  intros Hrun Hcalls Hq.
  assert (σ = after example2_calls) as ->.
  { apply (confluence t (finish example2_calls) createBuilder).
    - apply Inv_createBuilder.
    - exact Hrun.
    - vm_compute; reflexivity.
    - intros h. rewrite calls_on_finish, <- Hcalls. symmetry. apply calls_on_filter.
    - exact Hq.
    - apply ready_nil_quiescent. vm_compute; reflexivity. }
  split; vm_compute; reflexivity.
Qed.

Lemma example2_text_witness :
  output root (after example2_calls) = text "{'a':1,'b':2}" /\
  closed root (after example2_calls) = true.
Proof.
  apply (example2_text (finish example2_calls)).
  - vm_compute; reflexivity.
  - vm_compute; reflexivity.
  - apply ready_nil_quiescent. vm_compute; reflexivity.
Defined.

(** ** Closing of the streams *)

(** C5, as stated, fails: the value builder created by [primitive(42)] has
    closed its stream at once, by [rawValue], and no end was ever requested
    on it. *)
Lemma closure_counterexample :
  ~ (forall (t : list Event) (σ : gmap Id Builder) (i : Id) (b : Builder),
       run t createBuilder = Some σ -> σ !! i = Some b ->
       (ended (stream b) = true <->
        endScheduled b = true /\ queue b = [] /\ current b = None)).
Proof.
  intros H.
  destruct (run [Call root (primitive (PNumber (Finite 42)))] createBuilder)
    as [σ|] eqn:E; [|by vm_compute in E].
  destruct (σ !! [0]) as [b|] eqn:Eb;
    [|vm_compute in E; injection E as <-; by vm_compute in Eb].
  destruct (proj1 (H _ σ [0] b E Eb)) as [Hes _].
  - vm_compute in E. injection E as <-. vm_compute in Eb. by injection Eb as <-.
  - vm_compute in E. injection E as <-. vm_compute in Eb. by injection Eb as <-.
Qed.

(** C5, amended.  In every heap an execution reaches, a builder that is not
    a value builder has closed its stream exactly when its end was
    requested, its queue is empty and it has no current child. *)
Theorem builder_closure (t : list Event) (σ : gmap Id Builder) (i : Id) (b : Builder) :
  run t createBuilder = Some σ -> σ !! i = Some b -> kind b <> ValueStream ->
  (ended (stream b) = true <->
   endScheduled b = true /\ queue b = [] /\ current b = None).
Proof.
  intros Hrun Hi Hk.
  pose proof (run_Inv t _ _ Inv_createBuilder Hrun) as HInv.
  pose proof (inv_good _ HInv _ _ Hi) as Hg.
  split.
  - intros He. apply (good_closed b Hg Hk) in He as [Hes Hc].
    split; [done|]. split; [|done]. by apply (good_queue b Hg).
  - intros (Hes & _ & Hc). by apply (good_closed b Hg Hk).
Qed.

Lemma builder_closure_witness :
  exists b, after example2_calls !! [0] = Some b /\
    (ended (stream b) = true <->
     endScheduled b = true /\ queue b = [] /\ current b = None).
Proof.
  destruct (after example2_calls !! [0]) as [b|] eqn:Eb; [|by vm_compute in Eb].
  exists b. split; [done|].
  apply (builder_closure (finish example2_calls) (after example2_calls) [0] b).
  - vm_compute; reflexivity.
  - exact Eb.
  - vm_compute in Eb. injection Eb as <-. discriminate.
Defined.

(** ** One child at a time *)

Lemma pipes_perform acts b c : current b = Some c -> pipes (perform acts b) = pipes b.
Proof. intros Ec. by destruct (perform_onChildEnd acts c b Ec) as (_ & _ & ->). Qed.

(** C8.  In every heap an execution reaches, a builder has at most one
    stream piped into its own, that of its current child; and when a step
    pipes another child in, the child that was piped before has ended and
    all its chunks were forwarded. *)
Theorem one_active_child (t : list Event) (σ : gmap Id Builder) (p : Id) (b : Builder) :
  run t createBuilder = Some σ -> σ !! p = Some b ->
  (List.length (pipes b) <= 1 /\ pipes b = active b) /\
  (forall e σ' b' c', step e σ = Some σ' -> σ' !! p = Some b' ->
     c' ∈ pipes b' ->
     c' ∈ pipes b \/
     (forall c bc, c ∈ pipes b -> σ !! c = Some bc ->
        Stream.finished (stream bc) = true)).
Proof.
  intros Hrun Hp.
  pose proof (run_Inv t _ _ Inv_createBuilder Hrun) as HInv.
  pose proof (inv_good _ HInv _ _ Hp) as Hg.
  split.
  - rewrite (good_pipes b Hg). unfold active. destruct (current b); simpl; split; (lia || done).
  - intros e σ' b' c' Hstep Hp' Hin'.
    destruct e as [h o|p0 c0|p0 c0].
    + apply step_call_inv in Hstep
        as (bh & m & acts & news & r & c1 & Hh & Hm & Hk & Hrun' & Hplan & _ & ->).
      destruct (decide (p = h)) as [->|Hne].
      * assert (bh = b) as -> by congruence.
        rewrite lookup_insert_eq in Hp'. injection Hp' as <-.
        destruct (current b) as [c|] eqn:Ec.
        -- left. by rewrite (pipes_perform acts b c Ec) in Hin'.
        -- right. intros c bc Hc. rewrite (good_pipes b Hg) in Hc.
           unfold active in Hc. rewrite Ec in Hc. inv_elem Hc.
      * left. rewrite lookup_insert_ne in Hp' by done.
        rewrite lookup_union_r in Hp'
          by (eapply news_absent; eauto). congruence.
    + left. apply step_data_inv in Hstep
        as (bp & bc & x & rest & Hp0 & Hc0 & Hin & Hbuf & ->).
      destruct (decide (p = p0)) as [->|Hne].
      * rewrite lookup_insert_eq in Hp'. injection Hp' as <-.
        assert (bp = b) as -> by congruence. done.
      * rewrite lookup_insert_ne in Hp' by done.
        destruct (decide (p = c0)) as [->|Hne'].
        -- rewrite lookup_insert_eq in Hp'. injection Hp' as <-.
           assert (bc = b) as -> by congruence. done.
        -- rewrite lookup_insert_ne in Hp' by done. congruence.
    + apply step_end_inv in Hstep as (bp & bc & Hp0 & Hc0 & Hin & Hfin & ->).
      destruct (decide (p = p0)) as [->|Hne].
      * right. assert (bp = b) as -> by congruence.
        intros c bc' Hc Hbc'.
        destruct (good_active c0 b Hg Hin) as (_ & Hps & _).
        rewrite Hps in Hc. inv_elem Hc. subst. congruence.
      * left. rewrite lookup_insert_ne in Hp' by done. congruence.
Qed.

Lemma one_active_child_witness :
  exists b, after nested_unordered !! [0] = Some b /\
    (List.length (pipes b) <= 1 /\ pipes b = active b) /\
    (forall e σ' b' c', step e (after nested_unordered) = Some σ' ->
       σ' !! [0] = Some b' -> c' ∈ pipes b' ->
       c' ∈ pipes b \/
       (forall c bc, c ∈ pipes b -> after nested_unordered !! c = Some bc ->
          Stream.finished (stream bc) = true)).
Proof.
  destruct (after nested_unordered !! [0]) as [b|] eqn:Eb; [|by vm_compute in Eb].
  exists b. split; [done|].
  apply (one_active_child (finish nested_unordered) (after nested_unordered) [0] b).
  - vm_compute; reflexivity.
  - exact Eb.
Defined.

(** ** Values that cannot be encoded *)

(** The value a call serializes in one piece, if it does. *)
Definition argument (o : Op) : option JsonValue :=
  match o with
  | primitive data => Some (JPrim data)
  | object (Some data) => Some (JObject data)
  | array (Some data) => Some (JArray data)
  | addProperty _ (Some value) => Some value
  | addItem (Some value) => Some value
  | _ => None
  end.

(** The structure contains a reference back into itself. *)
Fixpoint has_cycle (v : JsonValue) : bool :=
  match v with
  | JPrim _ => false
  | JArray items => existsb has_cycle items
  | JObject props => existsb (fun kv => has_cycle kv.2) props
  | JCircular _ => true
  end.

Definition non_finite (v : JsonValue) : Prop :=
  match v with
  | JPrim (PNumber NaN) | JPrim (PNumber (Infinity _)) => True
  | _ => False
  end.

Lemma JsonValue_rect' (P : JsonValue -> Prop) :
  (forall p, P (JPrim p)) ->
  (forall items, Forall P items -> P (JArray items)) ->
  (forall props, Forall (fun kv => P kv.2) props -> P (JObject props)) ->
  (forall up, P (JCircular up)) ->
  forall v, P v.
Proof.
  intros Hp Ha Ho Hc. fix IH 1. intros [p|items|props|up].
  - apply Hp.
  - apply Ha. induction items as [|x items IHl]; constructor; [apply IH|apply IHl].
  - apply Ho. induction props as [|[k x] props IHl]; constructor; [apply IH|apply IHl].
  - apply Hc.
Qed.

(** All the results, unless one is missing. *)
Fixpoint collect {A} (l : list (option A)) : option (list A) :=
  match l with
  | [] => Some []
  | Some x :: rest =>
      match collect rest with
      | Some xs => Some (x :: xs)
      | None => None
      end
  | None :: _ => None
  end.

Definition member (kv : string * JsonValue) : option string :=
  match JSON.stringify kv.2 with
  | Some s => Some (JSON.quote kv.1 +:+ ":" +:+ s)
  | None => None
  end.

(** The encoder, by the shape of the value. *)
Lemma stringify_array items :
  JSON.stringify (JArray items) =
  match collect (map JSON.stringify items) with
  | Some ss => Some ("[" +:+ JSON.join "," ss +:+ "]")
  | None => None
  end.
Proof.
  unfold JSON.stringify at 1. fold JSON.stringify.
  match goal with |- match ?a with _ => _ end = match ?b with _ => _ end =>
    assert (a = b) as ->; [|done] end.
  induction items as [|x items IH]; simpl; [done|].
  rewrite IH. destruct (JSON.stringify x); [|done].
  by destruct (collect (map JSON.stringify items)).
Qed.

Lemma stringify_object props :
  JSON.stringify (JObject props) =
  match collect (map member props) with
  | Some ss => Some ("{" +:+ JSON.join "," ss +:+ "}")
  | None => None
  end.
Proof.
  unfold JSON.stringify at 1. fold JSON.stringify.
  match goal with |- match ?a with _ => _ end = match ?b with _ => _ end =>
    assert (a = b) as ->; [|done] end.
  induction props as [|[k x] props IH]; simpl; [done|].
  rewrite IH. unfold member. simpl. destruct (JSON.stringify x); [|done].
  by destruct (collect (map member props)).
Qed.

Lemma collect_None {A B} (f : A -> option B) (g : A -> bool) (l : list A) :
  Forall (fun x => f x = None <-> g x = true) l ->
  (collect (map f l) = None <-> existsb g l = true).
Proof.
  induction 1 as [|x l Hx _ IH]; simpl; [done|].
  destruct (f x) eqn:Ex.
  - destruct (g x); [discriminate (proj2 Hx eq_refl)|]. simpl.
    rewrite <- IH. by destruct (collect (map f l)).
  - by rewrite (proj1 Hx eq_refl).
Qed.

(** [JSON.stringify] throws exactly on the structures with a cycle. *)
Lemma stringify_cycle v : JSON.stringify v = None <-> has_cycle v = true.
Proof.
  induction v as [p|items IH|props IH|up] using JsonValue_rect'.
  - done.
  - rewrite stringify_array. simpl. rewrite <- (collect_None JSON.stringify has_cycle items IH).
    by destruct (collect (map JSON.stringify items)).
  - rewrite stringify_object. simpl.
    rewrite <- (collect_None member (fun kv => has_cycle kv.2) props).
    + by destruct (collect (map member props)).
    + eapply Forall_impl; [exact IH|]. intros [k x] Hx. unfold member. simpl in *.
      rewrite <- Hx. by destruct (JSON.stringify x).
  - done.
Qed.

(** A call throws exactly when the value it serializes cannot be encoded;
    what it has created by then holds nothing but the separator. *)
Definition bare (jb : Id * Builder) : Prop :=
  buffer (stream jb.2) = [] \/ buffer (stream jb.2) = [","].

Lemma stream_addChild x b : stream (Builder.addChildBuilder x b) = stream b.
Proof. split_fields b. destruct es, c, q; simpl; done. Qed.

Lemma method_result k o m f :
  method k o = Some m ->
  match argument o with
  | Some v =>
      match JSON.stringify v with
      | Some _ => exists x f', m f = Return x f'
      | None =>
          exists f' news, m f = Throw f' /\ self f' = self f /\
            born f' = born f ++ news /\ Forall bare news /\
            stream (this f') = stream (this f) /\
            endScheduled (this f') = endScheduled (this f)
      end
  | None => exists x f', m f = Return x f'
  end.
Proof.
  intros Hm. destruct f as [h b bn].
  destruct (firstPropertyInserted b) eqn:EP;
  destruct (firstItemInserted b) eqn:EI;
  destruct k, o as [data|[data|]|[data|]| |key [value|]|[value|]];
    simpl in Hm; try discriminate; injection Hm as <-; simpl;
    try (destruct (JSON.stringify (JPrim data)) eqn:ES);
    try (destruct (JSON.stringify (JObject data)) eqn:ES);
    try (destruct (JSON.stringify (JArray data)) eqn:ES);
    try (destruct (JSON.stringify value) eqn:ES);
    run_method; rewrite ?EP, ?EI, ?ES; simpl; rewrite ?ES; simpl;
    try (by eexists _, _);
    try (by eexists _, _).
  all: eexists _, _; split; [reflexivity|]; simpl; split; [reflexivity|].
  all: split; [rewrite <- ?app_assoc; reflexivity|].
  all: split;
    [repeat (apply List.Forall_cons;
             [unfold bare; simpl; first [by left | by right]|]);
     apply List.Forall_nil|].
  all: autorewrite with fields; rewrite ?stream_addChild; done.
Qed.

Lemma commit_lookup (f : Frame) (σ : gmap Id Builder) i bi :
  commit f σ !! i = Some bi ->
  (i = self f /\ bi = this f) \/ (i, bi) ∈ born f \/ σ !! i = Some bi.
Proof.
  destruct f as [h b news]. rewrite commit_union. simpl.
  rewrite lookup_insert. case_decide as Hi.
  - intros [= <-]. by left.
  - rewrite lookup_union_Some_raw. intros [H|[_ H]]; [|by right; right].
    right. left. by apply elem_of_list_to_map_2.
Qed.

(** C6, as stated, fails: [primitive(NaN)] does not throw.  The encoder
    writes a non-finite number as the literal null, and that is what
    arrives on the stream. *)
Lemma encoding_counterexample :
  ~ (forall (σ : gmap Id Builder) (h : Id) (o : Op) (v : JsonValue)
            (r : Result) (σ' : gmap Id Builder),
       argument o = Some v -> non_finite v \/ has_cycle v = true ->
       call h o σ = Some (r, σ') -> r = Thrown).
Proof.
  intros H.
  destruct (call root (primitive (PNumber NaN)) createBuilder) as [[r σ']|] eqn:E;
    [|by vm_compute in E].
  assert (r = Thrown) as ->.
  { apply (H createBuilder root (primitive (PNumber NaN)) (JPrim (PNumber NaN)) r σ').
    - reflexivity.
    - by left.
    - exact E. }
  vm_compute in E. discriminate E.
Qed.

Example not_a_number_text :
  output root (after [Call root (primitive (PNumber NaN))]) = "null" /\
  toJson (after [Call root (primitive (PNumber NaN))]) = Resolved null.
Proof. split; vm_compute; reflexivity. Qed.

(** C6, amended.  A call whose value contains a cycle throws at once; the
    stream of its builder and its end request are as before, and no builder
    it created holds any text but the separator.  A call whose value is a
    non-finite number does not throw: the number is encoded as null. *)
Theorem encoding_failure (σ : gmap Id Builder) (h : Id) (o : Op) (v : JsonValue)
        (r : Result) (σ' : gmap Id Builder) :
  argument o = Some v -> call h o σ = Some (r, σ') ->
  (has_cycle v = true ->
     r = Thrown /\
     (forall i bi, σ !! i = None -> σ' !! i = Some bi ->
        buffer (stream bi) = [] \/ buffer (stream bi) = [","]) /\
     (forall b, σ !! h = Some b ->
        exists b', σ' !! h = Some b' /\ stream b' = stream b /\
                   endScheduled b' = endScheduled b)) /\
  (non_finite v -> JSON.stringify v = Some "null" /\ exists x, r = Returned x).
Proof.
  intros Harg Hcall. unfold call in Hcall.
  destruct (σ !! h) as [b|] eqn:Hb; [|done].
  destruct (method (kind b) o) as [m|] eqn:Hm; [|done].
  injection Hcall as <- <-.
  pose proof (method_result _ _ _ (mkFrame h b []) Hm) as Hres. rewrite Harg in Hres.
  split.
  - intros Hcyc. apply stringify_cycle in Hcyc. rewrite Hcyc in Hres.
    destruct Hres as (f' & news & -> & Hself & Hborn & Hbare & Hstream & Hend).
    simpl in *. split; [done|]. split.
    + intros i bi Hnone Hsome. apply commit_lookup in Hsome as [[-> _]|[Hin|Hold]].
      * rewrite Hself in Hnone. congruence.
      * rewrite Hborn in Hin. by apply (proj1 (List.Forall_forall _ _) Hbare (i, bi)),
          list_elem_of_In.
      * congruence.
    + intros b0 [= <-]. exists (this f'). split; [|done].
      unfold commit. rewrite Hself. apply lookup_insert_eq.
  - intros Hnf.
    assert (JSON.stringify v = Some "null") as Hs
      by (by destruct v as [[| |[| |]|]| | |]).
    split; [done|]. rewrite Hs in Hres. destruct Hres as (x & f' & ->). by exists x.
Qed.

Definition circular_object : list (string * JsonValue) := [("self", JCircular 0)].

Lemma encoding_failure_witness :
  exists r σ',
    call root (object (Some circular_object)) createBuilder = Some (r, σ') /\
    r = Thrown.
Proof.
  destruct (call root (object (Some circular_object)) createBuilder)
    as [[r σ']|] eqn:E; [|by vm_compute in E].
  exists r, σ'. split; [done|].
  apply (encoding_failure createBuilder root (object (Some circular_object))
           (JObject circular_object) r σ' eq_refl E).
  vm_compute; reflexivity.
Defined.

(** ** After the end was requested *)

Lemma act_after_end a b :
  good b -> kind b <> ValueStream -> endScheduled b = true ->
  stream (act a b) = stream b /\ queue (act a b) = queue b /\
  current (act a b) = current b /\ pipes (act a b) = pipes b /\
  endScheduled (act a b) = true.
Proof.
  intros Hg Hk He. destruct a; simpl; try done.
  - unfold Builder.addChildBuilder. by rewrite He.
  - destruct Hg as [Hp Hq Hl Hc _]. specialize (Hc Hk).
    split_fields b. destruct c as [c|]; simpl; [done|].
    rewrite (Hq eq_refl). simpl. destruct Hc as [_ Hc]. by rewrite Hc.
Qed.

Lemma perform_after_end acts b :
  good b -> kind b <> ValueStream -> endScheduled b = true ->
  stream (perform acts b) = stream b /\ queue (perform acts b) = queue b /\
  current (perform acts b) = current b /\ pipes (perform acts b) = pipes b /\
  endScheduled (perform acts b) = true.
Proof.
  intros Hg Hk He. induction acts as [|a acts (H1 & H2 & H3 & H4 & H5)]; simpl; [done|].
  destruct (act_after_end a (perform acts b)) as (-> & -> & -> & -> & ->);
    try done; [by apply good_perform|by rewrite kind_perform].
Qed.

(** C3, as stated, fails: after [array().end()], [addItem] with a circular
    array throws, because the value is encoded before the end request is
    looked at. *)
Lemma after_end_counterexample :
  ~ (forall (t : list Event) (σ : gmap Id Builder) (h : Id) (b : Builder) (o : Op)
            (r : Result) (σ' : gmap Id Builder),
       run t createBuilder = Some σ -> σ !! h = Some b -> endScheduled b = true ->
       call h o σ = Some (r, σ') -> exists x, r = Returned x).
Proof.
  intros H.
  set (t := [Call root (array None); Call [0] end_]).
  set (o := addItem (Some (JArray [JCircular 0]))).
  destruct (run t createBuilder) as [σ|] eqn:Et; [|by vm_compute in Et].
  destruct (σ !! [0]) as [b|] eqn:Eb;
    [|vm_compute in Et; injection Et as <-; by vm_compute in Eb].
  destruct (call [0] o σ) as [[r σ']|] eqn:Ec;
    [|vm_compute in Et; injection Et as <-; by vm_compute in Ec].
  destruct (H t σ [0] b o r σ' Et Eb) as [x ->]; [|exact Ec|].
  - vm_compute in Et. injection Et as <-. vm_compute in Eb. by injection Eb as <-.
  - vm_compute in Et. injection Et as <-. vm_compute in Ec. discriminate Ec.
Qed.

(** C3, amended.  On a builder whose end was requested, a call with a
    value without cycles returns without an exception and leaves the
    stream, the queue, the current child and the pipes of the builder, and
    every other builder of the heap, as they were; [addChildBuilder] is the
    identity. *)
Theorem after_end_no_effect (t : list Event) (σ : gmap Id Builder) (h : Id)
        (b : Builder) (o : Op) (r : Result) (σ' : gmap Id Builder) :
  run t createBuilder = Some σ -> σ !! h = Some b -> endScheduled b = true ->
  (forall v, argument o = Some v -> has_cycle v = false) ->
  call h o σ = Some (r, σ') ->
  (exists x, r = Returned x) /\
  (exists b', σ' !! h = Some b' /\ stream b' = stream b /\ queue b' = queue b /\
              current b' = current b /\ pipes b' = pipes b /\ endScheduled b' = true) /\
  (forall i bi, σ !! i = Some bi -> i <> h -> σ' !! i = Some bi) /\
  (forall x, Builder.addChildBuilder x b = b).
Proof.
  intros Hrun Hh He Harg Hcall.
  pose proof (run_Inv t _ _ Inv_createBuilder Hrun) as HInv.
  assert (step (Call h o) σ = Some σ') as Hstep by (unfold step; by rewrite Hcall).
  apply step_call_inv in Hstep
    as (b0 & m & acts & news & r0 & c1 & Hh0 & Hm & Hk & Hrun' & Hplan & Hcall' & ->).
  assert (b0 = b) as -> by congruence.
  assert (r0 = r) as -> by congruence.
  split; [|split; [|split]].
  - pose proof (method_result _ _ _ (mkFrame h b []) Hm) as Hres.
    rewrite (Hrun' b (agree_refl b)) in Hres.
    destruct (argument o) as [v|] eqn:Ev.
    + destruct (JSON.stringify v) eqn:Es.
      * destruct Hres as (x & f' & Hx). destruct r; [by eexists|done].
      * apply stringify_cycle in Es. rewrite (Harg v eq_refl) in Es. done.
    + destruct Hres as (x & f' & Hx). destruct r; [by eexists|done].
  - exists (perform acts b). split; [apply lookup_insert_eq|].
    apply perform_after_end; [eapply inv_good; eauto|done|done].
  - intros i bi Hi Hne. rewrite lookup_insert_ne by done.
    rewrite lookup_union_r; [done|].
    apply (news_absent σ h b c1 acts news i HInv Hh Hplan). by eexists.
  - intros x. unfold Builder.addChildBuilder. by rewrite He.
Qed.

Definition ended_array : list Event := [Call root (array None); Call [0] end_].

Lemma after_end_no_effect_witness :
  match run ended_array createBuilder with
  | Some σ =>
      match σ !! [0], call [0] (addItem (Some (num 3))) σ with
      | Some b, Some (r, σ') =>
          (exists x, r = Returned x) /\
          (exists b', σ' !! [0] = Some b' /\ stream b' = stream b /\
                      queue b' = queue b /\ current b' = current b /\
                      pipes b' = pipes b /\ endScheduled b' = true)
      | _, _ => False
      end
  | None => False
  end.
Proof.
  destruct (run ended_array createBuilder) as [σ|] eqn:Et; [|by vm_compute in Et].
  destruct (σ !! [0]) as [b|] eqn:Eb;
    [|vm_compute in Et; injection Et as <-; by vm_compute in Eb].
  destruct (call [0] (addItem (Some (num 3))) σ) as [[r σ']|] eqn:Ec;
    [|vm_compute in Et; injection Et as <-; by vm_compute in Ec].
  destruct (after_end_no_effect ended_array σ [0] b (addItem (Some (num 3))) r σ'
              Et Eb) as (H1 & H2 & _).
  - vm_compute in Et. injection Et as <-. vm_compute in Eb. by injection Eb as <-.
  - by intros v [= <-].
  - exact Ec.
  - by split.
Defined.

(** ** A primitive in an undecided slot *)

Lemma stringify_prim p : JSON.stringify (JPrim p) = Some (JSON.literal p).
Proof. reflexivity. Qed.

Lemma child_not_self (d : Id) k : d ++ [k] <> d.
Proof. apply (name_not_self d k []). Qed.

(** C9.  On a builder [d] of class [JsonStreamBuilder] on which nothing
    was called yet, with parent [p], the call [primitive(data)] returns [p];
    afterwards [d] has one child, a value builder that holds the literal of
    [data] and has ended, as its current child, and the end of [d] is
    requested.  Once the chunk is forwarded and the end of the child has
    arrived, the stream of [d] holds exactly that literal and is closed. *)
Theorem primitive_on_fresh (σ : gmap Id Builder) (d : Id) (p : option Id)
        (data : JsonPrimitive) :
  σ !! d = Some (Builder.create JsonStream p) ->
  exists σ1 b1 σ2,
    call d (primitive data) σ = Some (Returned p, σ1) /\
    σ1 !! (d ++ [0]) = Some (leaf p (JSON.literal data)) /\
    σ1 !! d = Some b1 /\
    current b1 = Some (d ++ [0]) /\ queue b1 = [] /\ pipes b1 = [d ++ [0]] /\
    endScheduled b1 = true /\ buffer (stream b1) = [] /\
    run [OnData d (d ++ [0]); OnEnd d (d ++ [0])] σ1 = Some σ2 /\
    output d σ2 = JSON.literal data /\ closed d σ2 = true.
Proof.
  intros Hd. pose proof (child_not_self d 0) as Hne.
  set (c := d ++ [0]) in *.
  set (b1 := mkBuilder JsonStream p Stream.create [c] [] (Some c) true false false 1).
  set (σ1 := <[d := b1]> (<[c := leaf p (JSON.literal data)]> σ)).
  set (b2 := mkBuilder JsonStream p (mkStream [JSON.literal data] true false)
               [] [] None true false false 1).
  set (σ2 := <[d := b2]>
               (<[d := set_stream (Stream.write (JSON.literal data)) b1]>
                  (<[c := set_stream Stream.shift (leaf p (JSON.literal data))]> σ1))).
  assert (σ1 !! d = Some b1) as Hd1 by apply lookup_insert_eq.
  assert (σ1 !! c = Some (leaf p (JSON.literal data))) as Hc1
    by (unfold σ1; by rewrite lookup_insert_ne, lookup_insert_eq).
  exists σ1, b1, σ2.
  split.
  { unfold call. rewrite Hd. simpl. run_method.
    unfold commit, Builder.scheduleEnd, Builder.addChildBuilder,
      Builder.consumeChildBuilder. simpl. reflexivity. }
  split; [exact Hc1|]. split; [exact Hd1|].
  do 5 (split; [reflexivity|]).
  split.
  - cbn [run]. rewrite (step_data_intro d c σ1 b1 _ (JSON.literal data) [] Hd1 Hc1);
      [|by left|reflexivity].
    rewrite (step_end_intro d c _ (set_stream (Stream.write (JSON.literal data)) b1)
               (set_stream Stream.shift (leaf p (JSON.literal data))));
      [|apply lookup_insert_eq
       |by rewrite lookup_insert_ne, lookup_insert_eq|by left|reflexivity].
    unfold σ2, Builder.onChildEnd, Builder.consumeChildBuilder. simpl.
    do 2 f_equal. unfold b2, b1, set_stream, set_queue, set_current, set_pipes. simpl.
    by rewrite filter_ne_self.
  - unfold output, closed, σ2. rewrite !lookup_insert_eq. simpl. split; [|reflexivity].
    by destruct (JSON.literal data).
Qed.

Lemma primitive_on_fresh_witness :
  exists σ1 b1 σ2,
    call root (primitive (PNumber (Finite 42))) createBuilder = Some (Returned None, σ1) /\
    σ1 !! [0] = Some (leaf None "42") /\
    σ1 !! root = Some b1 /\
    current b1 = Some [0] /\ queue b1 = [] /\ pipes b1 = [[0]] /\
    endScheduled b1 = true /\ buffer (stream b1) = [] /\
    run [OnData root [0]; OnEnd root [0]] σ1 = Some σ2 /\
    output root σ2 = "42" /\ closed root σ2 = true.
Proof.
  apply (primitive_on_fresh createBuilder root None (PNumber (Finite 42))).
  reflexivity.
Defined.

(** ** The value [undefined] *)

(** How a call passes an optional parameter: left out, passed as
    [undefined], or passed with a value.  In the body of the method the
    first two are the same [undefined]. *)
Inductive Actual :=
| Omitted
| Undefined
| Given (v : JsonValue).

Definition optional (a : Actual) : option JsonValue :=
  match a with
  | Given v => Some v
  | Omitted | Undefined => None
  end.

Lemma children_addChild x b :
  endScheduled b = false -> children (Builder.addChildBuilder x b) x.
Proof.
  intros He. split_fields b. unfold children. destruct c, q; simpl; set_solver.
Qed.

Lemma endScheduled_perform_addChild x b :
  endScheduled (Builder.addChildBuilder x b) = endScheduled b.
Proof. apply addChild_fields. Qed.

(** C10.  [addProperty(key, undefined)] and [addItem(undefined)] are the
    calls without a value.  On an object or array builder whose end was not
    requested, such a call returns a new builder of class
    [JsonStreamBuilder] on which nothing was called yet, with this builder
    as its parent, and has put it in the queue (or made it the current
    child); the only other builders it creates hold the separator or the
    key prefix, never a value. *)
Theorem undefined_opens_context (σ : gmap Id Builder) (h : Id) (b : Builder)
        (key : string) :
  σ !! h = Some b -> endScheduled b = false ->
  let child := h ++ [created b] in
  let prefix := String JSON.dquote key +:+ String JSON.dquote ":" in
  (addProperty key (optional Undefined) = addProperty key (optional Omitted) /\
   addItem (optional Undefined) = addItem (optional Omitted)) /\
  (kind b = ObjectStream ->
   exists σ' b',
     call h (addProperty key (optional Undefined)) σ = Some (Returned (Some child), σ') /\
     σ' !! child = Some (Builder.create JsonStream (Some h)) /\
     σ' !! h = Some b' /\ children b' child /\
     (forall i bi, σ !! i = None -> σ' !! i = Some bi ->
        i = child \/ bi = leaf (Some h) "," \/ bi = leaf (Some h) prefix)) /\
  (kind b = ArrayStream ->
   exists σ' b',
     call h (addItem (optional Undefined)) σ = Some (Returned (Some child), σ') /\
     σ' !! child = Some (Builder.create JsonStream (Some h)) /\
     σ' !! h = Some b' /\ children b' child /\
     (forall i bi, σ !! i = None -> σ' !! i = Some bi ->
        i = child \/ bi = leaf (Some h) ",")).
Proof.
  intros Hh He child prefix. split; [done|].
  assert (child <> h) as Hne by apply child_not_self.
  assert (forall k, h ++ [k] = child -> k = created b) as Hinj.
  { intros k Hk. by apply app_inv_head in Hk as [= ->]. }
  split; intros Hk; unfold call; rewrite Hh, Hk; simpl.
  - destruct (firstPropertyInserted b) eqn:EP; run_method; rewrite EP; simpl;
      autorewrite with fields; simpl;
      (eexists _, _; split; [reflexivity|]; unfold commit; simpl;
       split; [by rewrite lookup_insert_ne, lookup_insert_eq|];
       split; [apply lookup_insert_eq|];
       split; [apply children_addChild; repeat (progress (autorewrite with fields; simpl)); exact He|];
       intros i bi Hnone; rewrite !lookup_insert; repeat case_decide; subst;
       try congruence; intros [= <-]; auto).
  - destruct (firstItemInserted b) eqn:EI; run_method; rewrite EI; simpl;
      autorewrite with fields; simpl;
      (eexists _, _; split; [reflexivity|]; unfold commit; simpl;
       split; [by rewrite lookup_insert_ne, lookup_insert_eq|];
       split; [apply lookup_insert_eq|];
       split; [apply children_addChild; repeat (progress (autorewrite with fields; simpl)); exact He|];
       intros i bi Hnone; rewrite !lookup_insert; repeat case_decide; subst;
       try congruence; intros [= <-]; auto).
Qed.

(** The heap after the calls of [t], before any stream event that [t]
    does not list. *)
Definition heap_after (t : list Event) : gmap Id Builder :=
  match run t createBuilder with
  | Some σ => σ
  | None => ∅
  end.

Definition open_object : Builder :=
  mkBuilder ObjectStream None Stream.create [[0; 0]] [] (Some [0; 0]) false false false 1.

Lemma undefined_opens_context_witness :
  exists σ' b',
    call [0] (addProperty "sub" (optional Undefined)) (heap_after [Call root (object None)])
    = Some (Returned (Some [0; 1]), σ') /\
    σ' !! [0; 1] = Some (Builder.create JsonStream (Some [0])) /\
    σ' !! [0] = Some b' /\ children b' [0; 1] /\
    (forall i bi, heap_after [Call root (object None)] !! i = None -> σ' !! i = Some bi ->
       i = [0; 1] \/ bi = leaf (Some [0]) "," \/
       bi = leaf (Some [0]) (String JSON.dquote "sub" +:+ String JSON.dquote ":")).
Proof.
  refine (proj1 (proj2 (undefined_opens_context (heap_after [Call root (object None)])
                          [0] open_object "sub" _ _)) eq_refl).
  - vm_compute; reflexivity.
  - reflexivity.
Defined.

(** ** The bulk forms *)

(** Modelled from the spec: [addProperties(map)] of the object builder,
    which the tests call and [src/index.ts] does not define.  It applies the
    inline form [addProperty(key, value)] once for each entry, in order,
    and returns this builder. *)
Fixpoint addProperties (entries : list (string * JsonValue)) : M (option Id) :=
  match entries with
  | [] => i ← me; mret (Some i)
  | (key, value) :: rest =>
      ObjectStreamBuilder.addProperty key (Some value);;
      addProperties rest
  end.

(** Modelled from the spec: [addItems(seq)] of the array builder, which the
    tests call and [src/index.ts] does not define.  It applies the inline
    form [addItem(value)] once for each entry, in order, and returns this
    builder. *)
Fixpoint addItems (items : list JsonValue) : M (option Id) :=
  match items with
  | [] => i ← me; mret (Some i)
  | value :: rest =>
      ArrayStreamBuilder.addItem (Some value);;
      addItems rest
  end.

(** One more call in a chain on the same builder. *)
Definition and_then {A} (call : A -> M (option Id)) (out : Outcome (option Id)) (a : A)
  : Outcome (option Id) :=
  match out with
  | Return _ f => call a f
  | Throw f => Throw f
  end.

Lemma inline_property_returns_this key value f :
  match ObjectStreamBuilder.addProperty key (Some value) f with
  | Return x f' => x = Some (self f) /\ self f' = self f
  | Throw _ => True
  end.
Proof.
  destruct f as [h b bn]. run_method.
  destruct (firstPropertyInserted b); simpl;
    destruct (JSON.stringify value); simpl; done.
Qed.

Lemma inline_item_returns_this value f :
  match ArrayStreamBuilder.addItem (Some value) f with
  | Return x f' => x = Some (self f) /\ self f' = self f
  | Throw _ => True
  end.
Proof.
  destruct f as [h b bn]. run_method.
  destruct (firstItemInserted b); simpl;
    destruct (JSON.stringify value); simpl; done.
Qed.

Lemma and_then_throw {A} (call : A -> M (option Id)) f l :
  foldl (and_then call) (Throw f) l = Throw f.
Proof. by induction l. Qed.

(** C7.  [addProperties(map)] is the chain of the inline calls
    [addProperty(key, value)] for the entries of the map, in order, and
    returns this builder; [addItems(seq)] likewise with [addItem(value)].
    With no entry either call changes nothing. *)
Theorem bulk_forms (f : Frame) (entries : list (string * JsonValue))
        (items : list JsonValue) :
  addProperties entries f
  = foldl (and_then (fun kv => ObjectStreamBuilder.addProperty kv.1 (Some kv.2)))
      (Return (Some (self f)) f) entries /\
  addItems items f
  = foldl (and_then (fun v => ArrayStreamBuilder.addItem (Some v)))
      (Return (Some (self f)) f) items /\
  addProperties [] f = Return (Some (self f)) f /\
  addItems [] f = Return (Some (self f)) f.
Proof.
  split; [|split; [|done]].
  - revert f. induction entries as [|[k v] rest IH]; intros f; [done|].
    pose proof (inline_property_returns_this k v f) as H.
    set (out := ObjectStreamBuilder.addProperty k (Some v) f) in *.
    transitivity (match out with
                  | Return _ f' => addProperties rest f'
                  | Throw f' => Throw f'
                  end); [reflexivity|].
    transitivity (foldl (and_then (fun kv : string * JsonValue =>
                           ObjectStreamBuilder.addProperty kv.1 (Some kv.2))) out rest);
      [|reflexivity].
    clearbody out. destruct out as [x f'|f'].
    + destruct H as [-> Hs]. rewrite <- Hs. apply IH.
    + by rewrite and_then_throw.
  - revert f. induction items as [|v rest IH]; intros f; [done|].
    pose proof (inline_item_returns_this v f) as H.
    set (out := ArrayStreamBuilder.addItem (Some v) f) in *.
    transitivity (match out with
                  | Return _ f' => addItems rest f'
                  | Throw f' => Throw f'
                  end); [reflexivity|].
    transitivity (foldl (and_then (fun v : JsonValue =>
                           ArrayStreamBuilder.addItem (Some v))) out rest);
      [|reflexivity].
    clearbody out. destruct out as [x f'|f'].
    + destruct H as [-> Hs]. rewrite <- Hs. apply IH.
    + by rewrite and_then_throw.
Qed.

(** ** Keys that need escaping *)

(** The key of three characters: a, a quotation mark, b. *)
Definition quoted_key : string := text "a'b".

Definition member_by_member : list Event :=
  [ Call root (object None); Call [0] (addProperty quoted_key (Some (num 1)));
    Call [0] end_ ].

Definition member_and_value : list Event :=
  [ Call root (object None); Call [0] (addProperty quoted_key None);
    Call [0; 1] (primitive (PNumber (Finite 1))); Call [0] end_ ].

Definition one_shot : list Event :=
  [ Call root (object (Some [(quoted_key, num 1)])) ].

(** C1 at the key with a quotation mark.  Built in one piece, the object
    is encoded with the key escaped, and the collector resolves to the
    object.  Built member by member, with the value inline or through a
    child builder, the key is written as it is: the text is not JSON and
    the collector rejects. *)
Theorem quoted_key_diverges :
  output root (after one_shot) = text "{'a\'b':1}" /\
  toJson (after one_shot) = Resolved (JObject [(quoted_key, num 1)]) /\
  output root (after member_by_member) = text "{'a'b':1}" /\
  toJson (after member_by_member) = Rejected /\
  output root (after member_and_value) = text "{'a'b':1}" /\
  toJson (after member_and_value) = Rejected.
Proof. repeat split; vm_compute; reflexivity. Qed.

(* ================================================================== *)
(** * Further properties of the code *)
(* ================================================================== *)

(** ** The stream events of an execution come to an end *)

(** What is left to do for the pipes of a builder: its queued and its
    piped children, and its buffered chunks, each chunk counted once for
    every stream it can still pass through. *)
Definition load (i : Id) (b : Builder) : nat :=
  List.length (queue b) + List.length (pipes b) +
  List.length (buffer (stream b)) * S (List.length i).

Definition work (σ : gmap Id Builder) : nat :=
  map_fold (fun i b n => load i b + n) 0 σ.

Lemma work_insert σ i b b' :
  σ !! i = Some b -> work (<[i := b']> σ) + load i b = work σ + load i b'.
Proof.
  intros Hi. unfold work.
  rewrite (map_fold_delete_L _ 0 i b σ); [|intros; lia|done].
  rewrite <- (insert_delete_eq σ i b').
  rewrite (map_fold_insert_L _ 0 i b' (delete i σ)); [lia|intros; lia|].
  apply lookup_delete_eq.
Qed.

Lemma load_onChildEnd (p c : Id) b :
  pipes b = [c] -> S (load p (Builder.onChildEnd c b)) = load p b.
Proof.
  intros Hp. unfold load. rewrite onChildEnd_buffer.
  split_fields b.
  destruct q as [|y q]; simpl; [destruct es; simpl|];
    unfold set_pipes; simpl; rewrite filter_ne_self; simpl; lia.
Qed.

Lemma work_step e σ σ' :
  Inv σ -> is_call e = false -> step e σ = Some σ' -> work σ' < work σ.
Proof.
  intros HInv He Hstep. destruct e as [h o|p c|p c]; [done| |].
  - apply step_data_inv in Hstep as (bp & bc & x & rest & Hp & Hc & Hin & Hb & ->).
    destruct (piped_child _ _ _ _ HInv Hp Hin) as (_ & _ & Hne & _ & [k ->] & Hpc).
    pose proof (work_insert σ (p ++ [k]) bc (set_stream Stream.shift bc) Hc) as H1.
    pose proof (work_insert (<[p ++ [k] := set_stream Stream.shift bc]> σ) p bp
                  (set_stream (Stream.write x) bp)) as H2.
    rewrite lookup_insert_ne in H2 by done. specialize (H2 Hp).
    assert (load (p ++ [k]) bc
            = load (p ++ [k]) (set_stream Stream.shift bc) + S (S (List.length p))) as E1.
    { unfold load. simpl. rewrite Hb. simpl. rewrite length_app. simpl. lia. }
    assert (load p (set_stream (Stream.write x) bp) = load p bp + S (List.length p)) as E2.
    { unfold load, set_stream, Stream.write. simpl. rewrite Hne. simpl.
      rewrite length_app. simpl. lia. }
    lia.
  - apply step_end_inv in Hstep as (bp & bc & Hp & Hc & Hin & Hf & ->).
    destruct (piped_child _ _ _ _ HInv Hp Hin) as (_ & Hps & _).
    pose proof (work_insert σ p bp (Builder.onChildEnd c bp) Hp) as H1.
    pose proof (load_onChildEnd p c bp Hps). lia.
Qed.

Lemma ready_sound σ e : e ∈ ready σ -> is_Some (step e σ).
Proof.
  unfold ready. intros H.
  apply list_elem_of_bind in H as ([p bp] & H & Hp).
  apply elem_of_map_to_list in Hp.
  apply list_elem_of_bind in H as (c & H & Hin).
  destruct (σ !! c) as [bc|] eqn:Hc; [|inv_elem H].
  destruct (buffer (stream bc)) as [|x rest] eqn:Hb.
  - destruct (ended (stream bc)) eqn:He; inv_elem H. subst.
    rewrite (step_end_intro p c σ bp bc); [by eexists|done|done|done|].
    unfold Stream.finished. by rewrite Hb.
  - inv_elem H. subst. rewrite (step_data_intro p c σ bp bc x rest); [by eexists|done..].
Qed.

Lemma settle_work fuel : forall σ,
  Inv σ -> work σ <= fuel -> quiescent (settle fuel σ).
Proof.
  induction fuel as [|fuel IH]; intros σ HInv Hw; simpl.
  - apply ready_nil_quiescent. destruct (ready σ) as [|e l] eqn:E; [done|]. exfalso.
    assert (e ∈ ready σ) as Hin by (rewrite E; by left).
    destruct (ready_sound σ e Hin) as [σ' Hs].
    pose proof (work_step e σ σ' HInv (ready_stream_events σ e Hin) Hs). lia.
  - destruct (ready σ) as [|e l] eqn:E; [by apply ready_nil_quiescent|].
    assert (e ∈ ready σ) as Hin by (rewrite E; by left).
    destruct (ready_sound σ e Hin) as [σ' Hs]. rewrite Hs.
    pose proof (work_step e σ σ' HInv (ready_stream_events σ e Hin) Hs).
    apply IH; [eapply step_Inv; eauto|lia].
Qed.

Lemma run_bounded t : forall σ σ',
  Inv σ -> Forall (fun e => is_call e = false) t -> run t σ = Some σ' ->
  List.length t + work σ' <= work σ.
Proof.
  induction t as [|e t IH]; intros σ σ' HInv Hall Hrun; simpl in *.
  - injection Hrun as <-. lia.
  - destruct (step e σ) as [σ1|] eqn:Hs; [|done].
    apply Forall_cons in Hall as [He Hall].
    pose proof (work_step e σ σ1 HInv He Hs).
    pose proof (IH σ1 σ' (step_Inv _ _ _ HInv Hs) Hall Hrun). lia.
Qed.

(** X1.  The stream events of an execution come to an end: from a heap an
    execution has reached, no sequence of stream events (chunks forwarded
    through a pipe, ends delivered) without a call between them is longer
    than the work that is left in that heap. *)
Theorem stream_events_bounded (t t' : list Event) (σ σ' : gmap Id Builder) :
  run t createBuilder = Some σ ->
  Forall (fun e => is_call e = false) t' ->
  run t' σ = Some σ' ->
  List.length t' + work σ' <= work σ.
Proof.
  intros Hrun. apply run_bounded. exact (run_Inv t _ _ Inv_createBuilder Hrun).
Qed.

Lemma stream_events_bounded_witness :
  List.length (settle_trace 200 (heap_after nested_synchronous))
  + work (settle 200 (heap_after nested_synchronous))
  <= work (heap_after nested_synchronous).
Proof.
  apply (stream_events_bounded nested_synchronous
           (settle_trace 200 (heap_after nested_synchronous))).
  - vm_compute; reflexivity.
  - apply Forall_forall. intros e He.
    destruct e as [h o|p c|p c]; [|done|done]. exfalso.
    revert He. vm_compute. intros He.
    repeat (apply elem_of_cons in He as [He|He]; [discriminate He|]).
    by apply elem_of_nil in He.
  - apply run_settle_trace.
Defined.

(** X2.  The scheduler reaches a heap in which no stream event is left:
    from a heap an execution has reached, letting the stream events that
    are ready happen, one after the other, ends after at most [work σ] of
    them, and it adds no call to the execution. *)
Theorem settle_quiescent (t : list Event) (σ : gmap Id Builder) :
  run t createBuilder = Some σ ->
  run (t ++ settle_trace (work σ) σ) createBuilder = Some (settle (work σ) σ) /\
  quiescent (settle (work σ) σ) /\
  (forall h, calls_on h (t ++ settle_trace (work σ) σ) = calls_on h t).
Proof.
  intros Hrun. split; [|split].
  - rewrite run_app, Hrun. apply run_settle_trace.
  - apply settle_work; [|done]. exact (run_Inv t _ _ Inv_createBuilder Hrun).
  - intros h. by rewrite calls_on_app, calls_on_settle_trace, app_nil_r.
Qed.

Lemma settle_quiescent_witness :
  quiescent (settle (work (heap_after nested_synchronous)) (heap_after nested_synchronous)).
Proof.
  refine (proj1 (proj2 (settle_quiescent nested_synchronous
                          (heap_after nested_synchronous) _))).
  vm_compute; reflexivity.
Defined.

(** ** Streams are never written after their end *)

Lemma write_push x b :
  ended (stream b) = false -> set_stream (Stream.write x) b = set_stream (Stream.push x) b.
Proof. intros H. unfold set_stream, Stream.write. by rewrite H. Qed.

(** X3.  In every heap an execution reaches, no stream has been written to
    after its end; and when a chunk is forwarded through a pipe, the stream
    it is written to has not ended, so the chunk is appended to it and
    leaves the stream it came from: no chunk is lost or repeated. *)
Theorem no_write_after_end (t : list Event) (σ : gmap Id Builder) :
  run t createBuilder = Some σ ->
  (forall i b, σ !! i = Some b -> errored (stream b) = false) /\
  (forall p c σ', step (OnData p c) σ = Some σ' ->
     exists bp bc x rest,
       σ !! p = Some bp /\ σ !! c = Some bc /\
       buffer (stream bc) = x :: rest /\ ended (stream bp) = false /\
       σ' !! p = Some (set_stream (Stream.push x) bp) /\
       σ' !! c = Some (set_stream Stream.shift bc) /\
       buffer (stream (set_stream Stream.shift bc)) = rest).
Proof.
  intros Hrun. pose proof (run_Inv t _ _ Inv_createBuilder Hrun) as HInv. split.
  - intros i b Hi. exact (good_errored b (inv_good _ HInv _ _ Hi)).
  - intros p c σ' Hstep.
    apply step_data_inv in Hstep as (bp & bc & x & rest & Hp & Hc & Hin & Hb & ->).
    destruct (piped_child _ _ _ _ HInv Hp Hin) as (_ & _ & Hne & _ & _ & Hpc).
    exists bp, bc, x, rest. split_and!; try done.
    + rewrite lookup_insert_eq. by rewrite write_push.
    + rewrite lookup_insert_ne by done. by rewrite lookup_insert_eq.
    + simpl. by rewrite Hb.
Qed.

Lemma no_write_after_end_witness :
  exists b, heap_after nested_unordered !! [0] = Some b /\ errored (stream b) = false.
Proof.
  destruct (heap_after nested_unordered !! [0]) as [b|] eqn:Eb; [|by vm_compute in Eb].
  exists b. split; [reflexivity|].
  refine (proj1 (no_write_after_end nested_unordered (heap_after nested_unordered) _)
            [0] b Eb).
  vm_compute; reflexivity.
Defined.

(** ** What a call touches *)

Lemma perform_buffer acts b : buffer (stream (perform acts b)) = buffer (stream b).
Proof. apply perform_shift. Qed.

(** X4.  A call changes no builder but its own and those it creates: every
    other builder of the heap is as before, every builder that is new has
    a name below that of the called one, and the call puts no chunk into
    the stream of its own builder (text arrives there through pipes
    only). *)
Theorem call_changes_this_only (t : list Event) (σ : gmap Id Builder) (h : Id) (o : Op)
        (r : Result) (σ' : gmap Id Builder) :
  run t createBuilder = Some σ -> call h o σ = Some (r, σ') ->
  (forall i b, σ !! i = Some b -> i <> h -> σ' !! i = Some b) /\
  (forall i, σ !! i = None -> is_Some (σ' !! i) -> exists k rest, i = h ++ k :: rest) /\
  (exists b b', σ !! h = Some b /\ σ' !! h = Some b' /\
                buffer (stream b') = buffer (stream b) /\ kind b' = kind b).
Proof.
  intros Hrun Hcall. pose proof (run_Inv t _ _ Inv_createBuilder Hrun) as HInv.
  assert (step (Call h o) σ = Some σ') as Hstep by (simpl; by rewrite Hcall).
  apply step_call_inv in Hstep
    as (b & m & acts & news & r' & c1 & Hh & Hm & Hk & Hrun' & Hplan & _ & ->).
  split_and!.
  - intros i bi Hi Hne. rewrite lookup_insert_ne by done.
    rewrite lookup_union_r; [done|].
    apply (news_absent σ h b c1 acts news i HInv Hh Hplan). by eexists.
  - intros i Hi [bi Hbi].
    destruct (call_lookup σ h b c1 acts news HInv Hh Hplan i bi Hbi)
      as [[-> _]|[Hin|(_ & _ & Hold)]].
    + congruence.
    + destruct (plan_names _ _ _ _ _ Hplan i bi Hin) as (k & rest & -> & _). by eexists _, _.
    + congruence.
  - exists b, (perform acts b). split_and!; try done.
    + apply lookup_insert_eq.
    + apply perform_buffer.
    + apply kind_perform.
Qed.

Lemma call_changes_this_only_witness :
  exists b,
    heap_after [Call root (object None)] !! [0; 0] = Some b /\
    heap_after [Call root (object None); Call [0] (addProperty "a" None)] !! [0; 0] = Some b.
Proof.
  destruct (heap_after [Call root (object None)] !! [0; 0]) as [b|] eqn:Eb;
    [|by vm_compute in Eb].
  exists b. split; [reflexivity|].
  refine (proj1 (call_changes_this_only [Call root (object None)]
                   (heap_after [Call root (object None)]) [0] (addProperty "a" None)
                   (Returned (Some [0; 1]))
                   (heap_after [Call root (object None); Call [0] (addProperty "a" None)])
                   _ _) [0; 0] b Eb _).
  - vm_compute; reflexivity.
  - vm_compute; reflexivity.
  - discriminate.
Defined.

(** ** What never changes back *)

Lemma act_keeps a b :
  parent (act a b) = parent b /\
  (endScheduled b = true -> endScheduled (act a b) = true).
Proof.
  destruct a; simpl; try done.
  - destruct (addChild_fields x b) as [(_ & -> & _) ->]. done.
  - destruct (scheduleEnd_fields b) as [(_ & -> & _) ->]. done.
Qed.

Lemma perform_keeps acts b :
  parent (perform acts b) = parent b /\
  (endScheduled b = true -> endScheduled (perform acts b) = true).
Proof.
  induction acts as [|a acts [IH1 IH2]]; simpl; [done|].
  destruct (act_keeps a (perform acts b)) as [-> H]. auto.
Qed.

Lemma ended_onChildEnd c b :
  ended (stream b) = true -> ended (stream (Builder.onChildEnd c b)) = true.
Proof. split_fields b. intros ->. destruct q as [|y q], es; simpl; done. Qed.

(** What is kept of a builder from one heap to a later one. *)
Definition later (b b' : Builder) : Prop :=
  kind b' = kind b /\ parent b' = parent b /\ created b <= created b' /\
  (endScheduled b = true -> endScheduled b' = true) /\
  (ended (stream b) = true ->
     ended (stream b') = true /\
     exists n, buffer (stream b') = drop n (buffer (stream b))).

Lemma later_refl b : later b b.
Proof. repeat split; try done. by exists 0. Qed.

Lemma later_trans b1 b2 b3 : later b1 b2 -> later b2 b3 -> later b1 b3.
Proof.
  intros (Hk & Hp & Hc & He & Hs) (Hk' & Hp' & Hc' & He' & Hs').
  split_and!; try congruence; [lia|auto|].
  intros H1. destruct (Hs H1) as [H2 [n Hn]]. destruct (Hs' H2) as [H3 [n' Hn']].
  split; [done|]. exists (n + n'). by rewrite Hn', Hn, drop_drop.
Qed.

Lemma step_later e σ σ' i b :
  Inv σ -> step e σ = Some σ' -> σ !! i = Some b ->
  exists b', σ' !! i = Some b' /\ later b b'.
Proof.
  intros HInv Hstep Hi. destruct e as [h o|p c|p c].
  - apply step_call_inv in Hstep
      as (bh & m & acts & news & r & c1 & Hh & Hm & Hk & Hrun & Hplan & _ & ->).
    destruct (decide (i = h)) as [->|Hne].
    + assert (bh = b) as -> by congruence.
      exists (perform acts b). split; [apply lookup_insert_eq|].
      destruct (perform_keeps acts b) as [Hp He].
      destruct (perform_shift acts b) as (_ & Hbuf & Hend).
      split_and!; try done.
      * apply kind_perform.
      * rewrite (plan_created _ _ _ _ _ Hplan b eq_refl).
        apply (plan_grows _ _ _ _ _ Hplan).
      * intros H. split; [auto|]. exists 0. by rewrite Hbuf.
    + exists b. split; [|apply later_refl].
      rewrite lookup_insert_ne by done. rewrite lookup_union_r; [done|].
      apply (news_absent σ h bh c1 acts news i HInv Hh Hplan). by eexists.
  - apply step_data_inv in Hstep as (bp & bc & x & rest & Hp & Hc & Hin & Hb & ->).
    destruct (piped_child _ _ _ _ HInv Hp Hin) as (_ & _ & Hne & _ & _ & Hpc).
    destruct (decide (i = p)) as [->|Hip].
    + assert (bp = b) as -> by congruence.
      eexists. split; [apply lookup_insert_eq|].
      rewrite write_push by done.
      split_and!; try done. intros H. congruence.
    + rewrite lookup_insert_ne by done.
      destruct (decide (i = c)) as [->|Hic].
      * assert (bc = b) as -> by congruence.
        eexists. split; [apply lookup_insert_eq|].
        split_and!; try done. intros H. split; [done|]. by exists 1.
      * exists b. split; [by rewrite lookup_insert_ne|apply later_refl].
  - apply step_end_inv in Hstep as (bp & bc & Hp & Hc & Hin & Hf & ->).
    destruct (decide (i = p)) as [->|Hip].
    + assert (bp = b) as -> by congruence.
      eexists. split; [apply lookup_insert_eq|].
      destruct (onChildEnd_fields c b) as [(Hk & Hpa & _ & _ & Hcr & Hbuf & _) He].
      split_and!; try done; [lia|congruence|].
      intros H. split; [by apply ended_onChildEnd|]. exists 0. by rewrite Hbuf.
    + exists b. split; [by rewrite lookup_insert_ne|apply later_refl].
Qed.

Lemma run_later t : forall σ σ' i b,
  Inv σ -> run t σ = Some σ' -> σ !! i = Some b ->
  exists b', σ' !! i = Some b' /\ later b b'.
Proof.
  induction t as [|e t IH]; intros σ σ' i b HInv Hrun Hi; simpl in Hrun.
  - injection Hrun as <-. exists b. split; [done|apply later_refl].
  - destruct (step e σ) as [σ1|] eqn:Hs; [|done].
    destruct (step_later e σ σ1 i b HInv Hs Hi) as (b1 & H1 & L1).
    destruct (IH σ1 σ' i b1 (step_Inv _ _ _ HInv Hs) Hrun H1) as (b' & H' & L').
    exists b'. split; [done|]. by apply (later_trans b b1 b').
Qed.

(** X5.  Nothing is taken back: a builder of a heap an execution has
    reached is there in every later heap, with its class and its parent;
    once its end was requested it stays requested, and once its stream has
    ended the stream stays ended and gets no further chunk (its buffered
    chunks can only be taken from its front). *)
Theorem end_is_permanent (t t' : list Event) (σ σ' : gmap Id Builder) (i : Id) (b : Builder) :
  run t createBuilder = Some σ -> run t' σ = Some σ' -> σ !! i = Some b ->
  exists b', σ' !! i = Some b' /\ kind b' = kind b /\ parent b' = parent b /\
    (endScheduled b = true -> endScheduled b' = true) /\
    (ended (stream b) = true ->
       ended (stream b') = true /\
       exists n, buffer (stream b') = drop n (buffer (stream b))).
Proof.
  intros Hrun Hrun' Hi.
  destruct (run_later t' σ σ' i b (run_Inv t _ _ Inv_createBuilder Hrun) Hrun' Hi)
    as (b' & Hb' & Hk & Hp & _ & He & Hs).
  by exists b'.
Qed.

Lemma end_is_permanent_witness :
  exists b', after nested_synchronous !! [0; 4; 0] = Some b' /\
    kind b' = ArrayStream /\ parent b' = Some [0].
Proof.
  destruct (end_is_permanent nested_synchronous
              (settle_trace 200 (heap_after nested_synchronous))
              (heap_after nested_synchronous) (after nested_synchronous) [0; 4; 0]
              (mkBuilder ArrayStream (Some [0]) Stream.create [[0; 4; 0; 0]]
                 [[0; 4; 0; 1]; [0; 4; 0; 2]; [0; 4; 0; 3]; [0; 4; 0; 4]; [0; 4; 0; 5];
                  [0; 4; 0; 6]]
                 (Some [0; 4; 0; 0]) true false true 7))
    as (b' & Hb' & Hk & Hp & _).
  - vm_compute; reflexivity.
  - vm_compute; reflexivity.
  - vm_compute; reflexivity.
  - exists b'. split; [exact Hb'|]. split; [exact Hk|exact Hp].
Defined.

(** ** Chaining *)

(** X6.  [object()] and [array()] hand out a builder whose [end()] returns
    the parent of the builder they were called on, not that builder: on a
    [JsonStreamBuilder] with parent [p], both calls return a new builder
    named below it, whose class is that of the call and whose [end()]
    returns [p]. *)
Theorem open_end_returns_parent (σ : gmap Id Builder) (d : Id) (b : Builder) (o : Op) :
  σ !! d = Some b -> kind b = JsonStream -> o = object None \/ o = array None ->
  exists σ1 bc σ2,
    call d o σ = Some (Returned (Some (d ++ [created b])), σ1) /\
    σ1 !! (d ++ [created b]) = Some bc /\
    kind bc = match o with object _ => ObjectStream | _ => ArrayStream end /\
    parent bc = parent b /\
    call (d ++ [created b]) end_ σ1 = Some (Returned (parent b), σ2).
Proof.
  intros Hd Hk Ho.
  assert (d ++ [created b] <> d) as Hne by apply child_not_self.
  destruct Ho as [-> | ->]; unfold call; rewrite Hd, Hk; simpl; run_method.
  - eexists _, _, _. split; [reflexivity|].
    unfold commit; simpl.
    rewrite lookup_insert_ne by done. rewrite lookup_insert_eq.
    split; [reflexivity|]. autorewrite with fields. simpl.
    split; [reflexivity|]. split; [reflexivity|].
    run_method. autorewrite with fields. simpl. reflexivity.
  - eexists _, _, _. split; [reflexivity|].
    unfold commit; simpl.
    rewrite lookup_insert_ne by done. rewrite lookup_insert_eq.
    split; [reflexivity|]. autorewrite with fields. simpl.
    split; [reflexivity|]. split; [reflexivity|].
    run_method. autorewrite with fields. simpl. reflexivity.
Qed.

Lemma open_end_returns_parent_witness :
  exists σ1 bc σ2,
    call [0; 1] (array None)
      (heap_after [Call root (object None); Call [0] (addProperty "sub" None)])
    = Some (Returned (Some ([0; 1] ++ [0])), σ1) /\
    σ1 !! ([0; 1] ++ [0]) = Some bc /\
    kind bc = ArrayStream /\ parent bc = Some [0] /\
    call ([0; 1] ++ [0]) end_ σ1 = Some (Returned (Some [0]), σ2).
Proof.
  refine (open_end_returns_parent
            (heap_after [Call root (object None); Call [0] (addProperty "sub" None)])
            [0; 1] (Builder.create JsonStream (Some [0])) (array None) _ _ _).
  - vm_compute; reflexivity.
  - reflexivity.
  - by right.
Defined.

(** ** A call that throws *)

(** The flag [insertCommaIfNeeded] reads. *)
Definition first_inserted (b : Builder) : bool :=
  match kind b with
  | ObjectStream => firstPropertyInserted b
  | _ => firstItemInserted b
  end.

(** X7.  A call that throws is not undone.  When [addProperty(key, value)]
    or [addItem(value)] fails to encode its value, [insertCommaIfNeeded]
    has already run: on a builder without members the first-member flag
    is set although no member was written, and on a builder with members
    the separator is in the queue although no member follows it. *)
Theorem failed_append_not_undone (σ : gmap Id Builder) (h : Id) (b : Builder) (o : Op)
        (v : JsonValue) :
  σ !! h = Some b -> kind b = ObjectStream \/ kind b = ArrayStream ->
  is_Some (method (kind b) o) -> argument o = Some v -> has_cycle v = true ->
  endScheduled b = false ->
  exists σ' b',
    call h o σ = Some (Thrown, σ') /\ σ' !! h = Some b' /\
    first_inserted b' = true /\
    (first_inserted b = false -> queue b' = queue b /\ current b' = current b) /\
    (first_inserted b = true ->
       children b' (h ++ [created b]) /\
       σ' !! (h ++ [created b]) = Some (leaf (Some h) ",")).
Proof.
  intros Hh Hk [m Hm] Harg Hcyc He.
  apply stringify_cycle in Hcyc.
  assert (h ++ [created b] <> h) as Hne by apply child_not_self.
  assert (h ++ [S (created b)] <> h) as Hne' by apply child_not_self.
  assert (h ++ [S (created b)] <> h ++ [created b]) as Hne''
    by (intros H; apply app_inv_head in H; injection H; lia).
  unfold first_inserted, call. rewrite Hh.
  destruct Hk as [Hk|Hk]; rewrite Hk in *;
    destruct o as [data|[data|]|[data|]| |key [value|]|[value|]];
    simpl in Hm, Harg; try discriminate; injection Harg as ->; simpl.
  - destruct (firstPropertyInserted b) eqn:EP; run_method; rewrite EP, Hcyc; simpl;
      eexists _, _; (split; [reflexivity|]); unfold commit; simpl;
      rewrite lookup_insert_eq; (split; [reflexivity|]);
      autorewrite with fields; simpl; rewrite ?Hk; simpl;
      autorewrite with fields; simpl.
    + rewrite Hk, EP. split; [done|]. split; [done|]. intros _. split.
      * unfold children. simpl. by apply children_addChild.
      * rewrite lookup_insert_ne by done. by rewrite lookup_insert_eq.
    + split; [done|]. split; [|done]. intros _. done.
  - destruct (firstItemInserted b) eqn:EP; run_method; rewrite EP, Hcyc; simpl;
      eexists _, _; (split; [reflexivity|]); unfold commit; simpl;
      rewrite lookup_insert_eq; (split; [reflexivity|]);
      autorewrite with fields; simpl; rewrite ?Hk; simpl;
      autorewrite with fields; simpl.
    + rewrite Hk, EP. split; [done|]. split; [done|]. intros _. split.
      * unfold children. simpl. by apply children_addChild.
      * rewrite lookup_insert_ne by done. by rewrite lookup_insert_eq.
    + split; [done|]. split; [|done]. intros _. done.
Qed.

Definition open_array : Builder :=
  mkBuilder ArrayStream None Stream.create [[0; 0]] [] (Some [0; 0]) false false false 1.

Definition circular_array : JsonValue := JArray [JCircular 0].

Lemma failed_append_not_undone_witness :
  exists σ' b',
    call [0] (addItem (Some circular_array)) (heap_after [Call root (array None)])
    = Some (Thrown, σ') /\
    σ' !! [0] = Some b' /\ first_inserted b' = true /\
    (first_inserted open_array = false ->
       queue b' = queue open_array /\ current b' = current open_array) /\
    (first_inserted open_array = true ->
       children b' ([0] ++ [created open_array]) /\
       σ' !! ([0] ++ [created open_array]) = Some (leaf (Some [0]) ",")).
Proof.
  refine (failed_append_not_undone (heap_after [Call root (array None)]) [0] open_array
            (addItem (Some circular_array)) circular_array _ _ _ _ _ _).
  - vm_compute; reflexivity.
  - by right.
  - by eexists.
  - reflexivity.
  - reflexivity.
  - reflexivity.
Defined.

(** The array of the one item that follows a failed [addItem]: the
    separator comes first, and the collector rejects the text. *)
Example separator_after_failure :
  let t := [ Call root (array None); Call [0] (addItem (Some circular_array));
             Call [0] (addItem (Some (num 1))); Call [0] end_ ] in
  output root (after t) = "[,1]" /\ toJson (after t) = Rejected.
Proof. split; vm_compute; reflexivity. Qed.

(** ** Independence of events *)

(** X8.  Two events of an execution commute unless they are calls on the
    same builder (or the same stream event): if both can happen in a heap
    an execution has reached, each can still happen after the other, and
    both orders lead to the same heap. *)
Theorem events_commute (t : list Event) (σ : gmap Id Builder) (e1 e2 : Event)
        (σa σb : gmap Id Builder) :
  run t createBuilder = Some σ -> key e1 <> key e2 ->
  step e1 σ = Some σa -> step e2 σ = Some σb ->
  exists σc, step e2 σa = Some σc /\ step e1 σb = Some σc.
Proof.
  intros Hrun. apply diamond. exact (run_Inv t _ _ Inv_createBuilder Hrun).
Qed.

Lemma events_commute_witness :
  exists σc,
    step (OnData [] [0])
      (heap_after [Call root (object None); OnData [0] [0; 0]; Call [0] end_]) = Some σc /\
    step (Call [0] end_)
      (heap_after [Call root (object None); OnData [0] [0; 0]; OnData [] [0]]) = Some σc.
Proof.
  refine (events_commute [Call root (object None); OnData [0] [0; 0]]
            (heap_after [Call root (object None); OnData [0] [0; 0]])
            (Call [0] end_) (OnData [] [0]) _ _ _ _ _ _).
  - vm_compute; reflexivity.
  - discriminate.
  - vm_compute; reflexivity.
  - vm_compute; reflexivity.
Defined.

(** X9.  The whole heap is determined by the calls: two executions from
    [createBuilder()] that make the same calls on each builder and run
    until no stream event is left end in the same heap, so every builder,
    not the root alone, holds the same chunks and is closed in the one
    exactly when it is closed in the other. *)
Theorem heap_confluence (t1 t2 : list Event) (σ1 σ2 : gmap Id Builder) (i : Id) :
  run t1 createBuilder = Some σ1 -> run t2 createBuilder = Some σ2 ->
  (forall h, calls_on h t1 = calls_on h t2) ->
  quiescent σ1 -> quiescent σ2 ->
  σ1 !! i = σ2 !! i /\ output i σ1 = output i σ2 /\ closed i σ1 = closed i σ2.
Proof.
  intros H1 H2 Hcalls Q1 Q2.
  by rewrite (confluence t1 t2 createBuilder σ1 σ2 Inv_createBuilder H1 H2 Hcalls Q1 Q2).
Qed.

Lemma heap_confluence_witness :
  after nested_synchronous !! [0; 4; 0] = after nested_unordered !! [0; 4; 0].
Proof.
  refine (proj1 (heap_confluence (finish nested_synchronous) (finish nested_unordered)
                   (after nested_synchronous) (after nested_unordered) [0; 4; 0]
                   _ _ _ _ _)).
  - vm_compute; reflexivity.
  - vm_compute; reflexivity.
  - compare_calls.
  - apply ready_nil_quiescent. vm_compute; reflexivity.
  - apply ready_nil_quiescent. vm_compute; reflexivity.
Defined.

(* ================================================================== *)
(** * The text of a finished document *)
(* ================================================================== *)

(** ** What a builder has still to emit *)

(** The children of a builder in the order in which their text is due:
    the one being piped, then the queue. *)
Definition kids (b : Builder) : list Id := active b ++ queue b.

(** Nothing can be added to the text of the builder any more. *)
Definition sealed (b : Builder) : Prop :=
  match kind b with
  | ValueStream => ended (stream b) = true
  | _ => endScheduled b = true
  end.

(** [emits n σ i chunks]: the builder [i] and all builders below it, down
    to depth [n], are sealed, and [chunks] is what the stream of [i] holds
    followed by what it is still to receive from its children. *)
Fixpoint emits (n : nat) (σ : gmap Id Builder) (i : Id) (chunks : list string) : Prop :=
  match n with
  | O => False
  | S n =>
      exists b css,
        σ !! i = Some b /\ sealed b /\ NoDup (kids b) /\
        Forall2 (emits n σ) (kids b) css /\
        chunks = buffer (stream b) ++ List.concat css
  end.

Definition Emits (σ : gmap Id Builder) (i : Id) (chunks : list string) : Prop :=
  exists n, emits n σ i chunks.

Lemma emits_mono n : forall m σ i chunks,
  n <= m -> emits n σ i chunks -> emits m σ i chunks.
Proof.
  induction n as [|n IH]; intros m σ i chunks Hle H; [done|].
  destruct m as [|m]; [lia|]. simpl in *.
  destruct H as (b & css & Hb & Hs & Hnd & Hall & ->).
  exists b, css. split_and!; try done.
  eapply Forall2_impl; [exact Hall|]. intros c cs Hc. apply (IH m); [lia|done].
Qed.

Lemma Forall2_Emits σ l css :
  Forall2 (Emits σ) l css -> exists n, Forall2 (emits n σ) l css.
Proof.
  induction 1 as [|c cs l css [n Hn] _ [m IH]].
  - exists 0. constructor.
  - exists (n `max` m). constructor.
    + apply (emits_mono n); [lia|done].
    + eapply Forall2_impl; [exact IH|]. intros ? ? ?. apply (emits_mono m); [lia|done].
Qed.

Lemma Emits_intro σ i b css :
  σ !! i = Some b -> sealed b -> NoDup (kids b) ->
  Forall2 (Emits σ) (kids b) css ->
  Emits σ i (buffer (stream b) ++ List.concat css).
Proof.
  intros Hb Hs Hnd Hall. destruct (Forall2_Emits _ _ _ Hall) as [n Hn].
  exists (S n). simpl. by exists b, css.
Qed.

Lemma Emits_inv σ i chunks :
  Emits σ i chunks ->
  exists b css, σ !! i = Some b /\ sealed b /\ NoDup (kids b) /\
    Forall2 (Emits σ) (kids b) css /\ chunks = buffer (stream b) ++ List.concat css.
Proof.
  intros [[|n] H]; [done|]. simpl in H.
  destruct H as (b & css & Hb & Hs & Hnd & Hall & ->).
  exists b, css. split_and!; try done.
  eapply Forall2_impl; [exact Hall|]. intros c cs Hc. by exists n.
Qed.

Lemma kids_children b c : c ∈ kids b <-> children b c.
Proof.
  unfold kids, children, active. destruct (current b) as [x|]; simpl.
  - rewrite elem_of_cons. split; intros [H|H]; auto.
    + right. by subst.
    + left. by injection H.
  - split; [auto|]. by intros [H|H].
Qed.

Lemma kid_name σ i b c :
  Inv σ -> σ !! i = Some b -> c ∈ kids b -> exists k, c = i ++ [k].
Proof.
  intros HInv Hb Hc. apply kids_children in Hc.
  by destruct (inv_kids _ HInv i b c Hb Hc) as [Hk _].
Qed.

Lemma Forall2_impl_elem {A B} (P Q : A -> B -> Prop) (l : list A) (k : list B) :
  Forall2 P l k -> (forall x y, x ∈ l -> P x y -> Q x y) -> Forall2 Q l k.
Proof.
  induction 1 as [|x y l k Hxy _ IH]; intros HPQ; constructor.
  - apply HPQ; [by left|done].
  - apply IH. intros x' y' Hin. apply HPQ. by right.
Qed.

(** What is below a builder is all that matters. *)
Lemma emits_frame n : forall σ σ' i chunks,
  Inv σ -> (forall j, i `prefix_of` j -> σ' !! j = σ !! j) ->
  emits n σ i chunks -> emits n σ' i chunks.
Proof.
  induction n as [|n IH]; intros σ σ' i chunks HInv Hsame H; [done|]. simpl in *.
  destruct H as (b & css & Hb & Hs & Hnd & Hall & ->).
  exists b, css. split_and!; try done.
  - by rewrite Hsame.
  - eapply Forall2_impl_elem; [exact Hall|]. intros c cs Hc Hcs.
    destruct (kid_name σ i b c HInv Hb Hc) as [k ->].
    apply (IH σ); [done| |done].
    intros j Hj. apply Hsame. by apply prefix_app_l in Hj.
Qed.

#[global] Instance Kind_eq_dec : EqDecision Kind.
Proof. solve_decision. Defined.

Lemma sealed_same b b' :
  kind b' = kind b -> endScheduled b' = endScheduled b ->
  ended (stream b') = ended (stream b) -> sealed b -> sealed b'.
Proof. unfold sealed. intros -> -> ->. done. Qed.

Lemma ended_no_kids b : good b -> ended (stream b) = true -> kids b = [].
Proof.
  intros Hg He. unfold kids, active.
  assert (current b = None) as Hc.
  { destruct (decide (kind b = ValueStream)) as [Hk|Hk].
    - by apply (good_leaf b Hg).
    - by apply (good_closed b Hg Hk). }
  rewrite Hc. simpl. by apply (good_queue b Hg).
Qed.

Lemma kids_onChildEnd c b :
  current b = Some c -> kids (Builder.onChildEnd c b) = queue b.
Proof.
  intros Hc. unfold kids, active. split_fields b.
  destruct q as [|y q]; simpl; [by destruct es|done].
Qed.

(** A chunk that is forwarded stays in the text of every builder but the
    one it leaves. *)
Lemma emits_data n : forall σ p c bp bc x rest i chunks,
  Inv σ -> σ !! p = Some bp -> σ !! c = Some bc -> c ∈ pipes bp ->
  buffer (stream bc) = x :: rest -> i <> c ->
  emits n σ i chunks ->
  emits n (<[p := set_stream (Stream.push x) bp]> (<[c := set_stream Stream.shift bc]> σ))
    i chunks.
Proof.
  induction n as [|n IH]; intros σ p c bp bc x rest i chunks HInv Hp Hc Hin Hbuf Hic H;
    [done|].
  destruct (piped_child _ _ _ _ HInv Hp Hin) as (Hcur & _ & _ & _ & [k Hck] & Hpc).
  simpl in H. destruct H as (b & css & Hb & Hs & Hnd & Hall & ->).
  destruct (decide (i = p)) as [->|Hip].
  - assert (b = bp) as -> by congruence.
    assert (kids bp = c :: queue bp) as Hkids by (unfold kids, active; by rewrite Hcur).
    rewrite Hkids in Hall, Hnd.
    apply Forall2_cons_inv_l in Hall as (cs & css' & Hcs & Hall & ->).
    apply NoDup_cons in Hnd as [Hnotin Hnd'].
    destruct n as [|n]; [done|]. simpl in Hcs.
    destruct Hcs as (bc' & cssc & Hbc' & Hsc & Hndc & Hallc & ->).
    assert (bc' = bc) as -> by congruence.
    simpl. exists (set_stream (Stream.push x) bp), ((rest ++ List.concat cssc) :: css').
    split_and!.
    + apply lookup_insert_eq.
    + by apply (sealed_same bp).
    + change (kids (set_stream (Stream.push x) bp)) with (kids bp).
      rewrite Hkids. by apply NoDup_cons.
    + change (kids (set_stream (Stream.push x) bp)) with (kids bp). rewrite Hkids.
      constructor.
      * exists (set_stream Stream.shift bc), cssc. split_and!.
        -- rewrite lookup_insert_ne by done. apply lookup_insert_eq.
        -- by apply (sealed_same bc).
        -- done.
        -- change (kids (set_stream Stream.shift bc)) with (kids bc).
           eapply Forall2_impl_elem; [exact Hallc|]. intros cc cs Hcc Hcs.
           destruct (kid_name σ c bc cc HInv Hc Hcc) as [k' ->].
           apply (emits_frame n σ); [done| |done].
           intros j Hj.
           assert (j <> p).
           { intros ->. destruct Hj as [r Hr]. subst c.
             rewrite <- !app_assoc in Hr. symmetry in Hr. by apply name_not_self in Hr. }
           assert (j <> c).
           { intros ->. destruct Hj as [r Hr].
             rewrite <- !app_assoc in Hr. symmetry in Hr. by apply name_not_self in Hr. }
           by rewrite !lookup_insert_ne.
        -- simpl. by rewrite Hbuf.
      * eapply Forall2_impl_elem; [exact Hall|]. intros q' cs Hq Hcs.
        apply (IH σ p c bp bc x rest); try done. intros ->. done.
    + simpl. rewrite Hbuf. simpl. by rewrite <- !app_assoc.
  - simpl. exists b, css. split_and!; try done.
    + by rewrite !lookup_insert_ne.
    + eapply Forall2_impl_elem; [exact Hall|]. intros j cs Hj Hcs.
      apply (IH σ p c bp bc x rest); try done.
      intros ->. destruct (kid_name σ i b c HInv Hb Hj) as [k' Hk'].
      rewrite Hck in Hk'. apply app_inj_tail in Hk' as [-> _]. done.
Qed.

(** The end of a child takes nothing from the text. *)
Lemma emits_end n : forall σ p c bp bc i chunks,
  Inv σ -> σ !! p = Some bp -> σ !! c = Some bc -> c ∈ pipes bp ->
  Stream.finished (stream bc) = true ->
  emits n σ i chunks ->
  emits n (<[p := Builder.onChildEnd c bp]> σ) i chunks.
Proof.
  induction n as [|n IH]; intros σ p c bp bc i chunks HInv Hp Hc Hin Hfin H; [done|].
  destruct (piped_child _ _ _ _ HInv Hp Hin) as (Hcur & _ & _ & Hkp & [k Hck] & Hpc).
  simpl in H. destruct H as (b & css & Hb & Hs & Hnd & Hall & ->).
  destruct (decide (i = p)) as [->|Hip].
  - assert (b = bp) as -> by congruence.
    assert (kids bp = c :: queue bp) as Hkids by (unfold kids, active; by rewrite Hcur).
    rewrite Hkids in Hall, Hnd.
    apply Forall2_cons_inv_l in Hall as (cs & css' & Hcs & Hall & ->).
    apply NoDup_cons in Hnd as [Hnotin Hnd'].
    destruct n as [|n]; [done|]. simpl in Hcs.
    destruct Hcs as (bc' & cssc & Hbc' & Hsc & Hndc & Hallc & ->).
    assert (bc' = bc) as -> by congruence.
    rewrite (ended_no_kids bc (inv_good _ HInv _ _ Hc) (finished_ended _ Hfin)) in Hallc.
    apply Forall2_nil_inv_l in Hallc as ->.
    rewrite (finished_buffer _ Hfin). simpl.
    destruct (onChildEnd_fields c bp) as [(Hk & _ & _ & _ & _ & Hbuf & _) He].
    exists (Builder.onChildEnd c bp), css'. split_and!.
    + apply lookup_insert_eq.
    + unfold sealed in *. rewrite Hk, He. by destruct (kind bp).
    + by rewrite kids_onChildEnd.
    + rewrite kids_onChildEnd by done.
      eapply Forall2_impl; [exact Hall|]. intros q' cs Hcs.
      by apply (IH σ p c bp bc).
    + by rewrite Hbuf.
  - simpl. exists b, css. split_and!; try done.
    + by rewrite lookup_insert_ne.
    + eapply Forall2_impl; [exact Hall|]. intros j cs Hcs. by apply (IH σ p c bp bc).
Qed.

(** A call cannot add to what is sealed. *)
Lemma emits_call n : forall σ h o σ' i chunks,
  Inv σ -> step (Call h o) σ = Some σ' ->
  emits n σ i chunks -> emits n σ' i chunks.
Proof.
  induction n as [|n IH]; intros σ h o σ' i chunks HInv Hstep H; [done|].
  pose proof Hstep as Hstep'.
  apply step_call_inv in Hstep'
    as (bh & m & acts & news & r & c1 & Hh & Hm & Hk & Hrun & Hplan & _ & ->).
  simpl in H. destruct H as (b & css & Hb & Hs & Hnd & Hall & ->).
  assert (Forall2 (emits n (<[h := perform acts bh]> (list_to_map news ∪ σ))) (kids b) css)
    as Hall'.
  { eapply Forall2_impl; [exact Hall|]. intros c cs Hcs. by apply (IH σ h o). }
  destruct (decide (i = h)) as [->|Hne].
  - assert (b = bh) as -> by congruence.
    assert (endScheduled bh = true) as He.
    { unfold sealed in Hs. by destruct (kind bh). }
    destruct (perform_after_end acts bh (inv_good _ HInv _ _ Hh) Hk He)
      as (Hst & Hq & Hc & _ & He').
    assert (kids (perform acts bh) = kids bh) as Hkids
      by (unfold kids, active; by rewrite Hq, Hc).
    simpl. exists (perform acts bh), css. split_and!.
    + apply lookup_insert_eq.
    + unfold sealed. rewrite kind_perform, He'. by destruct (kind bh).
    + by rewrite Hkids.
    + by rewrite Hkids.
    + by rewrite Hst.
  - simpl. exists b, css. split_and!; try done.
    rewrite lookup_insert_ne by done. rewrite lookup_union_r; [done|].
    apply (news_absent σ h bh c1 acts news i HInv Hh Hplan). by eexists.
Qed.

Lemma emits_step n e σ σ' chunks :
  Inv σ -> step e σ = Some σ' ->
  emits n σ root chunks -> emits n σ' root chunks.
Proof.
  intros HInv Hstep H. destruct e as [h o|p c|p c].
  - by apply (emits_call n σ h o).
  - apply step_data_inv in Hstep as (bp & bc & x & rest & Hp & Hc & Hin & Hb & ->).
    destruct (piped_child _ _ _ _ HInv Hp Hin) as (_ & _ & Hne & _ & [k Hck] & _).
    rewrite write_push by done.
    apply (emits_data n σ p c bp bc x rest); try done.
    rewrite Hck. unfold root. by destruct p.
  - apply step_end_inv in Hstep as (bp & bc & Hp & Hc & Hin & Hf & ->).
    by apply (emits_end n σ p c bp bc).
Qed.

Lemma emits_run n t : forall σ σ' chunks,
  Inv σ -> run t σ = Some σ' ->
  emits n σ root chunks -> emits n σ' root chunks.
Proof.
  induction t as [|e t IH]; intros σ σ' chunks HInv Hrun H; simpl in Hrun.
  - by injection Hrun as <-.
  - destruct (step e σ) as [σ1|] eqn:Hs; [|done].
    apply (IH σ1); try done; [eapply step_Inv; eauto|].
    by apply (emits_step n e σ).
Qed.

(** When no stream event is left, all the text is in the stream. *)
Lemma emits_quiescent n : forall σ i chunks,
  Inv σ -> quiescent σ -> emits n σ i chunks ->
  exists b, σ !! i = Some b /\ kids b = [] /\ ended (stream b) = true /\
            chunks = buffer (stream b).
Proof.
  induction n as [|n IH]; intros σ i chunks HInv Hq H; [done|].
  simpl in H. destruct H as (b & css & Hb & Hs & Hnd & Hall & ->).
  pose proof (inv_good _ HInv _ _ Hb) as Hg.
  assert (current b = None) as Hcur.
  { destruct (current b) as [c|] eqn:Hcur; [|done]. exfalso.
    assert (kids b = c :: queue b) as Hkids by (unfold kids, active; by rewrite Hcur).
    rewrite Hkids in Hall.
    apply Forall2_cons_inv_l in Hall as (cs & css' & Hcs & _ & _).
    destruct (IH σ c cs HInv Hq Hcs) as (bc & Hc & _ & Hec & _).
    assert (c ∈ pipes b) as Hin.
    { rewrite (good_pipes b Hg). unfold active. rewrite Hcur. by left. }
    destruct (Hq i c) as [Hd He].
    destruct (buffer (stream bc)) as [|x rest] eqn:Hbuf.
    - rewrite (step_end_intro i c σ b bc) in He; try done.
      unfold Stream.finished. by rewrite Hbuf.
    - by rewrite (step_data_intro i c σ b bc x rest) in Hd. }
  assert (kids b = []) as Hkids.
  { unfold kids, active. rewrite Hcur. simpl. by apply (good_queue b Hg). }
  rewrite Hkids in Hall. apply Forall2_nil_inv_l in Hall as ->.
  exists b. split_and!; try done; [|by rewrite app_nil_r].
  unfold sealed in Hs. destruct (decide (kind b = ValueStream)) as [Hk|Hk].
  - by rewrite Hk in Hs.
  - apply (good_closed b Hg Hk). split; [|done]. by destruct (kind b).
Qed.

(** X10.  A finished document is final.  Once the root builder and all
    builders below it are sealed (end requested, value builders written),
    with [chunks] the text the root stream holds or is still to receive,
    no later event changes that: whatever calls and stream events follow,
    the same text is due, and in every heap in which no stream event is
    left the root stream holds exactly that text and has ended. *)
Theorem finished_document_is_final (t t' : list Event) (σ σ' : gmap Id Builder)
        (chunks : list string) :
  run t createBuilder = Some σ -> Emits σ root chunks -> run t' σ = Some σ' ->
  Emits σ' root chunks /\
  (quiescent σ' -> output root σ' = String.concat "" chunks /\ closed root σ' = true).
Proof.
  intros Hrun [n H] Hrun'.
  pose proof (run_Inv t _ _ Inv_createBuilder Hrun) as HInv.
  pose proof (run_Inv t' _ _ HInv Hrun') as HInv'.
  pose proof (emits_run n t' σ σ' chunks HInv Hrun' H) as H'.
  split; [by exists n|]. intros Hq.
  destruct (emits_quiescent n σ' root chunks HInv' Hq H') as (b & Hb & _ & He & ->).
  unfold output, closed. by rewrite Hb.
Qed.

Lemma finished_document_is_final_witness :
  Emits (after [Call root (primitive (PBool true))]) root ["true"] /\
  (quiescent (after [Call root (primitive (PBool true))]) ->
   output root (after [Call root (primitive (PBool true))]) = String.concat "" ["true"] /\
   closed root (after [Call root (primitive (PBool true))]) = true).
Proof.
  refine (finished_document_is_final [Call root (primitive (PBool true))]
            (settle_trace 200 (heap_after [Call root (primitive (PBool true))]))
            (heap_after [Call root (primitive (PBool true))])
            (after [Call root (primitive (PBool true))]) ["true"] _ _ _).
  - vm_compute; reflexivity.
  - exists 2. cbn [emits].
    exists (mkBuilder JsonStream None Stream.create [[0]] [] (Some [0]) true false false 1),
      [["true"]].
    split_and!.
    + vm_compute; reflexivity.
    + reflexivity.
    + apply NoDup_singleton.
    + apply Forall2_cons; split; [|apply Forall2_nil_2].
      exists (leaf None "true"), []. split_and!.
      * vm_compute; reflexivity.
      * reflexivity.
      * apply NoDup_nil_2.
      * apply Forall2_nil_2.
      * reflexivity.
    + reflexivity.
  - vm_compute; reflexivity.
Defined.

(* ================================================================== *)
(** * The property tests *)
(* ================================================================== *)

(** ** [walkAndRecreateUsingBuilder]

    The test reads a JSON value member by member and rebuilds it with the
    builder.  For each member the generator [g] decides whether the member
    is added in one piece or rebuilt through a child builder. *)

(** The run of a test: how many values were drawn from the generator, the
    calls made so far, and the heap. *)
Record Run := mkRun {
  drawn : nat;
  trace : list Event;
  heap : gmap Id Builder;
}.

(** [g(fc.boolean)] *)
Definition draw (g : nat -> bool) (s : Run) : bool * Run :=
  (g (drawn s), mkRun (S (drawn s)) (trace s) (heap s)).

(** A call [builder.o(...)] made by the test.  The test ends ([None]) when
    the call throws or [builder] is [null]. *)
Definition invoke (builder : option Id) (o : Op) (s : Run) : option (option Id * Run) :=
  match builder with
  | Some h =>
      match call h o (heap s) with
      | Some (Returned r, σ) => Some (r, mkRun (drawn s) (trace s ++ [Call h o]) σ)
      | _ => None
      end
  | None => None
  end.

(** [list.reduce(f, acc)] *)
Definition reduce {A} (f : option Id -> A -> Run -> option (option Id * Run))
  : list A -> option Id -> Run -> option (option Id * Run) :=
  fix go (l : list A) (acc : option Id) (s : Run) :=
    match l with
    | [] => Some (acc, s)
    | x :: rest =>
        match f acc x s with
        | Some (acc', s') => go rest acc' s'
        | None => None
        end
    end.

(** On a circular structure the walk of the test does not come to an end;
    [None] stands for that as well. *)
Fixpoint walkAndRecreateUsingBuilder (g : nat -> bool) (value : JsonValue)
    (builder : option Id) (s : Run) : option (option Id * Run) :=
  match value with
  | JPrim p => invoke builder (primitive p) s
  | JArray items =>
      match invoke builder (array None) s with
      | Some (acc, s) =>
          match reduce
                  (fun acc value s =>
                     let '(direct, s) := draw g s in
                     if direct then invoke acc (addItem (Some value)) s
                     else
                       match invoke acc (addItem None) s with
                       | Some (child, s) => walkAndRecreateUsingBuilder g value child s
                       | None => None
                       end)
                  items acc s with
          | Some (acc, s) => invoke acc end_ s
          | None => None
          end
      | None => None
      end
  | JObject props =>
      match invoke builder (object None) s with
      | Some (acc, s) =>
          match reduce
                  (fun acc kv s =>
                     let '(direct, s) := draw g s in
                     if direct then invoke acc (addProperty kv.1 (Some kv.2)) s
                     else
                       match invoke acc (addProperty kv.1 None) s with
                       | Some (child, s) => walkAndRecreateUsingBuilder g kv.2 child s
                       | None => None
                       end)
                  props acc s with
          | Some (acc, s) => invoke acc end_ s
          | None => None
          end
      | None => None
      end
  | JCircular _ => None
  end.

(** ** Strings *)

Lemma append_assoc (s1 s2 s3 : string) : (s1 +:+ s2) +:+ s3 = s1 +:+ (s2 +:+ s3).
Proof.
  induction s1 as [|c s1 IH]; [reflexivity|].
  change (String c ((s1 +:+ s2) +:+ s3) = String c (s1 +:+ (s2 +:+ s3))). by rewrite IH.
Qed.

Lemma append_nil_r (s : string) : s +:+ "" = s.
Proof.
  induction s as [|c s IH]; [reflexivity|].
  change (String c (s +:+ "") = String c s). by rewrite IH.
Qed.

Lemma append_nil_l (s : string) : "" +:+ s = s.
Proof. reflexivity. Qed.

Ltac string_norm := rewrite ?append_assoc, ?append_nil_l, ?append_nil_r.

Lemma concat_cons_nil (s : string) (l : list string) :
  String.concat "" (s :: l) = s +:+ String.concat "" l.
Proof. destruct l; simpl; [by rewrite append_nil_r|done]. Qed.

Lemma concat_app_nil (l1 l2 : list string) :
  String.concat "" (l1 ++ l2) = String.concat "" l1 +:+ String.concat "" l2.
Proof.
  induction l1 as [|s l1 IH]; [done|].
  rewrite <- app_comm_cons, !concat_cons_nil, IH. by rewrite append_assoc.
Qed.

(** The members of an array or object with their separators; [started]
    tells whether a member came before. *)
Fixpoint sep_join (started : bool) (texts : list string) : string :=
  match texts with
  | [] => ""
  | t :: rest => (if started then "," else "") +:+ t +:+ sep_join true rest
  end.

Lemma join_sep_join (t : string) (texts : list string) :
  JSON.join "," (t :: texts) = t +:+ sep_join true texts.
Proof.
  revert t. induction texts as [|t' texts IH]; intros t.
  - simpl. by rewrite append_nil_r.
  - change (JSON.join "," (t :: t' :: texts)) with (t +:+ "," +:+ JSON.join "," (t' :: texts)).
    by rewrite IH.
Qed.

Lemma sep_join_false (texts : list string) : sep_join false texts = JSON.join "," texts.
Proof. destruct texts as [|t texts]; [done|]. by rewrite join_sep_join. Qed.

(** ** Builders that are being filled *)

(** An object or array builder after its constructor, with the children
    [q] behind the opening bracket, before its [end()]. *)
Definition opened (k : Kind) (a : Id) (p : option Id) (q : list Id) (started : bool)
    (cr : nat) : Builder :=
  mkBuilder k p Stream.create [a ++ [0]] q (Some (a ++ [0])) false
    (match k with ObjectStream => started | _ => false end)
    (match k with ArrayStream => started | _ => false end) cr.

(** The same after [end()]. *)
Definition ended_builder (k : Kind) (a : Id) (p : option Id) (q : list Id) (started : bool)
    (cr : nat) : Builder :=
  set_endScheduled true (opened k a p q started cr).

(** A [JsonStreamBuilder] after its one call, with the child [c]. *)
Definition wrapper (p : option Id) (c : Id) : Builder :=
  mkBuilder JsonStream p Stream.create [c] [] (Some c) true false false 1.

Ltac ne_names :=
  let H := fresh in
  intros H;
  first [ by apply child_not_self in H
        | by (symmetry in H; apply child_not_self in H)
        | by (apply app_inv_head in H; injection H; lia)
        | by (rewrite <- ?app_assoc in H; simpl in H; apply name_not_self in H)
        | by (symmetry in H; rewrite <- ?app_assoc in H; simpl in H;
              apply name_not_self in H) ].

Ltac base_compute :=
  cbv [Builder.addChildBuilder Builder.consumeChildBuilder Builder.scheduleEnd
       set_queue set_current set_created set_pipes set_endScheduled set_stream
       set_firstItemInserted set_firstPropertyInserted
       kind parent stream pipes queue current endScheduled firstPropertyInserted
       firstItemInserted created head tail Stream.end_ Stream.push Stream.create
       buffer ended errored Builder.create opened ended_builder wrapper leaf].

Lemma Emits_leaf σ l p data : σ !! l = Some (leaf p data) -> Emits σ l [data].
Proof.
  intros H. exists 1. simpl. exists (leaf p data), [].
  split_and!; [done|reflexivity|apply NoDup_nil_2|constructor|reflexivity].
Qed.

Lemma emits_calls n t : forall σ σ' i chunks,
  Inv σ -> Forall (fun e => is_call e = true) t -> run t σ = Some σ' ->
  emits n σ i chunks -> emits n σ' i chunks.
Proof.
  induction t as [|e t IH]; intros σ σ' i chunks HInv Hall Hrun H; simpl in Hrun.
  - by injection Hrun as <-.
  - destruct (step e σ) as [σ1|] eqn:Hs; [|done].
    apply Forall_cons in Hall as [He Hall].
    apply (IH σ1); try done; [eapply step_Inv; eauto|].
    destruct e as [h o|p c|p c]; try done. by apply (emits_call n σ h o).
Qed.

Lemma Emits_calls t σ σ' i chunks :
  Inv σ -> Forall (fun e => is_call e = true) t -> run t σ = Some σ' ->
  Emits σ i chunks -> Emits σ' i chunks.
Proof. intros HInv Hall Hrun [n H]. exists n. by apply (emits_calls n t σ). Qed.

Lemma Emits_call h o r σ σ' i chunks :
  Inv σ -> call h o σ = Some (r, σ') -> Emits σ i chunks -> Emits σ' i chunks.
Proof.
  intros HInv Hcall [n H]. exists n. apply (emits_call n σ h o); [done| |done].
  simpl. by rewrite Hcall.
Qed.

Lemma Emits_is_Some σ i chunks : Emits σ i chunks -> is_Some (σ !! i).
Proof. intros H. apply Emits_inv in H as (b & _ & Hb & _). by eexists. Qed.

(** A call on [h] leaves alone what is not below [d], when [h] is. *)
Lemma call_frame σ h o r σ' d :
  Inv σ -> call h o σ = Some (r, σ') -> d `prefix_of` h ->
  forall i, ~ d `prefix_of` i -> σ' !! i = σ !! i.
Proof.
  intros HInv Hcall Hd i Hi.
  assert (step (Call h o) σ = Some σ') as Hstep by (simpl; by rewrite Hcall).
  apply step_call_inv in Hstep
    as (b & m & acts & news & r' & c1 & Hh & Hm & Hk & Hrun' & Hplan & _ & ->).
  assert (i <> h) as Hne by (intros ->; done).
  rewrite lookup_insert_ne by done.
  rewrite lookup_union_r; [done|]. apply not_elem_of_list_to_map.
  intros Hin. apply list_elem_of_fmap in Hin as ([j bj] & -> & Hin). simpl in Hi.
  destruct (plan_names _ _ _ _ _ Hplan j bj Hin) as (k & rest & -> & _).
  apply Hi. by apply prefix_app_r.
Qed.

Lemma call_Inv' h o r σ σ' : Inv σ -> call h o σ = Some (r, σ') -> Inv σ'.
Proof. intros HInv Hcall. apply (step_Inv (Call h o) σ); [done|]. simpl. by rewrite Hcall. Qed.

(** The children of a builder that is being filled have names below its
    counter. *)
Lemma opened_names σ k a p q started cr c :
  Inv σ -> σ !! a = Some (opened k a p q started cr) -> c ∈ (a ++ [0]) :: q ->
  exists j, c = a ++ [j] /\ j < cr.
Proof.
  intros HInv Ha Hc.
  assert (children (opened k a p q started cr) c) as Hch.
  { apply elem_of_cons in Hc as [->|Hc]; [by right|by left]. }
  destruct (inv_kids _ HInv a _ c Ha Hch) as [[j ->] Hsome].
  exists j. split; [done|].
  exact (inv_names _ HInv a _ j [] Ha Hsome).
Qed.

(** ** What the calls of the walk do *)

(** The children [news] a call has added to the builder [a], whose counter
    was [cr], with their texts. *)
Definition added (σ : gmap Id Builder) (a : Id) (cr : nat) (news : list Id)
    (css : list (list string)) : Prop :=
  Forall2 (Emits σ) news css /\ NoDup news /\
  Forall (fun l => exists k, l = a ++ [k] /\ cr <= k) news.

Ltac run_call H :=
  unfold call; rewrite H; simpl; run_method.

Ltac added_leaves :=
  split_and!;
  [ repeat (apply Forall2_cons; split;
            [eapply Emits_leaf;
             repeat (first [apply lookup_insert_eq | rewrite lookup_insert_ne by ne_names])|]);
    apply Forall2_nil_2
  | repeat (apply NoDup_cons; split;
            [rewrite ?not_elem_of_cons; split_and?;
             first [ne_names | apply not_elem_of_nil]|]);
    apply NoDup_nil_2
  | repeat (apply Forall_cons; split; [eexists; split; [reflexivity|lia]|]);
    apply Forall_nil_2 ].

Lemma addItem_value σ a p q started cr x s :
  σ !! a = Some (opened ArrayStream a p q started cr) -> JSON.stringify x = Some s ->
  exists σ' news css cr',
    call a (addItem (Some x)) σ = Some (Returned (Some a), σ') /\
    σ' !! a = Some (opened ArrayStream a p (q ++ news) true cr') /\
    added σ' a cr news css /\
    String.concat "" (List.concat css) = (if started then "," else "") +:+ "" +:+ s.
Proof.
  intros Ha Hs. destruct started; run_call Ha; rewrite Hs; simpl.
  - eexists _, [a ++ [cr]; a ++ [S cr]], [[","]; [s]], (S (S cr)).
    split; [reflexivity|]. unfold commit; simpl. split_and!.
    + rewrite lookup_insert_eq. base_compute. by rewrite <- app_assoc.
    + added_leaves.
    + reflexivity.
  - eexists _, [a ++ [cr]], [[s]], (S cr).
    split; [reflexivity|]. unfold commit; simpl. split_and!.
    + rewrite lookup_insert_eq. reflexivity.
    + added_leaves.
    + reflexivity.
Qed.

Lemma addItem_open σ a p q started cr :
  σ !! a = Some (opened ArrayStream a p q started cr) ->
  exists σ' news css cr' j,
    call a (addItem None) σ = Some (Returned (Some j), σ') /\
    σ' !! a = Some (opened ArrayStream a p (q ++ news ++ [j]) true cr') /\
    σ' !! j = Some (Builder.create JsonStream (Some a)) /\
    added σ' a cr news css /\ (exists k, j = a ++ [k] /\ cr <= k) /\ (j ∉ news) /\
    String.concat "" (List.concat css) = (if started then "," else "") +:+ "".
Proof.
  intros Ha. destruct started; run_call Ha.
  - eexists _, [a ++ [S cr]], [[","]], (S (S cr)), (a ++ [cr]).
    split; [reflexivity|]. unfold commit; simpl. split_and!.
    + rewrite lookup_insert_eq. base_compute. by rewrite <- app_assoc.
    + rewrite lookup_insert_ne by ne_names. apply lookup_insert_eq.
    + added_leaves.
    + eexists. split; [reflexivity|lia].
    + rewrite not_elem_of_cons. split; [ne_names|apply not_elem_of_nil].
    + reflexivity.
  - eexists _, [], [], (S cr), (a ++ [cr]).
    split; [reflexivity|]. unfold commit; simpl. split_and!.
    + rewrite lookup_insert_eq. reflexivity.
    + rewrite lookup_insert_ne by ne_names. apply lookup_insert_eq.
    + added_leaves.
    + eexists. split; [reflexivity|lia].
    + apply not_elem_of_nil.
    + reflexivity.
Qed.

Lemma addProperty_value σ a p q started cr (kv : string * JsonValue) s :
  σ !! a = Some (opened ObjectStream a p q started cr) -> JSON.stringify kv.2 = Some s ->
  exists σ' news css cr',
    call a (addProperty kv.1 (Some kv.2)) σ = Some (Returned (Some a), σ') /\
    σ' !! a = Some (opened ObjectStream a p (q ++ news) true cr') /\
    added σ' a cr news css /\
    String.concat "" (List.concat css)
    = (if started then "," else "") +:+ (String JSON.dquote kv.1 +:+ String JSON.dquote ":")
      +:+ s.
Proof.
  intros Ha Hs. destruct started; run_call Ha; rewrite Hs; simpl.
  - eexists _, [a ++ [cr]; a ++ [S cr]], [[","]; [_]], (S (S cr)).
    split; [reflexivity|]. unfold commit; simpl. split_and!.
    + rewrite lookup_insert_eq. base_compute. by rewrite <- app_assoc.
    + added_leaves.
    + cbn [List.concat app String.concat]. by string_norm.
  - eexists _, [a ++ [cr]], [[_]], (S cr).
    split; [reflexivity|]. unfold commit; simpl. split_and!.
    + rewrite lookup_insert_eq. reflexivity.
    + added_leaves.
    + cbn [List.concat app String.concat]. by string_norm.
Qed.

Lemma addProperty_open σ a p q started cr (kv : string * JsonValue) :
  σ !! a = Some (opened ObjectStream a p q started cr) ->
  exists σ' news css cr' j,
    call a (addProperty kv.1 None) σ = Some (Returned (Some j), σ') /\
    σ' !! a = Some (opened ObjectStream a p (q ++ news ++ [j]) true cr') /\
    σ' !! j = Some (Builder.create JsonStream (Some a)) /\
    added σ' a cr news css /\ (exists k, j = a ++ [k] /\ cr <= k) /\ (j ∉ news) /\
    String.concat "" (List.concat css)
    = (if started then "," else "") +:+ (String JSON.dquote kv.1 +:+ String JSON.dquote ":").
Proof.
  intros Ha. destruct started; run_call Ha.
  - eexists _, [a ++ [S cr]; a ++ [S (S cr)]], [[","]; [_]], (S (S (S cr))), (a ++ [cr]).
    split; [reflexivity|]. unfold commit; simpl. split_and!.
    + rewrite lookup_insert_eq. base_compute. by rewrite <- !app_assoc.
    + rewrite lookup_insert_ne by ne_names. apply lookup_insert_eq.
    + added_leaves.
    + eexists. split; [reflexivity|lia].
    + rewrite !not_elem_of_cons. split_and!; [ne_names..|apply not_elem_of_nil].
    + cbn [List.concat app String.concat]. by string_norm.
  - eexists _, [a ++ [S cr]], [[_]], (S (S cr)), (a ++ [cr]).
    split; [reflexivity|]. unfold commit; simpl. split_and!.
    + rewrite lookup_insert_eq. base_compute. by rewrite <- !app_assoc.
    + rewrite lookup_insert_ne by ne_names. apply lookup_insert_eq.
    + added_leaves.
    + eexists. split; [reflexivity|lia].
    + rewrite !not_elem_of_cons. split_and!; [ne_names..|apply not_elem_of_nil].
    + reflexivity.
Qed.

(** [end()] of an object or array builder that is being filled. *)
Lemma opened_end σ k a p q started cr :
  k = ArrayStream \/ k = ObjectStream ->
  σ !! a = Some (opened k a p q started cr) ->
  exists σ' l,
    call a end_ σ = Some (Returned p, σ') /\
    σ' !! a = Some (ended_builder k a p (q ++ [l]) started (S cr)) /\
    Emits σ' l [match k with ObjectStream => "}" | _ => "]" end] /\
    l = a ++ [cr].
Proof.
  intros [-> | ->] Ha; run_call Ha.
  - eexists _, _. split; [reflexivity|]. unfold commit; simpl. split_and!.
    + rewrite lookup_insert_eq. reflexivity.
    + eapply Emits_leaf. rewrite lookup_insert_ne by ne_names. apply lookup_insert_eq.
    + reflexivity.
  - eexists _, _. split; [reflexivity|]. unfold commit; simpl. split_and!.
    + rewrite lookup_insert_eq. reflexivity.
    + eapply Emits_leaf. rewrite lookup_insert_ne by ne_names. apply lookup_insert_eq.
    + reflexivity.
Qed.

(** The calls on a builder on which nothing was called yet. *)
Lemma fresh_primitive σ d p data :
  σ !! d = Some (Builder.create JsonStream p) ->
  exists σ',
    call d (primitive data) σ = Some (Returned p, σ') /\
    σ' !! d = Some (wrapper p (d ++ [0])) /\
    Emits σ' (d ++ [0]) [JSON.literal data].
Proof.
  intros Hd. run_call Hd.
  eexists. split; [reflexivity|]. unfold commit; simpl. split.
  - rewrite lookup_insert_eq. reflexivity.
  - eapply Emits_leaf. rewrite lookup_insert_ne by ne_names. apply lookup_insert_eq.
Qed.

Lemma fresh_open σ d p k :
  k = ArrayStream \/ k = ObjectStream ->
  σ !! d = Some (Builder.create JsonStream p) ->
  exists σ',
    call d (match k with ObjectStream => object None | _ => array None end) σ
    = Some (Returned (Some (d ++ [0])), σ') /\
    σ' !! d = Some (wrapper p (d ++ [0])) /\
    σ' !! (d ++ [0]) = Some (opened k (d ++ [0]) p [] false 1) /\
    Emits σ' ((d ++ [0]) ++ [0]) [match k with ObjectStream => "{" | _ => "[" end].
Proof.
  intros [-> | ->] Hd; run_call Hd.
  - eexists. split; [reflexivity|]. unfold commit; simpl. split_and!.
    + rewrite lookup_insert_eq. reflexivity.
    + rewrite lookup_insert_ne by ne_names. rewrite lookup_insert_eq. reflexivity.
    + eapply Emits_leaf. rewrite lookup_insert_ne by ne_names.
      rewrite lookup_insert_ne by ne_names. apply lookup_insert_eq.
  - eexists. split; [reflexivity|]. unfold commit; simpl. split_and!.
    + rewrite lookup_insert_eq. reflexivity.
    + rewrite lookup_insert_ne by ne_names. rewrite lookup_insert_eq. reflexivity.
    + eapply Emits_leaf. rewrite lookup_insert_ne by ne_names.
      rewrite lookup_insert_ne by ne_names. apply lookup_insert_eq.
Qed.

(** ** The walk of one value *)

(** What the walk of the value [v] does, for [rec] the walk: called with a
    builder [d] on which nothing was called yet, it returns the parent of
    [d], having made calls only, on [d] and below it, and [d] with all
    below it is sealed and emits the text [JSON.stringify(v)]. *)
Definition walked (rec : JsonValue -> option Id -> Run -> option (option Id * Run))
    (v : JsonValue) : Prop :=
  forall s_v d p n t σ,
    JSON.stringify v = Some s_v -> Inv σ -> σ !! d = Some (Builder.create JsonStream p) ->
    exists n' t' σ' chunks,
      rec v (Some d) (mkRun n t σ) = Some (p, mkRun n' (t ++ t') σ') /\
      run t' σ = Some σ' /\ Forall (fun e => is_call e = true) t' /\
      Emits σ' d chunks /\ String.concat "" chunks = s_v /\
      (forall i, ~ d `prefix_of` i -> σ' !! i = σ !! i).

Lemma NoDup_added σ k a p q started cr news :
  Inv σ -> σ !! a = Some (opened k a p q started cr) ->
  NoDup ((a ++ [0]) :: q) -> NoDup news ->
  Forall (fun l => exists j, l = a ++ [j] /\ cr <= j) news ->
  NoDup ((a ++ [0]) :: q ++ news).
Proof.
  intros HInv Ha Hq Hn Hnames. rewrite app_comm_cons. apply NoDup_app. split_and!; try done.
  intros c Hc Hc'.
  destruct (opened_names σ k a p q started cr c HInv Ha Hc) as (j & -> & Hj).
  destruct (proj1 (Forall_forall _ _) Hnames _ Hc') as (j' & Heq & Hj').
  apply app_inv_head in Heq. injection Heq as <-. lia.
Qed.

Section Members.
Context {A : Type} (k : Kind) (value_of : A -> JsonValue) (lead : A -> string).
Context (direct opening : A -> Op) (g : nat -> bool).
Context (rec : JsonValue -> option Id -> Run -> option (option Id * Run)).

Hypothesis Hdirect : forall σ a p q started cr x s,
  σ !! a = Some (opened k a p q started cr) -> JSON.stringify (value_of x) = Some s ->
  exists σ' news css cr',
    call a (direct x) σ = Some (Returned (Some a), σ') /\
    σ' !! a = Some (opened k a p (q ++ news) true cr') /\
    added σ' a cr news css /\
    String.concat "" (List.concat css) = (if started then "," else "") +:+ lead x +:+ s.

Hypothesis Hopening : forall σ a p q started cr x,
  σ !! a = Some (opened k a p q started cr) ->
  exists σ' news css cr' j,
    call a (opening x) σ = Some (Returned (Some j), σ') /\
    σ' !! a = Some (opened k a p (q ++ news ++ [j]) true cr') /\
    σ' !! j = Some (Builder.create JsonStream (Some a)) /\
    added σ' a cr news css /\ (exists k, j = a ++ [k] /\ cr <= k) /\ (j ∉ news) /\
    String.concat "" (List.concat css) = (if started then "," else "") +:+ lead x.

(** The callback of [reduce]. *)
Definition member_step (acc : option Id) (x : A) (s : Run) : option (option Id * Run) :=
  let '(direct_, s) := draw g s in
  if direct_ then invoke acc (direct x) s
  else
    match invoke acc (opening x) s with
    | Some (child, s) => rec (value_of x) child s
    | None => None
    end.

Lemma members_loop (l : list A) :
  Forall (fun x => walked rec (value_of x)) l ->
  forall texts, Forall2 (fun x s => JSON.stringify (value_of x) = Some s) l texts ->
  forall a p q started cr css n t σ,
    Inv σ -> σ !! a = Some (opened k a p q started cr) ->
    NoDup ((a ++ [0]) :: q) -> Forall2 (Emits σ) ((a ++ [0]) :: q) css ->
    exists n' t' σ' q' cr' css',
      reduce member_step l (Some a) (mkRun n t σ) = Some (Some a, mkRun n' (t ++ t') σ') /\
      run t' σ = Some σ' /\ Forall (fun e => is_call e = true) t' /\
      σ' !! a = Some (opened k a p q' (match l with [] => started | _ => true end) cr') /\
      NoDup ((a ++ [0]) :: q') /\ Forall2 (Emits σ') ((a ++ [0]) :: q') css' /\
      String.concat "" (List.concat css') =
        String.concat "" (List.concat css)
        +:+ sep_join started (zip_with (fun x s => lead x +:+ s) l texts) /\
      (forall i, ~ a `prefix_of` i -> σ' !! i = σ !! i).
Proof.
  induction 1 as [|x l Hx _ IH]; intros texts Htexts a p q started cr css n t σ HInv Ha Hnd Hall.
  - apply Forall2_nil_inv_l in Htexts as ->.
    exists n, [], σ, q, cr, css. simpl. rewrite app_nil_r, append_nil_r. by split_and!.
  - apply Forall2_cons_inv_l in Htexts as (s & texts' & Hs & Htexts & ->).
    cbn [reduce]. unfold member_step at 1, draw. cbn [drawn trace heap].
    destruct (g n).
    + destruct (Hdirect σ a p q started cr x s Ha Hs)
        as (σ1 & news & cssn & cr1 & Hcall & Ha1 & (Hem & Hndn & Hnames) & Htext).
      unfold invoke. cbn [drawn trace heap]. rewrite Hcall.
      pose proof (call_Inv' _ _ _ _ _ HInv Hcall) as HInv1.
      destruct (IH texts' Htexts a p (q ++ news) true cr1 (css ++ cssn) (S n)
                  (t ++ [Call a (direct x)]) σ1 HInv1 Ha1)
        as (n' & t' & σ' & q' & cr' & css' & Hred & Hrun & Hcalls & Ha' & Hnd' & Hall' &
            Htext' & Hframe).
      { by apply (NoDup_added σ k a p q started cr news). }
      { rewrite app_comm_cons. apply Forall2_app; [|done].
        eapply Forall2_impl; [exact Hall|]. intros c cs.
        exact (Emits_call a (direct x) _ σ σ1 c cs HInv Hcall). }
      exists n', (Call a (direct x) :: t'), σ', q', cr', css'. split_and!; try done.
      * rewrite Hred. by rewrite <- app_assoc.
      * simpl. by rewrite Hcall.
      * by constructor.
      * by destruct l.
      * rewrite Htext'. rewrite concat_app, concat_app_nil, Htext. cbn [zip_with sep_join].
        by string_norm.
      * intros i Hi. rewrite (Hframe i Hi).
        exact (call_frame σ a (direct x) _ σ1 a HInv Hcall (reflexivity a) i Hi).
    + destruct (Hopening σ a p q started cr x Ha)
        as (σ1 & news & cssn & cr1 & j & Hcall & Ha1 & Hj & (Hem & Hndn & Hnames) &
            (kj & Hjname & Hkj) & Hjnews & Htext).
      unfold invoke at 1. cbn [drawn trace heap]. rewrite Hcall.
      pose proof (call_Inv' _ _ _ _ _ HInv Hcall) as HInv1.
      destruct (Hx s j (Some a) (S n) (t ++ [Call a (opening x)]) σ1 Hs HInv1 Hj)
        as (n2 & t2 & σ2 & chunks & Hrec & Hrun2 & Hcalls2 & HEj & Htextj & Hframe2).
      rewrite Hrec.
      pose proof (run_Inv t2 _ _ HInv1 Hrun2) as HInv2.
      assert (σ2 !! a = Some (opened k a p (q ++ news ++ [j]) true cr1)) as Ha2.
      { rewrite Hframe2; [done|]. rewrite Hjname. apply prefix_snoc_not. }
      destruct (IH texts' Htexts a p (q ++ news ++ [j]) true cr1 (css ++ cssn ++ [chunks]) n2
                  ((t ++ [Call a (opening x)]) ++ t2) σ2 HInv2 Ha2)
        as (n' & t' & σ' & q' & cr' & css' & Hred & Hrun & Hcalls & Ha' & Hnd' & Hall' &
            Htext' & Hframe).
      { apply (NoDup_added σ k a p q started cr (news ++ [j]));
          try done.
        - apply NoDup_app. split_and!; [done| |apply NoDup_singleton].
          intros c Hc Hc'. apply list_elem_of_singleton in Hc'. by subst.
        - apply Forall_app. split; [done|]. apply Forall_singleton. by exists kj. }
      { rewrite app_comm_cons. apply Forall2_app; [|apply Forall2_app].
        - eapply Forall2_impl; [exact Hall|]. intros c cs Hc.
          apply (Emits_calls t2 σ1); try done.
          exact (Emits_call a (opening x) _ σ σ1 c cs HInv Hcall Hc).
        - eapply Forall2_impl; [exact Hem|]. intros c cs Hc.
          by apply (Emits_calls t2 σ1).
        - by apply Forall2_cons; split; [|apply Forall2_nil_2]. }
      exists n', (Call a (opening x) :: t2 ++ t'), σ', q', cr', css'. split_and!; try done.
      * rewrite Hred. by rewrite <- !app_assoc.
      * simpl. rewrite Hcall. simpl. by rewrite run_app, Hrun2.
      * constructor; [done|]. by apply Forall_app.
      * by destruct l.
      * rewrite Htext'. rewrite !concat_app, !concat_app_nil, Htext. cbn [List.concat].
        rewrite app_nil_r, Htextj. cbn [zip_with sep_join]. by string_norm.
      * intros i Hi. rewrite (Hframe i Hi). rewrite Hframe2.
        -- exact (call_frame σ a (opening x) _ σ1 a HInv Hcall (reflexivity a) i Hi).
        -- intros Hji. apply Hi. rewrite Hjname in Hji. by apply prefix_app_l in Hji.
Qed.

(** The brackets of the two kinds of aggregates, and the call that opens
    one. *)
Definition opener (k : Kind) : Op :=
  match k with
  | ObjectStream => object None
  | _ => array None
  end.

Definition brackets (k : Kind) : string * string :=
  match k with
  | ObjectStream => ("{", "}")
  | _ => ("[", "]")
  end.

(** [builder.array()], the members, [end()]; and the same for objects. *)
Lemma aggregate_walked (l : list A) (texts : list string) s_v d p n t σ :
  k = ArrayStream \/ k = ObjectStream ->
  Forall (fun x => walked rec (value_of x)) l ->
  Forall2 (fun x s => JSON.stringify (value_of x) = Some s) l texts ->
  (brackets k).1 +:+ sep_join false (zip_with (fun x s => lead x +:+ s) l texts)
    +:+ (brackets k).2 = s_v ->
  Inv σ -> σ !! d = Some (Builder.create JsonStream p) ->
  exists n' t' σ' chunks,
    match invoke (Some d) (opener k) (mkRun n t σ) with
    | Some (acc, s) =>
        match reduce member_step l acc s with
        | Some (acc, s) => invoke acc end_ s
        | None => None
        end
    | None => None
    end = Some (p, mkRun n' (t ++ t') σ') /\
    run t' σ = Some σ' /\ Forall (fun e => is_call e = true) t' /\
    Emits σ' d chunks /\ String.concat "" chunks = s_v /\
    (forall i, ~ d `prefix_of` i -> σ' !! i = σ !! i).
Proof.
  intros Hk Hwalked Htexts Hs HInv Hd.
  destruct (fresh_open σ d p k Hk Hd) as (σ1 & Hcall1 & Hd1 & Ha1 & Hleaf).
  assert (call d (opener k) σ = Some (Returned (Some (d ++ [0])), σ1)) as Hcall1'
    by (by destruct Hk as [-> | ->]).
  clear Hcall1. set (a := d ++ [0]) in *.
  pose proof (call_Inv' _ _ _ _ _ HInv Hcall1') as HInv1.
  unfold invoke at 1. cbn [drawn trace heap]. rewrite Hcall1'.
  destruct (members_loop l Hwalked texts Htexts a p [] false 1 [[(brackets k).1]] n
              (t ++ [Call d (opener k)]) σ1 HInv1 Ha1)
    as (n2 & t2 & σ2 & q2 & cr2 & css2 & Hred & Hrun2 & Hcalls2 & Ha2 & Hnd2 & Hall2 &
        Htext2 & Hframe2).
  { apply NoDup_singleton. }
  { apply Forall2_cons; split; [|apply Forall2_nil_2]. by destruct Hk as [-> | ->]. }
  rewrite Hred.
  pose proof (run_Inv t2 _ _ HInv1 Hrun2) as HInv2.
  set (st := match l with [] => false | _ => true end) in *.
  destruct (opened_end σ2 k a p q2 st cr2 Hk Ha2)
    as (σ3 & le & Hcall3 & Ha3 & Hle & Hlename).
  unfold invoke. cbn [drawn trace heap]. rewrite Hcall3.
  pose proof (call_Inv' _ _ _ _ _ HInv2 Hcall3) as HInv3.
  assert (σ3 !! d = Some (wrapper p a)) as Hd3.
  { rewrite (call_frame σ2 a end_ _ σ3 a HInv2 Hcall3 (reflexivity a));
      [|apply prefix_snoc_not].
    rewrite Hframe2; [done|apply prefix_snoc_not]. }
  assert (Emits σ3 a (List.concat (css2 ++ [[(brackets k).2]]))) as Ha3'.
  { apply (Emits_intro σ3 a _ (css2 ++ [[(brackets k).2]]) Ha3).
    - by destruct Hk as [-> | ->].
    - change (NoDup ((a ++ [0]) :: q2 ++ [le])).
      apply (NoDup_added σ2 k a p q2 st cr2 [le]); try done; [apply NoDup_singleton|].
      apply Forall_singleton. exists cr2. by split.
    - change (Forall2 (Emits σ3) ((a ++ [0]) :: q2 ++ [le]) (css2 ++ [[(brackets k).2]])).
      rewrite app_comm_cons. apply Forall2_app.
      + eapply Forall2_impl; [exact Hall2|]. intros c cs.
        exact (Emits_call a end_ _ σ2 σ3 c cs HInv2 Hcall3).
      + apply Forall2_cons; split; [|apply Forall2_nil_2]. by destruct Hk as [-> | ->]. }
  exists n2, (Call d (opener k) :: t2 ++ [Call a end_]), σ3,
    (buffer (stream (wrapper p a))
     ++ List.concat [List.concat (css2 ++ [[(brackets k).2]])]).
  split_and!.
  - by rewrite <- !app_assoc.
  - simpl. rewrite Hcall1'. simpl. rewrite run_app, Hrun2. simpl. by rewrite Hcall3.
  - constructor; [done|]. apply Forall_app. split; [done|]. by constructor.
  - apply (Emits_intro σ3 d (wrapper p a) [List.concat (css2 ++ [[(brackets k).2]])] Hd3);
      [reflexivity|apply NoDup_singleton|].
    apply Forall2_cons; split; [exact Ha3'|apply Forall2_nil_2].
  - cbn [wrapper stream buffer Stream.create List.concat app]. rewrite app_nil_r.
    rewrite concat_app, concat_app_nil, Htext2. cbn [List.concat app String.concat].
    rewrite <- Hs. by string_norm.
  - intros i Hi.
    assert (~ a `prefix_of` i) as Hi'.
    { intros Hai. apply Hi. by apply prefix_app_l in Hai. }
    rewrite (call_frame σ2 a end_ _ σ3 a HInv2 Hcall3 (reflexivity a) i Hi').
    rewrite (Hframe2 i Hi').
    exact (call_frame σ d (opener k) _ σ1 d HInv Hcall1' (reflexivity d) i Hi).
Qed.

End Members.

(** ** Keys that need no escaping *)

(** The key is written between quotation marks as it is. *)
Definition plain (key : string) : bool := String.eqb (JSON.escape_all key) key.

Fixpoint plain_keys (v : JsonValue) : bool :=
  match v with
  | JPrim _ => true
  | JArray items => forallb plain_keys items
  | JObject props => forallb (fun kv => plain kv.1 && plain_keys kv.2) props
  | JCircular _ => true
  end.

Lemma collect_texts (items : list JsonValue) (texts : list string) :
  collect (map JSON.stringify items) = Some texts ->
  Forall2 (fun x s => JSON.stringify x = Some s) items texts /\
  zip_with (fun (x : JsonValue) s => "" +:+ s) items texts = texts.
Proof.
  revert texts. induction items as [|x items IH]; intros texts H; simpl in H.
  - injection H as <-. split; [constructor|done].
  - destruct (JSON.stringify x) as [s|] eqn:Es; [|done].
    destruct (collect (map JSON.stringify items)) as [ss|]; [|done].
    injection H as <-. destruct (IH ss eq_refl) as [H1 H2].
    split; [by constructor|]. simpl. by rewrite H2.
Qed.

Lemma plain_member (key : string) (s : string) :
  plain key = true ->
  (String JSON.dquote key +:+ String JSON.dquote ":") +:+ s = JSON.quote key +:+ ":" +:+ s.
Proof.
  unfold plain, JSON.quote. intros H. apply String.eqb_eq in H. rewrite H.
  change ((String JSON.dquote key +:+ String JSON.dquote ":") +:+ s)
    with (String JSON.dquote ((key +:+ String JSON.dquote ":") +:+ s)).
  change (String JSON.dquote (key +:+ String JSON.dquote "") +:+ ":" +:+ s)
    with (String JSON.dquote ((key +:+ String JSON.dquote "") +:+ ":" +:+ s)).
  by rewrite !append_assoc.
Qed.

Lemma collect_members (props : list (string * JsonValue)) (mtexts : list string) :
  forallb (fun kv => plain kv.1 && plain_keys kv.2) props = true ->
  collect (map member props) = Some mtexts ->
  exists texts,
    Forall2 (fun (kv : string * JsonValue) s => JSON.stringify kv.2 = Some s) props texts /\
    zip_with (fun (kv : string * JsonValue) s =>
                (String JSON.dquote kv.1 +:+ String JSON.dquote ":") +:+ s) props texts
    = mtexts.
Proof.
  revert mtexts. induction props as [|[key x] props IH]; intros mtexts Hp H; simpl in H.
  - injection H as <-. exists []. split; [constructor|done].
  - simpl in Hp. apply andb_true_iff in Hp as [Hkx Hp].
    apply andb_true_iff in Hkx as [Hkey _].
    unfold member in H at 1. simpl in H.
    destruct (JSON.stringify x) as [s|] eqn:Es; [|done].
    destruct (collect (map member props)) as [ss|]; [|done].
    injection H as <-. destruct (IH ss Hp eq_refl) as (texts & H1 & H2).
    exists (s :: texts). split; [by constructor|]. simpl. rewrite H2.
    by rewrite plain_member.
Qed.

(** ** The walk rebuilds the value *)

Lemma walk_walked (g : nat -> bool) (v : JsonValue) :
  plain_keys v = true -> walked (walkAndRecreateUsingBuilder g) v.
Proof.
  induction v as [data|items IH|props IH|up] using JsonValue_rect'; intros Hplain.
  - intros s_v d p n t σ Hs HInv Hd. rewrite stringify_prim in Hs. injection Hs as <-.
    destruct (fresh_primitive σ d p data Hd) as (σ' & Hcall & Hd' & Hleaf).
    exists n, [Call d (primitive data)], σ',
      (buffer (stream (wrapper p (d ++ [0]))) ++ List.concat [[JSON.literal data]]).
    split_and!.
    + cbn [walkAndRecreateUsingBuilder]. unfold invoke. cbn [drawn trace heap].
      by rewrite Hcall.
    + simpl. by rewrite Hcall.
    + by constructor.
    + apply (Emits_intro σ' d (wrapper p (d ++ [0])) [[JSON.literal data]] Hd');
        [reflexivity|apply NoDup_singleton|].
      apply Forall2_cons; split; [exact Hleaf|apply Forall2_nil_2].
    + reflexivity.
    + exact (call_frame σ d (primitive data) _ σ' d HInv Hcall (reflexivity d)).
  - intros s_v d p n t σ Hs HInv Hd. rewrite stringify_array in Hs.
    destruct (collect (map JSON.stringify items)) as [texts|] eqn:E; [|done].
    injection Hs as <-. destruct (collect_texts items texts E) as [Htexts Hzip].
    assert (Forall (fun x => walked (walkAndRecreateUsingBuilder g) x) items) as Hw.
    { simpl in Hplain. rewrite forallb_forall in Hplain. apply Forall_forall.
      intros x Hx. apply (proj1 (Forall_forall _ _) IH x Hx).
      apply Hplain. by apply list_elem_of_In. }
    assert ("[" +:+ sep_join false (zip_with (fun (x : JsonValue) s => "" +:+ s) items texts)
              +:+ "]" = "[" +:+ JSON.join "," texts +:+ "]") as Htext
      by (rewrite Hzip; by rewrite sep_join_false).
    exact (aggregate_walked ArrayStream (fun x => x) (fun _ => "")
             (fun x => addItem (Some x)) (fun _ => addItem None) g
             (walkAndRecreateUsingBuilder g) addItem_value
             (fun σ a p q started cr _ => addItem_open σ a p q started cr)
             items texts _ d p n t σ (or_introl eq_refl) Hw Htexts Htext HInv Hd).
  - intros s_v d p n t σ Hs HInv Hd. rewrite stringify_object in Hs.
    destruct (collect (map member props)) as [mtexts|] eqn:E; [|done].
    injection Hs as <-. simpl in Hplain.
    destruct (collect_members props mtexts Hplain E) as (texts & Htexts & Hzip).
    assert (Forall (fun kv => walked (walkAndRecreateUsingBuilder g) kv.2) props) as Hw.
    { rewrite forallb_forall in Hplain. apply Forall_forall.
      intros kv Hkv. apply (proj1 (Forall_forall _ _) IH kv Hkv).
      apply list_elem_of_In in Hkv. specialize (Hplain kv Hkv).
      by apply andb_true_iff in Hplain as [_ ?]. }
    assert ("{" +:+ sep_join false
                      (zip_with (fun (kv : string * JsonValue) s =>
                                   (String JSON.dquote kv.1 +:+ String JSON.dquote ":") +:+ s)
                                props texts)
              +:+ "}" = "{" +:+ JSON.join "," mtexts +:+ "}") as Htext
      by (rewrite Hzip; by rewrite sep_join_false).
    exact (aggregate_walked ObjectStream (fun kv : string * JsonValue => kv.2)
             (fun kv => String JSON.dquote kv.1 +:+ String JSON.dquote ":")
             (fun kv => addProperty kv.1 (Some kv.2)) (fun kv => addProperty kv.1 None) g
             (walkAndRecreateUsingBuilder g) addProperty_value addProperty_open
             props texts _ d p n t σ (or_intror eq_refl) Hw Htexts Htext HInv Hd).
  - intros s_v d p n t σ Hs. done.
Qed.

(** ** The text of every execution with the same calls *)

(** When the calls of [t0] leave the root sealed, emitting [chunks], every
    execution with the same calls on each builder that runs until no stream
    event is left has joined these chunks on the root stream. *)
Lemma sealed_text (t0 : list Event) (σ0 : gmap Id Builder) (chunks : list string) :
  run t0 createBuilder = Some σ0 -> Emits σ0 root chunks ->
  forall t σ, run t createBuilder = Some σ ->
    (forall h, calls_on h t = calls_on h t0) -> quiescent σ ->
    output root σ = String.concat "" chunks /\ closed root σ = true.
Proof.
  intros Hrun0 [m Hem] t σ Hrun Hcalls Hq.
  pose proof (run_Inv t0 _ _ Inv_createBuilder Hrun0) as HInv0.
  set (σq := settle (work σ0) σ0).
  assert (run (settle_trace (work σ0) σ0) σ0 = Some σq) as Hrunq by apply run_settle_trace.
  pose proof (run_Inv _ _ _ HInv0 Hrunq) as HInvq.
  assert (quiescent σq) as Hqq by (by apply settle_work).
  assert (σ = σq) as ->.
  { apply (confluence t (t0 ++ settle_trace (work σ0) σ0) createBuilder); try done.
    - apply Inv_createBuilder.
    - by rewrite run_app, Hrun0.
    - intros h. by rewrite Hcalls, calls_on_app, calls_on_settle_trace, app_nil_r. }
  pose proof (emits_run m _ σ0 σq chunks HInv0 Hrunq Hem) as Hemq.
  destruct (emits_quiescent m σq root chunks HInvq Hqq Hemq) as (b & Hb & _ & He & ->).
  unfold output, closed. by rewrite Hb.
Qed.

Lemma toJson_text σ s :
  output root σ = s -> closed root σ = true ->
  toJson σ = match JSON.parse s with Some v => Resolved v | None => Rejected end.
Proof. intros Ho Hc. unfold toJson. by rewrite Hc, Ho. Qed.

(** X11.  The property of the tests holds for every value and every
    generator: on a value that [JSON.stringify] encodes as [s_v] and whose
    keys need no escaping, [walkAndRecreateUsingBuilder] runs to its end
    without an exception and returns [null], the parent of the root
    builder; and in every execution that makes its calls, in its order on
    each builder, however they are interleaved with each other and with
    the stream events, the root stream ends, and the text collected from it
    is exactly [s_v], so [toJson] settles with what [JSON.parse] makes of
    [s_v]. *)
Theorem walk_recreates (g : nat -> bool) (v : JsonValue) (s_v : string) :
  JSON.stringify v = Some s_v -> plain_keys v = true ->
  exists r,
    walkAndRecreateUsingBuilder g v (Some root) (mkRun 0 [] createBuilder) = Some (None, r) /\
    run (trace r) createBuilder = Some (heap r) /\
    (forall t σ, run t createBuilder = Some σ ->
       (forall h, calls_on h t = calls_on h (trace r)) -> quiescent σ ->
       output root σ = s_v /\ closed root σ = true /\
       toJson σ = match JSON.parse s_v with Some v' => Resolved v' | None => Rejected end).
Proof.
  intros Hs Hplain.
  destruct (walk_walked g v Hplain s_v root None 0 [] createBuilder Hs Inv_createBuilder)
    as (n' & t' & σ' & chunks & Hwalk & Hrun & _ & Hem & Htext & _).
  { apply lookup_singleton_eq. }
  exists (mkRun n' t' σ'). split_and!; try done.
  intros t σ Hrunt Hcalls Hq.
  destruct (sealed_text t' σ' chunks Hrun Hem t σ Hrunt Hcalls Hq) as [Ho Hc].
  rewrite Htext in Ho. split_and!; try done. by apply toJson_text.
Qed.

(** The nested object of the tests, rebuilt with a generator that adds
    every second member in one piece. *)
Definition nested_value : JsonValue :=
  JObject [ ("foo", null); ("bar", num 42); ("sub", JArray [num 1; num 2; num 3]);
            ("baz", JObject [("a", num 1)]) ].

Lemma walk_recreates_witness :
  exists r,
    walkAndRecreateUsingBuilder Nat.even nested_value (Some root) (mkRun 0 [] createBuilder)
    = Some (None, r) /\
    run (trace r) createBuilder = Some (heap r) /\
    (forall t σ, run t createBuilder = Some σ ->
       (forall h, calls_on h t = calls_on h (trace r)) -> quiescent σ ->
       output root σ = text "{'foo':null,'bar':42,'sub':[1,2,3],'baz':{'a':1}}" /\
       closed root σ = true /\
       toJson σ =
       match JSON.parse (text "{'foo':null,'bar':42,'sub':[1,2,3],'baz':{'a':1}}") with
       | Some v' => Resolved v'
       | None => Rejected
       end).
Proof.
  refine (walk_recreates Nat.even nested_value
            (text "{'foo':null,'bar':42,'sub':[1,2,3],'baz':{'a':1}}") _ _).
  - vm_compute; reflexivity.
  - vm_compute; reflexivity.
Defined.

(** ** Values given in one piece *)

(** The call that writes [v] in one piece. *)
Definition in_one_piece (v : JsonValue) : option Op :=
  match v with
  | JPrim data => Some (primitive data)
  | JArray items => Some (array (Some items))
  | JObject props => Some (object (Some props))
  | JCircular _ => None
  end.

Lemma fresh_value σ d p v o s :
  σ !! d = Some (Builder.create JsonStream p) -> in_one_piece v = Some o ->
  JSON.stringify v = Some s ->
  exists r σ',
    call d o σ = Some (Returned r, σ') /\
    σ' !! d = Some (wrapper p (d ++ [0])) /\
    Emits σ' (d ++ [0]) [s].
Proof.
  intros Hd Ho Hs. destruct v as [data|items|props|up]; simpl in Ho; try discriminate;
    injection Ho as <-; run_call Hd; rewrite ?Hs; simpl.
  - rewrite stringify_prim in Hs. injection Hs as <-.
    eexists _, _. split; [reflexivity|]. unfold commit; simpl. split.
    + rewrite lookup_insert_eq. reflexivity.
    + eapply Emits_leaf. rewrite lookup_insert_ne by ne_names. apply lookup_insert_eq.
  - eexists _, _. split; [reflexivity|]. unfold commit; simpl. split.
    + rewrite lookup_insert_eq. reflexivity.
    + eapply Emits_leaf. rewrite lookup_insert_ne by ne_names. apply lookup_insert_eq.
  - eexists _, _. split; [reflexivity|]. unfold commit; simpl. split.
    + rewrite lookup_insert_eq. reflexivity.
    + eapply Emits_leaf. rewrite lookup_insert_ne by ne_names. apply lookup_insert_eq.
Qed.

Lemma one_shot_sealed v o s :
  in_one_piece v = Some o -> JSON.stringify v = Some s ->
  exists σ', run [Call root o] createBuilder = Some σ' /\
    Emits σ' root ([] ++ List.concat [[s]]).
Proof.
  intros Ho Hs.
  assert (createBuilder !! root = Some (Builder.create JsonStream None)) as Hroot
    by apply lookup_singleton_eq.
  destruct (fresh_value createBuilder root None v o s Hroot Ho Hs)
    as (r & σ' & Hcall & Hd & Hleaf).
  exists σ'. split; [simpl; by rewrite Hcall|].
  apply (Emits_intro σ' root (wrapper None (root ++ [0])) [[s]] Hd);
    [reflexivity|apply NoDup_singleton|].
  apply Forall2_cons; split; [exact Hleaf|apply Forall2_nil_2].
Qed.

(** X12.  A value given in one piece is written as [JSON.stringify] encodes
    it, whatever its keys: in every execution from [createBuilder()] whose
    only call is [primitive(data)], [array(data)] or [object(data)] on the
    root, once no stream event is left the root stream has ended and holds
    exactly [JSON.stringify(data)]. *)
Theorem one_shot_text (v : JsonValue) (o : Op) (s_v : string) (t : list Event)
        (σ : gmap Id Builder) :
  in_one_piece v = Some o -> JSON.stringify v = Some s_v ->
  run t createBuilder = Some σ -> (forall h, calls_on h t = calls_on h [Call root o]) ->
  quiescent σ ->
  output root σ = s_v /\ closed root σ = true.
Proof.
  intros Ho Hs Hrun Hcalls Hq.
  destruct (one_shot_sealed v o s_v Ho Hs) as (σ' & Hrun' & Hem).
  exact (sealed_text [Call root o] σ' _ Hrun' Hem t σ Hrun Hcalls Hq).
Qed.

Lemma one_shot_text_witness :
  output root (after [Call root (object (Some [(quoted_key, num 1)]))])
  = String.concat "" ["{"; JSON.quote quoted_key; ":1}"] /\
  closed root (after [Call root (object (Some [(quoted_key, num 1)]))]) = true.
Proof.
  refine (one_shot_text (JObject [(quoted_key, num 1)]) (object (Some [(quoted_key, num 1)]))
            _ (finish [Call root (object (Some [(quoted_key, num 1)]))])
            (after [Call root (object (Some [(quoted_key, num 1)]))]) _ _ _ _ _).
  - reflexivity.
  - vm_compute; reflexivity.
  - vm_compute; reflexivity.
  - compare_calls.
  - apply ready_nil_quiescent. vm_compute; reflexivity.
Defined.

(** X13.  Round trip under decomposition, for keys that need no escaping:
    rebuilding a value member by member, with any choice of the members
    that are given in one piece, and giving the whole value in one piece
    lead to the same collected text and the same result of [toJson]. *)
Theorem decomposition_roundtrip (g : nat -> bool) (v : JsonValue) (o : Op) (s_v : string) :
  JSON.stringify v = Some s_v -> plain_keys v = true -> in_one_piece v = Some o ->
  exists r,
    walkAndRecreateUsingBuilder g v (Some root) (mkRun 0 [] createBuilder) = Some (None, r) /\
    (forall t1 σ1 t2 σ2,
       run t1 createBuilder = Some σ1 ->
       (forall h, calls_on h t1 = calls_on h (trace r)) -> quiescent σ1 ->
       run t2 createBuilder = Some σ2 ->
       (forall h, calls_on h t2 = calls_on h [Call root o]) -> quiescent σ2 ->
       output root σ1 = output root σ2 /\ toJson σ1 = toJson σ2).
Proof.
  intros Hs Hplain Ho.
  destruct (walk_walked g v Hplain s_v root None 0 [] createBuilder Hs Inv_createBuilder)
    as (n' & t' & σ' & chunks & Hwalk & Hrun & _ & Hem & Htext & _).
  { apply lookup_singleton_eq. }
  exists (mkRun n' t' σ'). split; [done|].
  intros t1 σ1 t2 σ2 Hrun1 Hcalls1 Hq1 Hrun2 Hcalls2 Hq2.
  destruct (sealed_text t' σ' chunks Hrun Hem t1 σ1 Hrun1 Hcalls1 Hq1) as [Ho1 Hc1].
  destruct (one_shot_sealed v o s_v Ho Hs) as (σo & Hruno & Hemo).
  destruct (sealed_text [Call root o] σo _ Hruno Hemo t2 σ2 Hrun2 Hcalls2 Hq2) as [Ho2 Hc2].
  rewrite Htext in Ho1. change (output root σ2 = s_v) in Ho2.
  split; [congruence|].
  by rewrite (toJson_text σ1 s_v), (toJson_text σ2 s_v).
Qed.

Lemma decomposition_roundtrip_witness :
  exists r,
    walkAndRecreateUsingBuilder Nat.even nested_value (Some root) (mkRun 0 [] createBuilder)
    = Some (None, r) /\
    (forall t1 σ1 t2 σ2,
       run t1 createBuilder = Some σ1 ->
       (forall h, calls_on h t1 = calls_on h (trace r)) -> quiescent σ1 ->
       run t2 createBuilder = Some σ2 ->
       (forall h, calls_on h t2
                  = calls_on h [Call root (object (Some [ ("foo", null); ("bar", num 42);
                                     ("sub", JArray [num 1; num 2; num 3]);
                                     ("baz", JObject [("a", num 1)]) ]))]) ->
       quiescent σ2 ->
       output root σ1 = output root σ2 /\ toJson σ1 = toJson σ2).
Proof.
  refine (decomposition_roundtrip Nat.even nested_value _
            (text "{'foo':null,'bar':42,'sub':[1,2,3],'baz':{'a':1}}") _ _ _).
  - vm_compute; reflexivity.
  - vm_compute; reflexivity.
  - reflexivity.
Defined.

(* ================================================================== *)
(** * Order of the streams *)
(* ================================================================== *)

(** ** A builder waits for its children *)

Lemma children_consume b c :
  children (Builder.consumeChildBuilder b) c <-> children b c.
Proof.
  unfold children. split_fields b. destruct c0 as [x|]; simpl; [done|].
  destruct q as [|y q]; simpl.
  - destruct es; simpl; done.
  - rewrite elem_of_cons. split; intros [H|H]; auto.
    + injection H as ->. by left; left.
    + destruct H as [->|H]; [by right|by left].
    + done.
Qed.

Lemma children_kept a b c : children b c -> children (act a b) c.
Proof.
  intros H. destruct a; simpl; try done.
  - unfold Builder.addChildBuilder. destruct (endScheduled b); [done|].
    apply children_consume. destruct H as [H|H]; [left|by right].
    simpl. apply elem_of_app. by left.
  - unfold Builder.scheduleEnd. by apply children_consume.
Qed.

Lemma children_perform_kept acts b c : children b c -> children (perform acts b) c.
Proof.
  intros H. induction acts as [|a acts IH]; simpl; [done|]. by apply children_kept.
Qed.

Lemma finished_not_piped σ c bc x :
  Inv σ -> σ !! c = Some bc -> Stream.finished (stream bc) = true -> x ∉ pipes bc.
Proof.
  intros HInv Hc Hf Hin.
  destruct (piped_child _ _ _ _ HInv Hc Hin) as (_ & _ & Hne & _).
  rewrite (finished_ended _ Hf) in Hne. done.
Qed.

(** The child [c] of [p] has ended and was forwarded, or it is still a
    child of [p]. *)
Definition awaited (σ : gmap Id Builder) (p c : Id) : Prop :=
  (exists bp, σ !! p = Some bp /\ children bp c) \/
  (exists bc, σ !! c = Some bc /\ Stream.finished (stream bc) = true).

Lemma awaited_step e σ σ' p c :
  Inv σ -> step e σ = Some σ' -> awaited σ p c -> awaited σ' p c.
Proof.
  intros HInv Hstep [(bp & Hp & Hch)|(bc & Hc & Hf)].
  - destruct e as [h o|p0 c0|p0 c0].
    + apply step_call_inv in Hstep
        as (bh & m & acts & news & r & c1 & Hh & Hm & Hk & Hrun & Hplan & _ & ->).
      left. destruct (decide (p = h)) as [->|Hne].
      * assert (bh = bp) as -> by congruence.
        exists (perform acts bp). split; [apply lookup_insert_eq|].
        by apply children_perform_kept.
      * exists bp. split; [|done]. rewrite lookup_insert_ne by done.
        rewrite lookup_union_r; [done|].
        apply (news_absent σ h bh c1 acts news p HInv Hh Hplan). by eexists.
    + apply step_data_inv in Hstep as (bp0 & bc0 & x & rest & Hp0 & Hc0 & Hin & Hb & ->).
      left. destruct (decide (p = p0)) as [->|Hne].
      * assert (bp0 = bp) as -> by congruence.
        eexists. split; [apply lookup_insert_eq|]. exact Hch.
      * rewrite lookup_insert_ne by done.
        destruct (decide (p = c0)) as [->|Hne'].
        -- assert (bc0 = bp) as -> by congruence.
           eexists. split; [apply lookup_insert_eq|]. exact Hch.
        -- exists bp. by rewrite lookup_insert_ne.
    + apply step_end_inv in Hstep as (bp0 & bc0 & Hp0 & Hc0 & Hin & Hf & ->).
      destruct (piped_child _ _ _ _ HInv Hp0 Hin) as (Hcur & _ & _ & _ & _ & Hpc).
      destruct (decide (p = p0)) as [->|Hne].
      * assert (bp0 = bp) as -> by congruence.
        destruct (decide (c = c0)) as [->|Hcc].
        -- right. exists bc0. split; [by rewrite lookup_insert_ne|done].
        -- left. exists (Builder.onChildEnd c0 bp). split; [apply lookup_insert_eq|].
           apply kids_children. rewrite kids_onChildEnd by done.
           destruct Hch as [Hch|Hch]; [done|congruence].
      * left. exists bp. by rewrite lookup_insert_ne.
  - right. destruct e as [h o|p0 c0|p0 c0].
    + apply step_call_inv in Hstep
        as (bh & m & acts & news & r & c1 & Hh & Hm & Hk & Hrun & Hplan & _ & ->).
      destruct (decide (c = h)) as [->|Hne].
      * assert (bh = bc) as -> by congruence.
        exists (perform acts bc). split; [apply lookup_insert_eq|].
        by apply finished_perform.
      * exists bc. split; [|done]. rewrite lookup_insert_ne by done.
        rewrite lookup_union_r; [done|].
        apply (news_absent σ h bh c1 acts news c HInv Hh Hplan). by eexists.
    + apply step_data_inv in Hstep as (bp0 & bc0 & x & rest & Hp0 & Hc0 & Hin & Hb & ->).
      assert (c <> p0).
      { intros ->. assert (bp0 = bc) as -> by congruence.
        by apply (finished_not_piped σ p0 bc c0). }
      assert (c <> c0).
      { intros ->. assert (bc0 = bc) as -> by congruence.
        rewrite (finished_buffer _ Hf) in Hb. done. }
      exists bc. by rewrite !lookup_insert_ne.
    + apply step_end_inv in Hstep as (bp0 & bc0 & Hp0 & Hc0 & Hin & Hf0 & ->).
      assert (c <> p0).
      { intros ->. assert (bp0 = bc) as -> by congruence.
        by apply (finished_not_piped σ p0 bc c0). }
      exists bc. by rewrite lookup_insert_ne.
Qed.

Lemma awaited_run t : forall σ σ' p c,
  Inv σ -> run t σ = Some σ' -> awaited σ p c -> awaited σ' p c.
Proof.
  induction t as [|e t IH]; intros σ σ' p c HInv Hrun H; simpl in Hrun.
  - by injection Hrun as <-.
  - destruct (step e σ) as [σ1|] eqn:Hs; [|done].
    apply (IH σ1); [eapply step_Inv; eauto|done|]. by apply (awaited_step e σ).
Qed.

(** X14.  A builder waits for its children: when the stream of a builder
    has ended, every builder that was in its queue, or was its current
    child, in an earlier heap of the execution has ended and all its
    chunks were forwarded. *)
Theorem parent_waits_for_children (t t' : list Event) (σ σ' : gmap Id Builder)
        (p c : Id) (bp : Builder) :
  run t createBuilder = Some σ -> σ !! p = Some bp -> children bp c ->
  run t' σ = Some σ' -> closed p σ' = true ->
  exists bc, σ' !! c = Some bc /\ Stream.finished (stream bc) = true.
Proof.
  intros Hrun Hp Hch Hrun' Hclosed.
  pose proof (run_Inv t _ _ Inv_createBuilder Hrun) as HInv.
  pose proof (run_Inv t' _ _ HInv Hrun') as HInv'.
  destruct (awaited_run t' σ σ' p c HInv Hrun') as [(bp' & Hp' & Hch')|H]; [|exfalso|done].
  { left. by exists bp. }
  unfold closed in Hclosed. rewrite Hp' in Hclosed.
  apply kids_children in Hch'.
  rewrite (ended_no_kids bp' (inv_good _ HInv' _ _ Hp') Hclosed) in Hch'.
  by apply elem_of_nil in Hch'.
Qed.

Lemma parent_waits_for_children_witness :
  exists bc, after nested_unordered !! [0; 4] = Some bc /\
             Stream.finished (stream bc) = true.
Proof.
  refine (parent_waits_for_children
            [Call root (object None); Call [0] (addProperty "foo" (Some null));
             Call [0] (addProperty "bar" (Some (num 42))); Call [0] (addProperty "sub" None)]
            _
            (heap_after [Call root (object None); Call [0] (addProperty "foo" (Some null));
                         Call [0] (addProperty "bar" (Some (num 42)));
                         Call [0] (addProperty "sub" None)])
            (after nested_unordered) [0] [0; 4]
            (mkBuilder ObjectStream None Stream.create [[0; 0]]
               [[0; 1]; [0; 2]; [0; 3]; [0; 5]; [0; 6]; [0; 4]] (Some [0; 0])
               false true false 7)
            _ _ _ _ _).
  - vm_compute; reflexivity.
  - vm_compute; reflexivity.
  - left. simpl. repeat (first [by left | right]).
  - instantiate (1 := skipn 4 (finish nested_unordered)). vm_compute; reflexivity.
  - vm_compute; reflexivity.
Defined.

(** ** The collected text only grows *)

Lemma root_step e σ σ' b :
  Inv σ -> step e σ = Some σ' -> σ !! root = Some b ->
  exists b' l, σ' !! root = Some b' /\ buffer (stream b') = buffer (stream b) ++ l.
Proof.
  intros HInv Hstep Hr. destruct e as [h o|p c|p c].
  - apply step_call_inv in Hstep
      as (bh & m & acts & news & r & c1 & Hh & Hm & Hk & Hrun & Hplan & _ & ->).
    destruct (decide (root = h)) as [<-|Hne].
    + assert (bh = b) as -> by congruence.
      exists (perform acts b), []. split; [apply lookup_insert_eq|].
      by rewrite perform_buffer, app_nil_r.
    + exists b, []. rewrite app_nil_r. split; [|done].
      rewrite lookup_insert_ne by done. rewrite lookup_union_r; [done|].
      apply (news_absent σ h bh c1 acts news root HInv Hh Hplan). by eexists.
  - apply step_data_inv in Hstep as (bp & bc & x & rest & Hp & Hc & Hin & Hb & ->).
    destruct (piped_child _ _ _ _ HInv Hp Hin) as (_ & _ & Hne & _ & [k Hck] & _).
    assert (root <> c) as Hrc by (rewrite Hck; unfold root; by destruct p).
    rewrite write_push by done.
    destruct (decide (root = p)) as [<-|Hrp].
    + assert (bp = b) as -> by congruence.
      eexists _, [x]. split; [apply lookup_insert_eq|done].
    + exists b, []. rewrite app_nil_r. by rewrite !lookup_insert_ne.
  - apply step_end_inv in Hstep as (bp & bc & Hp & Hc & Hin & Hf & ->).
    destruct (decide (root = p)) as [<-|Hrp].
    + assert (bp = b) as -> by congruence.
      eexists _, []. split; [apply lookup_insert_eq|].
      by rewrite onChildEnd_buffer, app_nil_r.
    + exists b, []. rewrite app_nil_r. by rewrite lookup_insert_ne.
Qed.

Lemma root_run t : forall σ σ' b,
  Inv σ -> run t σ = Some σ' -> σ !! root = Some b ->
  exists b' l, σ' !! root = Some b' /\ buffer (stream b') = buffer (stream b) ++ l.
Proof.
  induction t as [|e t IH]; intros σ σ' b HInv Hrun Hr; simpl in Hrun.
  - injection Hrun as <-. exists b, []. by rewrite app_nil_r.
  - destruct (step e σ) as [σ1|] eqn:Hs; [|done].
    destruct (root_step e σ σ1 b HInv Hs Hr) as (b1 & l1 & Hr1 & Hb1).
    destruct (IH σ1 σ' b1 (step_Inv _ _ _ HInv Hs) Hrun Hr1) as (b' & l & Hr' & Hb').
    exists b', (l1 ++ l). split; [done|]. by rewrite Hb', Hb1, app_assoc.
Qed.

(** X15.  The collected text only grows: what has arrived on the root
    stream is never taken back or changed; the text at a later point of
    an execution is the text at an earlier point followed by more. *)
Theorem output_only_grows (t t' : list Event) (σ σ' : gmap Id Builder) :
  run t createBuilder = Some σ -> run t' σ = Some σ' ->
  exists more, output root σ' = output root σ +:+ more.
Proof.
  intros Hrun Hrun'.
  pose proof (run_Inv t _ _ Inv_createBuilder Hrun) as HInv.
  destruct (root_run t createBuilder σ (Builder.create JsonStream None)
              Inv_createBuilder Hrun) as (b & l0 & Hb & _); [apply lookup_singleton_eq|].
  destruct (root_run t' σ σ' b HInv Hrun' Hb) as (b' & l & Hb' & Hbuf).
  exists (String.concat "" l). unfold output. rewrite Hb, Hb', Hbuf.
  apply concat_app_nil.
Qed.

Lemma output_only_grows_witness :
  exists more,
    output root (after nested_unordered)
    = output root (heap_after (take 9 nested_unordered)) +:+ more.
Proof.
  refine (output_only_grows (take 9 nested_unordered) (skipn 9 (finish nested_unordered))
            (heap_after (take 9 nested_unordered)) (after nested_unordered) _ _).
  - vm_compute; reflexivity.
  - vm_compute; reflexivity.
Defined.

(** ** The guard of [addChildBuilder] *)

(** [addChildBuilder(child)] as it is in the copy of the library that
    comes with the tests, without the test of [endScheduled]. *)
Definition addChildBuilder_unguarded (child : Id) (this : Builder) : Builder :=
  Builder.consumeChildBuilder (set_queue (queue this ++ [child]) this).

(** X16.  The guard of [addChildBuilder] is what keeps a closed stream
    from being written to.  On a builder whose stream has ended, the
    guarded [addChildBuilder] does nothing, while the one without the guard
    pipes the child into the ended stream, so that the first chunk the
    child forwards is a write after the end. *)
Theorem guard_prevents_write_after_end (t : list Event) (σ : gmap Id Builder) (i : Id)
        (b : Builder) (child : Id) (chunk : string) :
  run t createBuilder = Some σ -> σ !! i = Some b -> kind b <> ValueStream ->
  ended (stream b) = true ->
  Builder.addChildBuilder child b = b /\
  pipes (addChildBuilder_unguarded child b) = [child] /\
  ended (stream (addChildBuilder_unguarded child b)) = true /\
  errored (stream (set_stream (Stream.write chunk) (addChildBuilder_unguarded child b)))
  = true.
Proof.
  intros Hrun Hi Hk He.
  pose proof (inv_good _ (run_Inv t _ _ Inv_createBuilder Hrun) _ _ Hi) as Hg.
  destruct (proj1 (good_closed b Hg Hk) He) as [Hes Hcur].
  pose proof (good_queue b Hg Hcur) as Hq.
  pose proof (good_pipes b Hg) as Hp. unfold active in Hp. rewrite Hcur in Hp.
  unfold addChildBuilder_unguarded, Builder.addChildBuilder. rewrite Hes.
  split; [done|]. split_fields b. unfold Stream.write. simpl. done.
Qed.

Lemma guard_prevents_write_after_end_witness :
  Builder.addChildBuilder [0; 9]
    (mkBuilder ArrayStream None (mkStream [] true false) [] [] None true false false 2)
  = mkBuilder ArrayStream None (mkStream [] true false) [] [] None true false false 2 /\
  pipes (addChildBuilder_unguarded [0; 9]
           (mkBuilder ArrayStream None (mkStream [] true false) [] [] None true false false 2))
  = [[0; 9]] /\
  ended (stream (addChildBuilder_unguarded [0; 9]
           (mkBuilder ArrayStream None (mkStream [] true false) [] [] None true false false 2)))
  = true /\
  errored (stream (set_stream (Stream.write "1")
           (addChildBuilder_unguarded [0; 9]
              (mkBuilder ArrayStream None (mkStream [] true false) [] [] None true false
                 false 2))))
  = true.
Proof.
  refine (guard_prevents_write_after_end (finish ended_array) (after ended_array) [0]
            (mkBuilder ArrayStream None (mkStream [] true false) [] [] None true false false 2)
            [0; 9] "1" _ _ _ _).
  - vm_compute; reflexivity.
  - vm_compute; reflexivity.
  - discriminate.
  - reflexivity.
Defined.

(** ** A builder that was not ended holds the document back *)

(** [q] is below [p]: a child, or a child of a child, and so on. *)
Inductive below (σ : gmap Id Builder) : Id -> Id -> Prop :=
| below_refl p : below σ p p
| below_step p c q bp :
    σ !! p = Some bp -> children bp c -> below σ c q -> below σ p q.

Lemma act_endScheduled a b :
  a <> ScheduleEnd -> endScheduled (act a b) = endScheduled b.
Proof.
  intros Ha. destruct a; simpl; try done. apply endScheduled_addChild.
Qed.

(** Only a call on the builder itself requests its end. *)
Lemma endScheduled_step e σ σ' i b :
  Inv σ -> step e σ = Some σ' -> σ !! i = Some b ->
  (forall o, e <> Call i o) ->
  exists b', σ' !! i = Some b' /\ endScheduled b' = endScheduled b /\ kind b' = kind b.
Proof.
  intros HInv Hstep Hi Hnot. destruct e as [h o|p c|p c].
  - apply step_call_inv in Hstep
      as (bh & m & acts & news & r & c1 & Hh & Hm & Hk & Hrun & Hplan & _ & ->).
    assert (i <> h) as Hne by (intros ->; by apply (Hnot o)).
    exists b. split; [|done]. rewrite lookup_insert_ne by done.
    rewrite lookup_union_r; [done|].
    apply (news_absent σ h bh c1 acts news i HInv Hh Hplan). by eexists.
  - apply step_data_inv in Hstep as (bp & bc & x & rest & Hp & Hc & Hin & Hb & ->).
    destruct (decide (i = p)) as [->|Hip].
    + assert (bp = b) as -> by congruence.
      eexists. split; [apply lookup_insert_eq|done].
    + rewrite lookup_insert_ne by done.
      destruct (decide (i = c)) as [->|Hic].
      * assert (bc = b) as -> by congruence.
        eexists. split; [apply lookup_insert_eq|done].
      * exists b. by rewrite lookup_insert_ne.
  - apply step_end_inv in Hstep as (bp & bc & Hp & Hc & Hin & Hf & ->).
    destruct (decide (i = p)) as [->|Hip].
    + assert (bp = b) as -> by congruence.
      eexists. split; [apply lookup_insert_eq|].
      destruct (onChildEnd_fields c b) as [(Hk & _) He]. done.
    + exists b. by rewrite lookup_insert_ne.
Qed.

Lemma endScheduled_run t : forall σ σ' i b,
  Inv σ -> run t σ = Some σ' -> σ !! i = Some b -> calls_on i t = [] ->
  exists b', σ' !! i = Some b' /\ endScheduled b' = endScheduled b /\ kind b' = kind b.
Proof.
  induction t as [|e t IH]; intros σ σ' i b HInv Hrun Hi Hcalls; simpl in Hrun.
  - injection Hrun as <-. by exists b.
  - destruct (step e σ) as [σ1|] eqn:Hs; [|done].
    assert ((forall o, e <> Call i o) /\ calls_on i t = []) as [Hnot Hcalls'].
    { destruct e as [h o|p c|p c]; simpl in Hcalls; try done.
      destruct (decide (h = i)) as [->|Hne]; [done|]. split; [|done].
      intros o' [= ? ?]. done. }
    destruct (endScheduled_step e σ σ1 i b HInv Hs Hi Hnot) as (b1 & H1 & He1 & Hk1).
    destruct (IH σ1 σ' i b1 (step_Inv _ _ _ HInv Hs) Hrun H1 Hcalls')
      as (b' & H' & He' & Hk').
    exists b'. split; [done|]. split; congruence.
Qed.

Lemma closed_below σ σ' t' p q :
  Inv σ -> run t' σ = Some σ' -> below σ p q ->
  closed p σ' = true -> closed q σ' = true.
Proof.
  intros HInv Hrun Hpath. induction Hpath as [p|p c q bp Hp Hch _ IH]; [done|].
  intros Hclosed. apply IH.
  pose proof (run_Inv t' _ _ HInv Hrun) as HInv'.
  destruct (awaited_run t' σ σ' p c HInv Hrun) as [(bp' & Hp' & Hch')|(bc & Hc & Hf)].
  - left. by exists bp.
  - exfalso. unfold closed in Hclosed. rewrite Hp' in Hclosed.
    apply kids_children in Hch'.
    rewrite (ended_no_kids bp' (inv_good _ HInv' _ _ Hp') Hclosed) in Hch'.
    by apply elem_of_nil in Hch'.
  - unfold closed. rewrite Hc. by apply finished_ended.
Qed.

(** X17.  A builder that was not ended holds the document back: when an
    object, array or value-less builder below the root has not had its end
    requested, the root stream does not end before a call is made on that
    builder, whatever other calls and stream events happen; [toJson] stays
    pending. *)
Theorem open_builder_blocks (t t' : list Event) (σ σ' : gmap Id Builder) (q : Id)
        (b : Builder) :
  run t createBuilder = Some σ -> below σ root q -> σ !! q = Some b ->
  kind b <> ValueStream -> endScheduled b = false ->
  run t' σ = Some σ' -> calls_on q t' = [] ->
  closed root σ' = false /\ toJson σ' = Pending.
Proof.
  intros Hrun Hpath Hq Hk He Hrun' Hcalls.
  pose proof (run_Inv t _ _ Inv_createBuilder Hrun) as HInv.
  pose proof (run_Inv t' _ _ HInv Hrun') as HInv'.
  assert (closed root σ' = false) as Hc.
  { destruct (closed root σ') eqn:Hclosed; [exfalso|done].
    pose proof (closed_below σ σ' t' root q HInv Hrun' Hpath Hclosed) as Hcq.
    destruct (endScheduled_run t' σ σ' q b HInv Hrun' Hq Hcalls) as (b' & Hq' & He' & Hk').
    unfold closed in Hcq. rewrite Hq' in Hcq.
    assert (kind b' <> ValueStream) as Hkb by congruence.
    destruct (proj1 (good_closed b' (inv_good _ HInv' _ _ Hq') Hkb) Hcq) as [Hes _].
    congruence. }
  split; [done|]. unfold toJson. by rewrite Hc.
Qed.

Lemma open_builder_blocks_witness :
  closed root (settle 200 (heap_after (take 12 nested_unordered))) = false /\
  toJson (settle 200 (heap_after (take 12 nested_unordered))) = Pending.
Proof.
  refine (open_builder_blocks (take 12 nested_unordered)
            (settle_trace 200 (heap_after (take 12 nested_unordered)))
            (heap_after (take 12 nested_unordered))
            (settle 200 (heap_after (take 12 nested_unordered))) [0; 4; 0]
            (mkBuilder ArrayStream (Some [0]) Stream.create [[0; 4; 0; 0]]
               [[0; 4; 0; 1]; [0; 4; 0; 2]; [0; 4; 0; 3]; [0; 4; 0; 4]; [0; 4; 0; 5]]
               (Some [0; 4; 0; 0]) false false true 6)
            _ _ _ _ _ _ _).
  - vm_compute; reflexivity.
  - eapply (below_step _ root [0]); [vm_compute; reflexivity|by right|].
    eapply (below_step _ [0] [0; 4]);
      [vm_compute; reflexivity|left; simpl; repeat (first [by left|right])|].
    eapply (below_step _ [0; 4] [0; 4; 0]); [vm_compute; reflexivity|by right|].
    apply below_refl.
  - vm_compute; reflexivity.
  - discriminate.
  - reflexivity.
  - apply run_settle_trace.
  - apply calls_on_settle_trace.
Defined.

(** ** No child is taken after the end was requested *)

Lemma kids_step e σ σ' i b :
  Inv σ -> step e σ = Some σ' -> σ !! i = Some b ->
  endScheduled b = true -> kind b <> ValueStream ->
  exists b', σ' !! i = Some b' /\ endScheduled b' = true /\ kind b' = kind b /\
             kids b' `suffix_of` kids b.
Proof.
  intros HInv Hstep Hi He Hk. destruct e as [h o|p c|p c].
  - apply step_call_inv in Hstep
      as (bh & m & acts & news & r & c1 & Hh & Hm & Hkh & Hrun & Hplan & _ & ->).
    destruct (decide (i = h)) as [->|Hne].
    + assert (bh = b) as -> by congruence.
      destruct (perform_after_end acts b (inv_good _ HInv _ _ Hi) Hk He)
        as (_ & Hq & Hc & _ & He').
      exists (perform acts b). split_and!; [apply lookup_insert_eq|done|apply kind_perform|].
      unfold kids, active. by rewrite Hq, Hc.
    + exists b. split_and!; try done.
      rewrite lookup_insert_ne by done. rewrite lookup_union_r; [done|].
      apply (news_absent σ h bh c1 acts news i HInv Hh Hplan). by eexists.
  - apply step_data_inv in Hstep as (bp & bc & x & rest & Hp & Hc & Hin & Hb & ->).
    destruct (decide (i = p)) as [->|Hip].
    + assert (bp = b) as -> by congruence.
      eexists. split; [apply lookup_insert_eq|done].
    + rewrite lookup_insert_ne by done.
      destruct (decide (i = c)) as [->|Hic].
      * assert (bc = b) as -> by congruence.
        eexists. split; [apply lookup_insert_eq|done].
      * exists b. by rewrite lookup_insert_ne.
  - apply step_end_inv in Hstep as (bp & bc & Hp & Hc & Hin & Hf & ->).
    destruct (decide (i = p)) as [->|Hip].
    + assert (bp = b) as -> by congruence.
      destruct (piped_child _ _ _ _ HInv Hi Hin) as (Hcur & _).
      destruct (onChildEnd_fields c b) as [(Hkk & _) He'].
      eexists. split; [apply lookup_insert_eq|]. split_and!; try congruence.
      rewrite kids_onChildEnd by done. unfold kids, active. rewrite Hcur.
      by apply suffix_cons_r.
    + exists b. by rewrite lookup_insert_ne.
Qed.

Lemma kids_run t : forall σ σ' i b,
  Inv σ -> run t σ = Some σ' -> σ !! i = Some b ->
  endScheduled b = true -> kind b <> ValueStream ->
  exists b', σ' !! i = Some b' /\ kids b' `suffix_of` kids b.
Proof.
  induction t as [|e t IH]; intros σ σ' i b HInv Hrun Hi He Hk; simpl in Hrun.
  - injection Hrun as <-. by exists b.
  - destruct (step e σ) as [σ1|] eqn:Hs; [|done].
    destruct (kids_step e σ σ1 i b HInv Hs Hi He Hk) as (b1 & H1 & He1 & Hk1 & Hs1).
    destruct (IH σ1 σ' i b1 (step_Inv _ _ _ HInv Hs) Hrun H1 He1) as (b' & H' & Hs');
      [congruence|].
    exists b'. split; [done|]. by transitivity (kids b1).
Qed.

(** X18.  After its end was requested a builder takes no further child:
    in every later heap of the execution its children (the current one and
    the queue) are what is left of the children it had, in their order;
    what is added to it afterwards is dropped. *)
Theorem no_child_after_end (t t' : list Event) (σ σ' : gmap Id Builder) (i : Id)
        (b : Builder) :
  run t createBuilder = Some σ -> σ !! i = Some b ->
  endScheduled b = true -> kind b <> ValueStream ->
  run t' σ = Some σ' ->
  exists b', σ' !! i = Some b' /\ kids b' `suffix_of` kids b.
Proof.
  intros Hrun Hi He Hk Hrun'.
  exact (kids_run t' σ σ' i b (run_Inv t _ _ Inv_createBuilder Hrun) Hrun' Hi He Hk).
Qed.

Lemma no_child_after_end_witness :
  exists b',
    heap_after (ended_array ++ [Call [0] (addItem (Some (num 4)))]) !! [0] = Some b' /\
    kids b' `suffix_of` kids (ended_builder ArrayStream [0] None [[0; 1]] false 2).
Proof.
  refine (no_child_after_end ended_array [Call [0] (addItem (Some (num 4)))]
            (heap_after ended_array)
            (heap_after (ended_array ++ [Call [0] (addItem (Some (num 4)))])) [0]
            (ended_builder ArrayStream [0] None [[0; 1]] false 2) _ _ _ _ _).
  - vm_compute; reflexivity.
  - vm_compute; reflexivity.
  - reflexivity.
  - discriminate.
  - vm_compute; reflexivity.
Defined.

(** ** A [JsonStreamBuilder] takes one value *)

Lemma json_call_ends o m f r f' :
  method JsonStream o = Some m -> m f = Return r f' ->
  self f' = self f /\ endScheduled (this f') = true.
Proof.
  intros Hm. destruct f as [h b bn].
  destruct o as [data|[data|]|[data|]| |key value|value];
    simpl in Hm; try discriminate; injection Hm as <-;
    try (destruct (JSON.stringify (JPrim data)) eqn:ES);
    try (destruct (JSON.stringify (JObject data)) eqn:ES);
    try (destruct (JSON.stringify (JArray data)) eqn:ES);
    run_method; rewrite ?ES; simpl; try discriminate;
    intros [= <- <-]; simpl; autorewrite with fields; done.
Qed.

(** X19.  A [JsonStreamBuilder] takes one value: every call on it that
    returns ([primitive], [object], [array] with or without data, [end])
    requests its end, so that from then on it takes no further child,
    whatever is called on it; a second value is dropped. *)
Theorem json_builder_takes_one_value (t t' : list Event) (σ σ1 σ' : gmap Id Builder)
        (d : Id) (b : Builder) (o : Op) (r : option Id) :
  run t createBuilder = Some σ -> σ !! d = Some b -> kind b = JsonStream ->
  call d o σ = Some (Returned r, σ1) -> run t' σ1 = Some σ' ->
  exists b1 b',
    σ1 !! d = Some b1 /\ endScheduled b1 = true /\
    σ' !! d = Some b' /\ kids b' `suffix_of` kids b1.
Proof.
  intros Hrun Hd Hk Hcall Hrun'.
  pose proof (run_Inv t _ _ Inv_createBuilder Hrun) as HInv.
  pose proof (call_Inv' _ _ _ _ _ HInv Hcall) as HInv1.
  assert (exists b1, σ1 !! d = Some b1 /\ endScheduled b1 = true /\ kind b1 = JsonStream)
    as (b1 & Hd1 & He1 & Hk1).
  { assert (step (Call d o) σ = Some σ1) as Hstep by (simpl; by rewrite Hcall).
    destruct (step_later (Call d o) σ σ1 d b HInv Hstep Hd) as (b1 & Hd1 & Hk1 & _).
    exists b1. split; [done|]. split; [|congruence].
    unfold call in Hcall. rewrite Hd, Hk in Hcall.
    destruct (method JsonStream o) as [m|] eqn:Hm; [|done].
    destruct (m (mkFrame d b [])) as [r' f'|f'] eqn:Hmf; simpl in Hcall; [|done].
    injection Hcall as <- <-.
    destruct (json_call_ends o m _ r' f' Hm Hmf) as [Hself He]. simpl in Hself.
    unfold commit in Hd1. rewrite Hself, lookup_insert_eq in Hd1. by injection Hd1 as <-. }
  destruct (kids_run t' σ1 σ' d b1 HInv1 Hrun' Hd1 He1) as (b' & Hd' & Hsuf);
    [by rewrite Hk1|].
  by exists b1, b'.
Qed.

Lemma json_builder_takes_one_value_witness :
  exists b1 b',
    heap_after [Call root (primitive (PNumber (Finite 42)))] !! root = Some b1 /\
    endScheduled b1 = true /\
    after [Call root (primitive (PNumber (Finite 42)));
           Call root (primitive (PNumber (Finite 42)))] !! root = Some b' /\
    kids b' `suffix_of` kids b1.
Proof.
  refine (json_builder_takes_one_value [] _ createBuilder
            (heap_after [Call root (primitive (PNumber (Finite 42)))])
            (after [Call root (primitive (PNumber (Finite 42)));
                    Call root (primitive (PNumber (Finite 42)))])
            root (Builder.create JsonStream None) (primitive (PNumber (Finite 42))) None
            _ _ _ _ _).
  - reflexivity.
  - vm_compute; reflexivity.
  - reflexivity.
  - vm_compute; reflexivity.
  - instantiate (1 := skipn 1 (finish [Call root (primitive (PNumber (Finite 42)));
                                       Call root (primitive (PNumber (Finite 42)))])).
    vm_compute; reflexivity.
Defined.

(** The first of the tests of invalid uses: the second [primitive(42)] is
    ignored. *)
Example second_primitive_ignored :
  let t := [Call root (primitive (PNumber (Finite 42)));
            Call root (primitive (PNumber (Finite 42)))] in
  output root (after t) = "42" /\ toJson (after t) = Resolved (num 42).
Proof. split; vm_compute; reflexivity. Qed.

(* ================================================================== *)
(** * The collector reads back what the encoder wrote *)
(* ================================================================== *)

Lemma chars_app (s1 s2 : string) :
  list_ascii_of_string (s1 +:+ s2) = list_ascii_of_string s1 ++ list_ascii_of_string s2.
Proof.
  induction s1 as [|c s1 IH]; [reflexivity|].
  change (c :: list_ascii_of_string (s1 +:+ s2)
          = c :: (list_ascii_of_string s1 ++ list_ascii_of_string s2)).
  by rewrite IH.
Qed.

(** What can follow a value inside a text: nothing, or a separator, or a
    closing bracket. *)
Definition boundary (l : list ascii) : Prop :=
  match l with
  | [] => True
  | c :: _ => c = ","%char \/ c = "]"%char \/ c = "}"%char
  end.

(** ** Numbers *)

Lemma take_digits_uint (d : Decimal.uint) (rest : list ascii) :
  boundary rest ->
  JSON.take_digits (list_ascii_of_string (NilEmpty.string_of_uint d) ++ rest)
  = (list_ascii_of_string (NilEmpty.string_of_uint d), rest).
Proof.
  intros Hb. induction d as [|d IH|d IH|d IH|d IH|d IH|d IH|d IH|d IH|d IH|d IH];
    simpl; rewrite ?IH; try reflexivity.
  destruct rest as [|c rest]; [reflexivity|].
  destruct Hb as [-> | [-> | ->]]; reflexivity.
Qed.

Lemma to_uint_head (p : positive) (u : Decimal.uint) : Pos.to_uint p <> Decimal.D0 u.
Proof.
  intros H.
  pose proof (DecimalPos.Unsigned.to_of (Pos.to_uint p)) as Hn.
  rewrite DecimalPos.Unsigned.of_to in Hn. simpl in Hn. rewrite H in Hn.
  unfold Decimal.unorm in Hn.
  destruct (Decimal.nzhead (Decimal.D0 u)) eqn:E; try discriminate Hn.
  - injection Hn as ->. by apply (DecimalPos.Unsigned.to_uint_nonzero p).
  - by apply DecimalFacts.nzhead_nonzero in E.
Qed.

Lemma parse_number_uint (d : Decimal.uint) (sign : list ascii) (rest : list ascii) (i : Decimal.int) :
  d <> Decimal.Nil -> (forall u, d = Decimal.D0 u -> u = Decimal.Nil) -> boundary rest ->
  (sign = [] /\ i = Decimal.Pos d \/ sign = ["-"%char] /\ i = Decimal.Neg d) ->
  JSON.parse_number (sign ++ list_ascii_of_string (NilEmpty.string_of_uint d) ++ rest)
  = Some (JPrim (PNumber (Finite (Z.of_int i))), rest).
Proof.
  intros Hnil Hzero Hb Hsign. unfold JSON.parse_number.
  assert (exists c l, list_ascii_of_string (NilEmpty.string_of_uint d) = c :: l /\
                      c <> "-"%char /\ (c = "0"%char -> l = []))
    as (c & l & Hcl & Hminus & Hlead).
  { destruct d as [|d|d|d|d|d|d|d|d|d|d]; try done; simpl; eexists _, _;
      (split; [reflexivity|]); (split; [discriminate|]); try discriminate.
    intros _. by rewrite (Hzero d eq_refl). }
  assert (NilZero.int_of_string
            (string_of_list_ascii (sign ++ list_ascii_of_string (NilEmpty.string_of_uint d)))
          = Some i) as Hint.
  { assert (NilZero.string_of_uint d = NilEmpty.string_of_uint d) as Hs by (by destruct d).
    destruct Hsign as [[-> ->]|[-> ->]].
    - simpl. rewrite string_of_list_ascii_of_string.
      rewrite <- (NilZero.isi (Decimal.Pos d)); [by rewrite <- Hs|congruence|discriminate].
    - simpl. rewrite string_of_list_ascii_of_string.
      rewrite <- (NilZero.isi (Decimal.Neg d)); [by rewrite <- Hs|discriminate|congruence]. }
  assert (match sign ++ list_ascii_of_string (NilEmpty.string_of_uint d) ++ rest with
          | "-"%char :: r => (["-"%char], r)
          | _ => ([], sign ++ list_ascii_of_string (NilEmpty.string_of_uint d) ++ rest)
          end = (sign, list_ascii_of_string (NilEmpty.string_of_uint d) ++ rest)) as ->.
  { destruct Hsign as [[-> ->]|[-> ->]]; [|reflexivity].
    simpl. rewrite Hcl. simpl.
    destruct c as [[] [] [] [] [] [] [] []]; try reflexivity. done. }
  rewrite take_digits_uint by done. rewrite Hint.
  rewrite Hcl.
  assert (match c :: l with
          | [] => false
          | "0"%char :: _ :: _ => false
          | _ => true
          end = true) as ->.
  { destruct l as [|c' l]; [by destruct c as [[] [] [] [] [] [] [] []]|].
    destruct c as [[] [] [] [] [] [] [] []]; try reflexivity.
    by specialize (Hlead eq_refl). }
  destruct rest as [|c' rest]; [reflexivity|].
  destruct Hb as [-> | [-> | ->]]; reflexivity.
Qed.

Lemma parse_number_literal (z : Z) (rest : list ascii) :
  boundary rest ->
  JSON.parse_number (list_ascii_of_string (JSON.number_literal (Finite z)) ++ rest)
  = Some (JPrim (PNumber (Finite z)), rest).
Proof.
  intros Hb. unfold JSON.number_literal.
  rewrite <- (DecimalZ.of_to z) at 2.
  destruct z as [|p|p]; unfold Z.to_int, NilZero.string_of_int.
  - apply (parse_number_uint Decimal.zero [] rest); try done; [by intros u [= <-]|by left].
  - assert (NilZero.string_of_uint (Pos.to_uint p) = NilEmpty.string_of_uint (Pos.to_uint p))
      as -> by (pose proof (DecimalPos.Unsigned.to_uint_nonnil p); by destruct (Pos.to_uint p)).
    apply (parse_number_uint (Pos.to_uint p) [] rest); try done.
    + apply DecimalPos.Unsigned.to_uint_nonnil.
    + intros u Hu. by apply to_uint_head in Hu.
    + by left.
  - assert (NilZero.string_of_uint (Pos.to_uint p) = NilEmpty.string_of_uint (Pos.to_uint p))
      as -> by (pose proof (DecimalPos.Unsigned.to_uint_nonnil p); by destruct (Pos.to_uint p)).
    apply (parse_number_uint (Pos.to_uint p) ["-"%char] rest); try done.
    + apply DecimalPos.Unsigned.to_uint_nonnil.
    + intros u Hu. by apply to_uint_head in Hu.
    + by right.
Qed.

(** ** String literals *)

Lemma parse_escape (c : ascii) (l : list ascii) :
  JSON.parse_chars (list_ascii_of_string (JSON.escape c) ++ l)
  = match JSON.parse_chars l with
    | Some (s, r) => Some (String c s, r)
    | None => None
    end.
Proof. destruct c as [[] [] [] [] [] [] [] []]; reflexivity. Qed.

Lemma parse_escape_all (s : string) (rest : list ascii) :
  JSON.parse_chars (list_ascii_of_string (JSON.escape_all s) ++ JSON.dquote :: rest)
  = Some (s, rest).
Proof.
  induction s as [|c s IH]; [reflexivity|].
  change (JSON.escape_all (String c s)) with (JSON.escape c +:+ JSON.escape_all s).
  by rewrite chars_app, <- app_assoc, parse_escape, IH.
Qed.

Lemma chars_quote (s : string) (rest : list ascii) :
  list_ascii_of_string (JSON.quote s) ++ rest
  = JSON.dquote :: list_ascii_of_string (JSON.escape_all s) ++ JSON.dquote :: rest.
Proof.
  unfold JSON.quote.
  change (list_ascii_of_string (String JSON.dquote (JSON.escape_all s +:+ String JSON.dquote "")))
    with (JSON.dquote :: list_ascii_of_string (JSON.escape_all s +:+ String JSON.dquote "")).
  rewrite chars_app. simpl. by rewrite <- app_assoc.
Qed.

(** ** The first character of a value *)

Lemma parse_value_string f l :
  JSON.parse_value (S f) (JSON.dquote :: l)
  = match JSON.parse_chars l with
    | Some (s, r) => Some (JPrim (PString s), r)
    | None => None
    end.
Proof. reflexivity. Qed.

Lemma parse_value_number f c l :
  JSON.is_digit c = true \/ c = "-"%char ->
  JSON.parse_value (S f) (c :: l) = JSON.parse_number (c :: l).
Proof.
  intros [H|H]; destruct c as [[] [] [] [] [] [] [] []];
    try discriminate H; reflexivity.
Qed.

Lemma parse_value_array f c l :
  JSON.is_ws c = false -> c <> "]"%char ->
  JSON.parse_value (S f) ("["%char :: c :: l)
  = match JSON.parse_elements f (c :: l) with
    | Some (vs, r) => Some (JArray vs, r)
    | None => None
    end.
Proof.
  intros Hws Hne. destruct c as [[] [] [] [] [] [] [] []];
    try discriminate Hws; try reflexivity. done.
Qed.

Lemma parse_value_object f c l :
  JSON.is_ws c = false -> c <> "}"%char ->
  JSON.parse_value (S f) ("{"%char :: c :: l)
  = match JSON.parse_members f [] (c :: l) with
    | Some (ps, r) => Some (JObject ps, r)
    | None => None
    end.
Proof.
  intros Hws Hne. destruct c as [[] [] [] [] [] [] [] []];
    try discriminate Hws; try reflexivity. done.
Qed.

(** A character a value can begin with. *)
Definition opening_char (c : ascii) : Prop :=
  JSON.is_ws c = false /\ c <> "]"%char /\ c <> "}"%char.

Lemma digit_opening c : JSON.is_digit c = true \/ c = "-"%char -> opening_char c.
Proof.
  intros [H|H]; destruct c as [[] [] [] [] [] [] [] []];
    try discriminate H; repeat split; discriminate.
Qed.

Lemma number_head (z : Z) :
  exists c l, list_ascii_of_string (JSON.number_literal (Finite z)) = c :: l /\
              (JSON.is_digit c = true \/ c = "-"%char).
Proof.
  unfold JSON.number_literal, NilZero.string_of_int.
  destruct z as [|p|p]; simpl.
  - eexists _, _. split; [reflexivity|by left].
  - pose proof (DecimalPos.Unsigned.to_uint_nonnil p) as Hn.
    destruct (Pos.to_uint p); try done; simpl; eexists _, _; (split; [reflexivity|by left]).
  - eexists _, _. split; [reflexivity|by right].
Qed.

(** ** Values the collector reads back *)

Fixpoint distinct (keys : list string) : bool :=
  match keys with
  | [] => true
  | key :: rest => negb (existsb (String.eqb key) rest) && distinct rest
  end.

(** The values [JSON.parse] gives back as they were: their numbers are
    finite and no object has a key twice. *)
Fixpoint readable (v : JsonValue) : bool :=
  match v with
  | JPrim (PNumber (Finite _)) => true
  | JPrim (PNumber _) => false
  | JPrim _ => true
  | JArray items => forallb readable items
  | JObject props => distinct (map fst props) && forallb (fun kv => readable kv.2) props
  | JCircular _ => false
  end.

Lemma length_append (s1 s2 : string) :
  String.length (s1 +:+ s2) = String.length s1 + String.length s2.
Proof.
  induction s1 as [|c s1 IH]; [reflexivity|].
  change (S (String.length (s1 +:+ s2)) = S (String.length s1 + String.length s2)).
  by rewrite IH.
Qed.

Lemma join_cons_cons (t t' : string) (ts : list string) :
  JSON.join "," (t :: t' :: ts) = t +:+ "," +:+ JSON.join "," (t' :: ts).
Proof. reflexivity. Qed.

(** What the encoder wrote begins with a character a value can begin
    with. *)
Lemma stringify_head (v : JsonValue) (s : string) :
  JSON.stringify v = Some s ->
  exists c l, list_ascii_of_string s = c :: l /\ opening_char c.
Proof.
  destruct v as [[|str|[z| |neg]|[|]]|items|props|up]; intros H.
  - injection H as <-. eexists _, _. split; [reflexivity|]. repeat split; discriminate.
  - injection H as <-. eexists _, _. split; [reflexivity|]. repeat split; discriminate.
  - injection H as <-. destruct (number_head z) as (c & l & Hcl & Hc).
    exists c, l. split; [done|]. by apply digit_opening.
  - injection H as <-. eexists _, _. split; [reflexivity|]. repeat split; discriminate.
  - injection H as <-. eexists _, _. split; [reflexivity|]. repeat split; discriminate.
  - injection H as <-. eexists _, _. split; [reflexivity|]. repeat split; discriminate.
  - injection H as <-. eexists _, _. split; [reflexivity|]. repeat split; discriminate.
  - rewrite stringify_array in H. destruct (collect _); [|done]. injection H as <-.
    eexists _, _. split; [reflexivity|]. repeat split; discriminate.
  - rewrite stringify_object in H. destruct (collect _); [|done]. injection H as <-.
    eexists _, _. split; [reflexivity|]. repeat split; discriminate.
  - done.
Qed.

(** What holds of a value when it holds below it: the encoder's text is
    read back, with any text behind it that begins at a boundary. *)
Definition read_back (v : JsonValue) : Prop :=
  readable v = true -> forall s, JSON.stringify v = Some s ->
  forall fuel rest, String.length s <= fuel -> boundary rest ->
  JSON.parse_value fuel (list_ascii_of_string s ++ rest) = Some (v, rest).

Lemma skip_ws_head (c : ascii) (l : list ascii) :
  JSON.is_ws c = false -> JSON.skip_ws (c :: l) = c :: l.
Proof. intros H. simpl. by rewrite H. Qed.

Lemma parse_elements_join (items : list JsonValue) (texts : list string) :
  Forall2 (fun x t => JSON.stringify x = Some t) items texts ->
  Forall read_back items -> forallb readable items = true -> items <> [] ->
  forall fuel rest, String.length (JSON.join "," texts) < fuel ->
    JSON.parse_elements fuel (list_ascii_of_string (JSON.join "," texts) ++ "]"%char :: rest)
    = Some (items, rest).
Proof.
  induction 1 as [|x t items texts Hx Hall IH]; intros Hrb Hread Hne fuel rest Hlen; [done|].
  apply Forall_cons in Hrb as [Hrbx Hrb].
  simpl in Hread. apply andb_true_iff in Hread as [Hreadx Hread].
  destruct fuel as [|f]; [lia|]. cbn [JSON.parse_elements].
  destruct Hall as [|x' t' items texts Hx' Hall].
  - change (JSON.join "," [t]) with t in *.
    rewrite (Hrbx Hreadx t Hx f ("]"%char :: rest)); [reflexivity|lia|].
    simpl. auto.
  - rewrite join_cons_cons in *. rewrite !length_append in Hlen.
    rewrite !chars_app, <- !app_assoc.
    rewrite (Hrbx Hreadx t Hx f); [|lia|simpl; auto].
    change (list_ascii_of_string "," ++
            list_ascii_of_string (JSON.join "," (t' :: texts)) ++ "]"%char :: rest)
      with (","%char :: list_ascii_of_string (JSON.join "," (t' :: texts))
                     ++ "]"%char :: rest).
    rewrite skip_ws_head by reflexivity.
    rewrite (IH Hrb Hread); [reflexivity|done|].
    change (String.length ",") with 1 in Hlen. lia.
Qed.

Lemma set_prop_new (key : string) (v : JsonValue) (seen : list (string * JsonValue)) :
  existsb (String.eqb key) (map fst seen) = false ->
  JSON.set_prop key v seen = seen ++ [(key, v)].
Proof.
  induction seen as [|[k' v'] seen IH]; simpl; [done|].
  intros H. apply orb_false_iff in H as [-> H]. by rewrite IH.
Qed.

Lemma parse_members_step f seen key l :
  JSON.parse_members (S f) seen
    (JSON.dquote :: list_ascii_of_string (JSON.escape_all key)
                 ++ JSON.dquote :: ":"%char :: l)
  = match JSON.parse_value f l with
    | Some (v, r) =>
        match JSON.skip_ws r with
        | ","%char :: r3 => JSON.parse_members f (JSON.set_prop key v seen) r3
        | "}"%char :: r3 => Some (JSON.set_prop key v seen, r3)
        | _ => None
        end
    | None => None
    end.
Proof.
  cbn [JSON.parse_members]. rewrite skip_ws_head by reflexivity.
  rewrite Ascii.eqb_refl, parse_escape_all. by rewrite skip_ws_head by reflexivity.
Qed.

Lemma chars_member (key t : string) (rest : list ascii) :
  list_ascii_of_string (JSON.quote key +:+ ":" +:+ t) ++ rest
  = JSON.dquote :: list_ascii_of_string (JSON.escape_all key)
                ++ JSON.dquote :: ":"%char :: list_ascii_of_string t ++ rest.
Proof.
  rewrite !chars_app, <- !app_assoc. rewrite chars_quote. reflexivity.
Qed.

(** The text of a member: its key between quotation marks, a colon, the
    text of its value. *)
Definition member_text (kv : string * JsonValue) (mt : string) : Prop :=
  exists t, JSON.stringify kv.2 = Some t /\ mt = JSON.quote kv.1 +:+ ":" +:+ t.

Lemma collect_member_texts (props : list (string * JsonValue)) (mtexts : list string) :
  collect (map member props) = Some mtexts -> Forall2 member_text props mtexts.
Proof.
  revert mtexts. induction props as [|[key x] props IH]; intros mtexts H; simpl in H.
  - injection H as <-. constructor.
  - unfold member in H at 1. simpl in H.
    destruct (JSON.stringify x) as [t|] eqn:Et; [|done].
    destruct (collect (map member props)) as [ss|]; [|done].
    injection H as <-. constructor; [by exists t|by apply IH].
Qed.

Lemma parse_members_join (props : list (string * JsonValue)) (mtexts : list string) :
  Forall2 member_text props mtexts ->
  Forall (fun kv => read_back kv.2) props ->
  forallb (fun kv => readable kv.2) props = true -> props <> [] ->
  forall fuel seen rest,
    String.length (JSON.join "," mtexts) < fuel ->
    distinct (map fst props) = true ->
    (forall key, key ∈ map fst props -> existsb (String.eqb key) (map fst seen) = false) ->
    JSON.parse_members fuel seen
      (list_ascii_of_string (JSON.join "," mtexts) ++ "}"%char :: rest)
    = Some (seen ++ props, rest).
Proof.
  induction 1 as [|[key x] mt props mtexts (t & Ht & ->) Hall IH];
    intros Hrb Hread Hne fuel seen rest Hlen Hd Hseen; [done|].
  apply Forall_cons in Hrb as [Hrbx Hrb].
  simpl in Hread. apply andb_true_iff in Hread as [Hreadx Hread].
  simpl in Hd. apply andb_true_iff in Hd as [Hkey Hd]. apply negb_true_iff in Hkey.
  cbn [fst snd] in *.
  assert (JSON.set_prop key x seen = seen ++ [(key, x)]) as Hset.
  { apply set_prop_new. apply Hseen. by left. }
  destruct fuel as [|f]; [lia|].
  destruct Hall as [|[key' x'] mt' props mtexts Hmt' Hall].
  - change (JSON.join "," [JSON.quote key +:+ ":" +:+ t]) with (JSON.quote key +:+ ":" +:+ t)
      in *.
    rewrite !length_append in Hlen.
    rewrite chars_member, parse_members_step.
    rewrite (Hrbx Hreadx t Ht f ("}"%char :: rest)); [|lia|simpl; auto].
    rewrite skip_ws_head by reflexivity. by rewrite Hset.
  - rewrite join_cons_cons in *. rewrite !length_append in Hlen.
    change (String.length ",") with 1 in Hlen.
    rewrite chars_app, <- app_assoc, chars_member, parse_members_step.
    change (list_ascii_of_string ("," +:+ JSON.join "," (mt' :: mtexts)) ++ "}"%char :: rest)
      with (","%char :: list_ascii_of_string (JSON.join "," (mt' :: mtexts))
                     ++ "}"%char :: rest).
    rewrite (Hrbx Hreadx t Ht f); [|lia|simpl; auto].
    rewrite skip_ws_head by reflexivity. rewrite Hset.
    rewrite (IH Hrb Hread); [by rewrite <- app_assoc|done|lia|done|].
    intros k Hk. rewrite map_app, existsb_app. simpl.
    rewrite (Hseen k) by (by right). simpl.
    rewrite orb_false_r. destruct (String.eqb k key) eqn:E; [|done].
    apply String.eqb_eq in E as ->. exfalso.
    assert (existsb (String.eqb key) (map fst ((key', x') :: props)) = true) as Hin.
    { apply existsb_exists. exists key. split; [by apply list_elem_of_In|].
      apply String.eqb_refl. }
    congruence.
Qed.

Lemma length_chars (s : string) : List.length (list_ascii_of_string s) = String.length s.
Proof. induction s as [|c s IH]; simpl; [done|]. by rewrite IH. Qed.

(** [JSON.parse] reads back what [JSON.stringify] wrote. *)
Lemma parse_stringify (v : JsonValue) : read_back v.
Proof.
  induction v as [data|items IH|props IH|up] using JsonValue_rect';
    intros Hread s Hs fuel rest Hlen Hb.
  - rewrite stringify_prim in Hs. injection Hs as <-.
    destruct data as [|str|[z| |neg]|[|]]; try discriminate Hread.
    + destruct fuel as [|f]; [simpl in Hlen; lia|reflexivity].
    + destruct fuel as [|f]; [simpl in Hlen; lia|].
      change (JSON.literal (PString str)) with (JSON.quote str).
      by rewrite chars_quote, parse_value_string, parse_escape_all.
    + change (JSON.literal (PNumber (Finite z))) with (JSON.number_literal (Finite z)) in *.
      destruct (number_head z) as (c & l & Hcl & Hc).
      destruct fuel as [|f].
      { rewrite <- length_chars, Hcl in Hlen. simpl in Hlen. lia. }
      rewrite <- (parse_number_literal z rest Hb). rewrite Hcl.
      rewrite <- app_comm_cons. by apply parse_value_number.
    + destruct fuel as [|f]; [simpl in Hlen; lia|reflexivity].
    + destruct fuel as [|f]; [simpl in Hlen; lia|reflexivity].
  - rewrite stringify_array in Hs.
    destruct (collect (map JSON.stringify items)) as [texts|] eqn:E; [|done].
    injection Hs as <-. destruct (collect_texts items texts E) as [Htexts _].
    simpl in Hread. rewrite !length_append in Hlen.
    change (String.length "[") with 1 in Hlen. change (String.length "]") with 1 in Hlen.
    destruct fuel as [|f]; [lia|].
    rewrite !chars_app, <- !app_assoc.
    change (list_ascii_of_string "[" ++ list_ascii_of_string (JSON.join "," texts)
              ++ list_ascii_of_string "]" ++ rest)
      with ("["%char :: list_ascii_of_string (JSON.join "," texts) ++ "]"%char :: rest).
    destruct Htexts as [|x t items texts Hx Htexts]; [reflexivity|].
    destruct (stringify_head x t Hx) as (c & l & Hcl & Hws & Hne & _).
    assert (exists l', list_ascii_of_string (JSON.join "," (t :: texts)) = c :: l')
      as [l' Hcl'].
    { destruct texts as [|t' texts]; [by exists l|].
      rewrite join_cons_cons, chars_app, Hcl. by eexists. }
    pose proof (parse_elements_join (x :: items) (t :: texts)
                  ltac:(by constructor) IH Hread ltac:(done) f rest
                  ltac:(lia)) as Hpe.
    rewrite Hcl' in *. rewrite <- app_comm_cons in *.
    rewrite parse_value_array by done. by rewrite Hpe.
  - rewrite stringify_object in Hs.
    destruct (collect (map member props)) as [mtexts|] eqn:E; [|done].
    injection Hs as <-. pose proof (collect_member_texts props mtexts E) as Htexts.
    simpl in Hread. apply andb_true_iff in Hread as [Hd Hread].
    rewrite !length_append in Hlen.
    change (String.length "{") with 1 in Hlen. change (String.length "}") with 1 in Hlen.
    destruct fuel as [|f]; [lia|].
    rewrite !chars_app, <- !app_assoc.
    change (list_ascii_of_string "{" ++ list_ascii_of_string (JSON.join "," mtexts)
              ++ list_ascii_of_string "}" ++ rest)
      with ("{"%char :: list_ascii_of_string (JSON.join "," mtexts) ++ "}"%char :: rest).
    destruct Htexts as [|[key x] mt props mtexts Hmt Htexts]; [reflexivity|].
    assert (exists l', list_ascii_of_string (JSON.join "," (mt :: mtexts))
                       = JSON.dquote :: l') as [l' Hcl'].
    { destruct Hmt as (t & _ & ->).
      destruct mtexts as [|mt' mtexts].
      - change (JSON.join "," [JSON.quote (key, x).1 +:+ ":" +:+ t])
          with (JSON.quote (key, x).1 +:+ ":" +:+ t).
        rewrite <- (app_nil_r (list_ascii_of_string _)), chars_member. by eexists.
      - rewrite join_cons_cons, chars_app, chars_member. by eexists. }
    pose proof (parse_members_join ((key, x) :: props) (mt :: mtexts)
                  ltac:(by constructor) IH Hread ltac:(done) f [] rest
                  ltac:(lia) Hd ltac:(done)) as Hpm.
    rewrite Hcl' in *. rewrite <- app_comm_cons in *.
    rewrite parse_value_object by done. by rewrite Hpm.
  - done.
Qed.

Lemma readable_acyclic (v : JsonValue) : readable v = true -> has_cycle v = false.
Proof.
  induction v as [data|items IH|props IH|up] using JsonValue_rect'; intros H; try done.
  - simpl in *. apply not_true_is_false. intros Hex.
    apply existsb_exists in Hex as (x & Hx & Hcx).
    rewrite forallb_forall in H. specialize (H x Hx).
    apply list_elem_of_In in Hx.
    rewrite (proj1 (Forall_forall _ _) IH x Hx H) in Hcx. done.
  - simpl in *. apply andb_true_iff in H as [_ H]. apply not_true_is_false. intros Hex.
    apply existsb_exists in Hex as (kv & Hkv & Hcx).
    rewrite forallb_forall in H. specialize (H kv Hkv).
    apply list_elem_of_In in Hkv.
    rewrite (proj1 (Forall_forall _ _) IH kv Hkv H) in Hcx. done.
Qed.

Lemma readable_parse (v : JsonValue) :
  readable v = true ->
  exists s, JSON.stringify v = Some s /\ JSON.parse s = Some v.
Proof.
  intros Hread. destruct (JSON.stringify v) as [s|] eqn:Hs.
  - exists s. split; [done|]. unfold JSON.parse.
    pose proof (parse_stringify v Hread s Hs (S (List.length (list_ascii_of_string s))) []
                  ltac:(rewrite length_chars; lia) I) as Hp.
    rewrite app_nil_r in Hp. by rewrite Hp.
  - apply stringify_cycle in Hs. by rewrite readable_acyclic in Hs.
Qed.

(** ** What [toJson] resolves with *)




